(** * video2hls: rendition planning and manifest assembly

    A shallow embedding of [video2hls_lib.py] (the geometry fitter
    [contained_in], the option normalizer [fix_options], the codec atom
    decoder [extract_codecs] and the master playlist writer of [transcode])
    together with the properties its design document states about them.

    Python values are embedded as follows.
    - [int] is [Z] (unbounded, as in Python).
    - [float] is the rational value of a binary64 number, of type [Q]; every
      float operation rounds its exact result with [fl] (53-bit significand,
      round to nearest, ties to even).  The exponent range is not modelled:
      the development speaks of finite floats away from overflow and
      underflow, which is where the program's widths, heights, bit rates and
      frame rates live.  Where Python raises [OverflowError] (an int beyond
      the double range is converted or divided) or underflows to [0.0], the
      model goes on with the exact rounding; a theorem that says that a
      computation on floats returns, or which exception it raises, bounds
      the integers involved so that this range is not left.
    - [str] is [string], read as a sequence of code points below 256; a
      list is a [list]; [None] is an [option].
    - [int(s)] has no limit on the number of digits of [s] (the interpreter
      may be set to refuse more than 4300 of them with [ValueError]): the
      numbers read from options and dumps are taken below that limit.
    - an exception is a value of [exn]; code that mutates [options] in place
      and may raise runs in the state-and-exception monad [M]. *)

From Stdlib Require Import ZArith QArith Qround Qabs Qpower Qreduction.
From Stdlib Require Import List String Ascii Bool Lia Lqa.
From Stdlib Require DecimalString HexadecimalString.
Import ListNotations.

Local Open Scope Z_scope.

(** ** Python floats: binary64 rounding on rationals *)

Module Float.

(** Nearest integer, ties to the even one. *)
Definition rne (x : Q) : Z :=
  let f := Qfloor x in
  match Qcompare (x - inject_Z f) (1 # 2) with
  | Lt => f
  | Gt => f + 1
  | Eq => if Z.even f then f else f + 1
  end.

(** The exponent [k] with [2^k <= q < 2^(k+1)], for [q > 0]. *)
Definition binade (q : Q) : Z :=
  let c := Z.log2 (Qnum q) - Z.log2 (Zpos (Qden q)) in
  if Qle_bool (2 ^ c) q then c else c - 1.

(** Significand width of binary64. *)
Definition prec : Z := 53.

(** Rounding of a positive rational to [prec] significant bits. *)
Definition round_pos (q : Q) : Q :=
  let e := binade q - (prec - 1) in
  Qred (inject_Z (rne (q * 2 ^ (- e))) * 2 ^ e).

(** [fl q]: the binary64 number nearest to [q]. *)
Definition fl (q : Q) : Q :=
  let r := Qred q in
  match Qnum r with
  | Z0 => 0%Q
  | Zpos _ => round_pos r
  | Zneg _ => Qopp (round_pos (Qopp r))
  end.

(** [int(x)] of a float: truncation towards zero. *)
Definition trunc (q : Q) : Z :=
  if Qle_bool 0 q then Qfloor q else Qceiling q.

(** [float(n)] of an int, and the arithmetic the program uses.  An [int]
    operand of a mixed operation is first converted with [of_int]. *)
Definition of_int (n : Z) : Q := fl (inject_Z n).
Definition mul (x y : Q) : Q := fl (x * y).
Definition div (x y : Q) : Q := fl (x / y).

(** [a / b] on two ints: CPython rounds the exact quotient once. *)
Definition int_truediv (a b : Z) : Q := fl (inject_Z a / inject_Z b).

(** The literal [1.1]. *)
Definition c1_1 : Q := Eval vm_compute in fl (11 # 10).

End Float.

(** ** The Python layer: exceptions, strings, formatting *)

Module Py.

Local Open Scope string_scope.

(** The exceptions the modelled code raises or catches. *)
Inductive exn : Type :=
| IndexError
| ValueError
| TypeError
| AttributeError
| ZeroDivisionError
| FileNotFoundError
| RuntimeError (msg : string).

(** The outcome of a call that may raise. *)
Inductive result (A : Type) : Type :=
| Ok (a : A)
| Raise (e : exn).
Arguments Ok {A} a.
Arguments Raise {A} e.

Definition rbind {A B} (r : result A) (f : A -> result B) : result B :=
  match r with
  | Ok a => f a
  | Raise e => Raise e
  end.

(** [try: r except Exception: h] *)
Definition except {A} (r : result A) (h : result A) : result A :=
  match r with
  | Ok a => Ok a
  | Raise _ => h
  end.

(** [l[i]] for a non-negative index. *)
Definition getitem {A} (l : list A) (i : nat) : result A :=
  match nth_error l i with
  | Some a => Ok a
  | None => Raise IndexError
  end.

(** [l[-1]] *)
Definition getlast {A} (l : list A) : result A :=
  match rev l with
  | a :: _ => Ok a
  | [] => Raise IndexError
  end.

(** [del l[i]]: raises [IndexError] out of range. *)
Fixpoint delitem {A} (l : list A) (i : nat) : result (list A) :=
  match l, i with
  | [], _ => Raise IndexError
  | _ :: l', O => Ok l'
  | a :: l', S i' => rbind (delitem l' i') (fun r => Ok (a :: r))
  end.

(** [l.index(x)] on ints. *)
Fixpoint index (l : list Z) (x : Z) : result nat :=
  match l with
  | [] => Raise ValueError
  | a :: l' => if Z.eqb a x then Ok O else rbind (index l' x) (fun i => Ok (S i))
  end.

(** [max] called on the unpacked elements of [l]: with no argument, and with
    a single argument that is not iterable (an int), it raises [TypeError]. *)
Definition max_star (l : list Z) : result Z :=
  match l with
  | [] => Raise TypeError
  | [_] => Raise TypeError
  | a :: l' => Ok (fold_left Z.max l' a)
  end.

(** *** Characters and strings *)

Definition nl : string := String "010" "".
Definition dquote : string := String "034" "".

(** What [\s] matches and what [str.strip] and [int] skip, among the code
    points below 256: the ASCII whitespace and separators, the next-line
    control U+0085 and the no-break space U+00A0. *)
Definition is_space (c : ascii) : bool :=
  let n := nat_of_ascii c in
  ((9 <=? n) && (n <=? 13) || (28 <=? n) && (n <=? 32) ||
   (n =? 133) || (n =? 160))%nat.

(** What [\d] matches and the digits [int] reads, among the code points
    below 256: the ASCII digits. *)
Definition is_digit (c : ascii) : bool :=
  let n := nat_of_ascii c in ((48 <=? n) && (n <=? 57))%nat.

Definition is_newline (c : ascii) : bool := Ascii.eqb c "010".

Definition digit_value (c : ascii) : Z := Z.of_nat (nat_of_ascii c) - 48.

(** The longest prefix of [s] whose characters satisfy [p], and the rest. *)
Fixpoint span (p : ascii -> bool) (s : string) : string * string :=
  match s with
  | EmptyString => (EmptyString, EmptyString)
  | String c s' =>
      if p c then let (a, b) := span p s' in (String c a, b)
      else (EmptyString, s)
  end.

(** [s] without the prefix [p], when it starts with it. *)
Fixpoint strip_prefix (p s : string) : option string :=
  match p, s with
  | EmptyString, _ => Some s
  | String a p', String b s' => if Ascii.eqb a b then strip_prefix p' s' else None
  | String _ _, EmptyString => None
  end.

(** [s.startswith(p)] *)
Definition startswith (s p : string) : bool :=
  match strip_prefix p s with Some _ => true | None => false end.

(** [sub in s] *)
Fixpoint contains (sub s : string) : bool :=
  startswith s sub ||
  match s with
  | EmptyString => false
  | String _ s' => contains sub s'
  end.

(** [len(s) - len(s.lstrip(" "))] *)
Fixpoint leading_spaces (s : string) : nat :=
  match s with
  | String " " s' => S (leading_spaces s')
  | _ => O
  end.

(** [" " * n] *)
Fixpoint spaces (n : nat) : string :=
  match n with
  | O => EmptyString
  | S n' => String " " (spaces n')
  end.

(** [s.split(sep)] for a one-character separator. *)
Fixpoint split (sep : ascii) (s : string) : list string :=
  match s with
  | EmptyString => [EmptyString]
  | String c s' =>
      if Ascii.eqb c sep then EmptyString :: split sep s'
      else match split sep s' with
           | w :: ws => String c w :: ws
           | [] => [String c EmptyString]
           end
  end.

(** [s.split(sep, 1)]: at most one cut. *)
Fixpoint split1 (sep : ascii) (s : string) : list string :=
  match s with
  | EmptyString => [EmptyString]
  | String c s' =>
      if Ascii.eqb c sep then [EmptyString; s']
      else match split1 sep s' with
           | w :: ws => String c w :: ws
           | [] => [String c EmptyString]
           end
  end.

(** [sep.join(l)] *)
Fixpoint join (sep : string) (l : list string) : string :=
  match l with
  | [] => EmptyString
  | [a] => a
  | a :: l' => a ++ sep ++ join sep l'
  end.

(** *** Reading and printing ints *)

(** Value of a run of decimal digits, most significant first. *)
Fixpoint digits_value (acc : Z) (s : string) : Z :=
  match s with
  | EmptyString => acc
  | String c s' => digits_value (10 * acc + digit_value c) s'
  end.

(** Digits with single underscores between them, as [int()] accepts. *)
Fixpoint int_digits (after_digit : bool) (acc : Z) (s : string) : option Z :=
  match s with
  | EmptyString => if after_digit then Some acc else None
  | String c s' =>
      if is_digit c then int_digits true (10 * acc + digit_value c) s'
      else if Ascii.eqb c "_" && after_digit then
        match s' with
        | String d _ => if is_digit d then int_digits false acc s' else None
        | EmptyString => None
        end
      else None
  end.

Fixpoint rstrip_spaces (s : string) : string :=
  match s with
  | EmptyString => EmptyString
  | String c s' =>
      match rstrip_spaces s' with
      | EmptyString => if is_space c then EmptyString else String c EmptyString
      | r => String c r
      end
  end.

(** [int(s)] in base ten: surrounding whitespace, an optional sign, digits. *)
Definition int_of_str (s : string) : result Z :=
  let body := rstrip_spaces (snd (span is_space s)) in
  let parsed :=
    match body with
    | String "-" r => option_map Z.opp (int_digits false 0 r)
    | String "+" r => int_digits false 0 r
    | _ => int_digits false 0 body
    end in
  match parsed with
  | Some z => Ok z
  | None => Raise ValueError
  end.

(** [str(n)], which is also [f"{n}"]. *)
Definition str_of_int (n : Z) : string :=
  DecimalString.NilZero.string_of_int (Z.to_int n).

(** [f"{n:02x}"] for [n >= 0]: lowercase hexadecimal, padded with a zero to
    two characters; longer numbers are printed in full. *)
Definition hex02 (n : Z) : string :=
  let h := HexadecimalString.NilZero.string_of_uint (N.to_hex_uint (Z.to_N n)) in
  match h with
  | String c EmptyString => String "0" h
  | _ => h
  end.

(** *** Printing floats *)

(** Digits of [n] in groups of three separated by commas. *)
Fixpoint group3 (fuel : nat) (n : Z) : string :=
  match fuel with
  | O => str_of_int n
  | S fuel' =>
      if (n <? 1000)%Z then str_of_int n
      else
        let r := n mod 1000 in
        group3 fuel' (n / 1000) ++ "," ++
        (if (r <? 10)%Z then "00" else if (r <? 100)%Z then "0" else "") ++ str_of_int r
  end.

(** [f"{x:,.3f}"]: the value rounded to three decimals (ties to even on the
    exact binary value), thousands separated by commas. *)
Definition format_comma_3f (x : Q) : string :=
  let m := Float.rne (Qabs x * 1000) in
  let i := m / 1000 in
  let r := m mod 1000 in
  (if Qle_bool 0 x then "" else "-") ++
  group3 (Z.to_nat (Z.log2 (i + 1))) i ++ "." ++
  (if (r <? 10)%Z then "00" else if (r <? 100)%Z then "0" else "") ++ str_of_int r.

End Py.

(** ** State and exceptions: code that mutates an object and may raise *)

Module Monad.

Import Py.

(** A computation over a mutable state [S]: the state it leaves is kept also
    when it raises, as an object mutated in place is. *)
Definition M (S A : Type) : Type := S -> result A * S.

Definition ret {S A} (a : A) : M S A := fun s => (Ok a, s).

Definition bind {S A B} (m : M S A) (f : A -> M S B) : M S B :=
  fun s =>
    match m s with
    | (Ok a, s') => f a s'
    | (Raise e, s') => (Raise e, s')
    end.

Definition raise {S A} (e : exn) : M S A := fun s => (Raise e, s).
Definition get {S} : M S S := fun s => (Ok s, s).
Definition modify {S} (f : S -> S) : M S unit := fun s => (Ok tt, f s).

(** A pure fallible value used inside a computation. *)
Definition lift {S A} (r : result A) : M S A := fun s => (r, s).

(** [for x in l: body(x)] *)
Fixpoint for_each {S A} (l : list A) (body : A -> M S unit) : M S unit :=
  match l with
  | [] => ret tt
  | x :: l' => bind (body x) (fun _ => for_each l' body)
  end.

(** A computation that writes to a file and may raise: the chunks written
    so far, in order, and the outcome.  What was written stays written when
    the computation raises. *)
Definition W (C A : Type) : Type := list C * result A.

Definition wret {C A} (a : A) : W C A := ([], Ok a).

Definition wbind {C A B} (m : W C A) (f : A -> W C B) : W C B :=
  match m with
  | (out, Ok a) => let (out', r) := f a in (out ++ out', r)
  | (out, Raise e) => (out, Raise e)
  end.

(** [file.write(c)] *)
Definition tell {C} (c : C) : W C unit := ([c], Ok tt).

Definition wlift {C A} (r : result A) : W C A := ([], r).

Fixpoint wfor {C A} (l : list A) (body : A -> W C unit) : W C unit :=
  match l with
  | [] => wret tt
  | x :: l' => wbind (body x) (fun _ => wfor l' body)
  end.

End Monad.

Declare Scope monad_scope.
Delimit Scope monad_scope with monad.
Notation "x <- m ;; k" := (Monad.bind m (fun x => k))
  (at level 61, m at next level, right associativity) : monad_scope.
Notation "m ;; k" := (Monad.bind m (fun _ => k))
  (at level 61, right associativity) : monad_scope.

Declare Scope writer_scope.
Delimit Scope writer_scope with writer.
Notation "x <- m ;; k" := (Monad.wbind m (fun x => k))
  (at level 61, m at next level, right associativity) : writer_scope.
Notation "m ;; k" := (Monad.wbind m (fun _ => k))
  (at level 61, right associativity) : writer_scope.

(** ** The program *)

Module Video2hls.

Import Py Monad.
Local Open Scope string_scope.

(** A Python number that may be an [int] or a [float]. *)
Inductive num : Type :=
| Int (z : Z)
| Flt (q : Q).

(** [options.ratio]: the text ["W:H"] before normalization, a float after. *)
Inductive ratio_value : Type :=
| RatioStr (s : string)
| RatioNum (q : Q).

(** The attributes of the argparse namespace that the modelled functions
    read or write. *)
Record Options : Type := {
  hls_playlist_prefix : list string;
  hls_add_codecs : bool;
  video_widths : list Z;
  video_bitrates : list Z;
  video_codecs : list string;
  video_profiles : list string;
  video_names : list string;
  video_presets : list string;
  video_bitrate_factor : Q;
  audio_bitrate : Z;
  audio_only : bool;
  audio_separate : bool;
  mp4 : bool;
  mp4_width : option Z;
  mp4_max_width : Z;
  mp4_bitrate_factor : Q;
  mp4_bitrate : option num;
  poster_width : option Z;
  poster_max_width : Z;
  ratio : ratio_value
}.

(** Attribute assignment, [options.f = v]. *)
Definition set_hls_playlist_prefix (v : list string) (o : Options) : Options :=
  {| hls_playlist_prefix := v;
     hls_add_codecs := hls_add_codecs o;
     video_widths := video_widths o;
     video_bitrates := video_bitrates o;
     video_codecs := video_codecs o;
     video_profiles := video_profiles o;
     video_names := video_names o;
     video_presets := video_presets o;
     video_bitrate_factor := video_bitrate_factor o;
     audio_bitrate := audio_bitrate o;
     audio_only := audio_only o;
     audio_separate := audio_separate o;
     mp4 := mp4 o;
     mp4_width := mp4_width o;
     mp4_max_width := mp4_max_width o;
     mp4_bitrate_factor := mp4_bitrate_factor o;
     mp4_bitrate := mp4_bitrate o;
     poster_width := poster_width o;
     poster_max_width := poster_max_width o;
     ratio := ratio o |}.

Definition set_video_widths (v : list Z) (o : Options) : Options :=
  {| hls_playlist_prefix := hls_playlist_prefix o;
     hls_add_codecs := hls_add_codecs o;
     video_widths := v;
     video_bitrates := video_bitrates o;
     video_codecs := video_codecs o;
     video_profiles := video_profiles o;
     video_names := video_names o;
     video_presets := video_presets o;
     video_bitrate_factor := video_bitrate_factor o;
     audio_bitrate := audio_bitrate o;
     audio_only := audio_only o;
     audio_separate := audio_separate o;
     mp4 := mp4 o;
     mp4_width := mp4_width o;
     mp4_max_width := mp4_max_width o;
     mp4_bitrate_factor := mp4_bitrate_factor o;
     mp4_bitrate := mp4_bitrate o;
     poster_width := poster_width o;
     poster_max_width := poster_max_width o;
     ratio := ratio o |}.

Definition set_video_bitrates (v : list Z) (o : Options) : Options :=
  {| hls_playlist_prefix := hls_playlist_prefix o;
     hls_add_codecs := hls_add_codecs o;
     video_widths := video_widths o;
     video_bitrates := v;
     video_codecs := video_codecs o;
     video_profiles := video_profiles o;
     video_names := video_names o;
     video_presets := video_presets o;
     video_bitrate_factor := video_bitrate_factor o;
     audio_bitrate := audio_bitrate o;
     audio_only := audio_only o;
     audio_separate := audio_separate o;
     mp4 := mp4 o;
     mp4_width := mp4_width o;
     mp4_max_width := mp4_max_width o;
     mp4_bitrate_factor := mp4_bitrate_factor o;
     mp4_bitrate := mp4_bitrate o;
     poster_width := poster_width o;
     poster_max_width := poster_max_width o;
     ratio := ratio o |}.

Definition set_video_codecs (v : list string) (o : Options) : Options :=
  {| hls_playlist_prefix := hls_playlist_prefix o;
     hls_add_codecs := hls_add_codecs o;
     video_widths := video_widths o;
     video_bitrates := video_bitrates o;
     video_codecs := v;
     video_profiles := video_profiles o;
     video_names := video_names o;
     video_presets := video_presets o;
     video_bitrate_factor := video_bitrate_factor o;
     audio_bitrate := audio_bitrate o;
     audio_only := audio_only o;
     audio_separate := audio_separate o;
     mp4 := mp4 o;
     mp4_width := mp4_width o;
     mp4_max_width := mp4_max_width o;
     mp4_bitrate_factor := mp4_bitrate_factor o;
     mp4_bitrate := mp4_bitrate o;
     poster_width := poster_width o;
     poster_max_width := poster_max_width o;
     ratio := ratio o |}.

Definition set_video_profiles (v : list string) (o : Options) : Options :=
  {| hls_playlist_prefix := hls_playlist_prefix o;
     hls_add_codecs := hls_add_codecs o;
     video_widths := video_widths o;
     video_bitrates := video_bitrates o;
     video_codecs := video_codecs o;
     video_profiles := v;
     video_names := video_names o;
     video_presets := video_presets o;
     video_bitrate_factor := video_bitrate_factor o;
     audio_bitrate := audio_bitrate o;
     audio_only := audio_only o;
     audio_separate := audio_separate o;
     mp4 := mp4 o;
     mp4_width := mp4_width o;
     mp4_max_width := mp4_max_width o;
     mp4_bitrate_factor := mp4_bitrate_factor o;
     mp4_bitrate := mp4_bitrate o;
     poster_width := poster_width o;
     poster_max_width := poster_max_width o;
     ratio := ratio o |}.

Definition set_video_names (v : list string) (o : Options) : Options :=
  {| hls_playlist_prefix := hls_playlist_prefix o;
     hls_add_codecs := hls_add_codecs o;
     video_widths := video_widths o;
     video_bitrates := video_bitrates o;
     video_codecs := video_codecs o;
     video_profiles := video_profiles o;
     video_names := v;
     video_presets := video_presets o;
     video_bitrate_factor := video_bitrate_factor o;
     audio_bitrate := audio_bitrate o;
     audio_only := audio_only o;
     audio_separate := audio_separate o;
     mp4 := mp4 o;
     mp4_width := mp4_width o;
     mp4_max_width := mp4_max_width o;
     mp4_bitrate_factor := mp4_bitrate_factor o;
     mp4_bitrate := mp4_bitrate o;
     poster_width := poster_width o;
     poster_max_width := poster_max_width o;
     ratio := ratio o |}.

Definition set_video_presets (v : list string) (o : Options) : Options :=
  {| hls_playlist_prefix := hls_playlist_prefix o;
     hls_add_codecs := hls_add_codecs o;
     video_widths := video_widths o;
     video_bitrates := video_bitrates o;
     video_codecs := video_codecs o;
     video_profiles := video_profiles o;
     video_names := video_names o;
     video_presets := v;
     video_bitrate_factor := video_bitrate_factor o;
     audio_bitrate := audio_bitrate o;
     audio_only := audio_only o;
     audio_separate := audio_separate o;
     mp4 := mp4 o;
     mp4_width := mp4_width o;
     mp4_max_width := mp4_max_width o;
     mp4_bitrate_factor := mp4_bitrate_factor o;
     mp4_bitrate := mp4_bitrate o;
     poster_width := poster_width o;
     poster_max_width := poster_max_width o;
     ratio := ratio o |}.

Definition set_mp4_width (v : option Z) (o : Options) : Options :=
  {| hls_playlist_prefix := hls_playlist_prefix o;
     hls_add_codecs := hls_add_codecs o;
     video_widths := video_widths o;
     video_bitrates := video_bitrates o;
     video_codecs := video_codecs o;
     video_profiles := video_profiles o;
     video_names := video_names o;
     video_presets := video_presets o;
     video_bitrate_factor := video_bitrate_factor o;
     audio_bitrate := audio_bitrate o;
     audio_only := audio_only o;
     audio_separate := audio_separate o;
     mp4 := mp4 o;
     mp4_width := v;
     mp4_max_width := mp4_max_width o;
     mp4_bitrate_factor := mp4_bitrate_factor o;
     mp4_bitrate := mp4_bitrate o;
     poster_width := poster_width o;
     poster_max_width := poster_max_width o;
     ratio := ratio o |}.

Definition set_mp4_bitrate (v : option num) (o : Options) : Options :=
  {| hls_playlist_prefix := hls_playlist_prefix o;
     hls_add_codecs := hls_add_codecs o;
     video_widths := video_widths o;
     video_bitrates := video_bitrates o;
     video_codecs := video_codecs o;
     video_profiles := video_profiles o;
     video_names := video_names o;
     video_presets := video_presets o;
     video_bitrate_factor := video_bitrate_factor o;
     audio_bitrate := audio_bitrate o;
     audio_only := audio_only o;
     audio_separate := audio_separate o;
     mp4 := mp4 o;
     mp4_width := mp4_width o;
     mp4_max_width := mp4_max_width o;
     mp4_bitrate_factor := mp4_bitrate_factor o;
     mp4_bitrate := v;
     poster_width := poster_width o;
     poster_max_width := poster_max_width o;
     ratio := ratio o |}.

Definition set_poster_width (v : option Z) (o : Options) : Options :=
  {| hls_playlist_prefix := hls_playlist_prefix o;
     hls_add_codecs := hls_add_codecs o;
     video_widths := video_widths o;
     video_bitrates := video_bitrates o;
     video_codecs := video_codecs o;
     video_profiles := video_profiles o;
     video_names := video_names o;
     video_presets := video_presets o;
     video_bitrate_factor := video_bitrate_factor o;
     audio_bitrate := audio_bitrate o;
     audio_only := audio_only o;
     audio_separate := audio_separate o;
     mp4 := mp4 o;
     mp4_width := mp4_width o;
     mp4_max_width := mp4_max_width o;
     mp4_bitrate_factor := mp4_bitrate_factor o;
     mp4_bitrate := mp4_bitrate o;
     poster_width := v;
     poster_max_width := poster_max_width o;
     ratio := ratio o |}.

Definition set_ratio (v : ratio_value) (o : Options) : Options :=
  {| hls_playlist_prefix := hls_playlist_prefix o;
     hls_add_codecs := hls_add_codecs o;
     video_widths := video_widths o;
     video_bitrates := video_bitrates o;
     video_codecs := video_codecs o;
     video_profiles := video_profiles o;
     video_names := video_names o;
     video_presets := video_presets o;
     video_bitrate_factor := video_bitrate_factor o;
     audio_bitrate := audio_bitrate o;
     audio_only := audio_only o;
     audio_separate := audio_separate o;
     mp4 := mp4 o;
     mp4_width := mp4_width o;
     mp4_max_width := mp4_max_width o;
     mp4_bitrate_factor := mp4_bitrate_factor o;
     mp4_bitrate := mp4_bitrate o;
     poster_width := poster_width o;
     poster_max_width := poster_max_width o;
     ratio := v |}.

(** [technical]: what [probe] returns. *)
Record Video : Type := {
  width : Z;
  height : Z;
  r_frame_rate : string
}.

Record Audio : Type := {
  channels : Z;
  sample_rate : string
}.

Record Technical : Type := {
  video : Video;
  audio : option Audio
}.

(** *** [contained_in] *)

Definition contained_in (original target : Z * Z) : result (Z * Z) :=
  if (snd original =? 0)%Z then Raise ZeroDivisionError
  else
    let ratio := Float.int_truediv (fst original) (snd original) in
    let '(width, height) := target in
    if Qeq_bool ratio 0 then Raise ZeroDivisionError
    else
      let '(width, height) :=
        if Qlt_le_dec (inject_Z height) (Float.div (Float.of_int width) ratio)
        then (Float.trunc (Float.mul (Float.of_int height) ratio), height)
        else (width, Float.trunc (Float.div (Float.of_int width) ratio)) in
      Ok (width / 2 * 2, height / 2 * 2)%Z.

(** *** [fix_options] *)

Local Open Scope monad_scope.

(** [not x] on an optional int: [None] and [0] are falsy. *)
Definition falsy_int (x : option Z) : bool :=
  match x with
  | None => true
  | Some z => (z =? 0)%Z
  end.

(** [not x] on an optional number. *)
Definition falsy_num (x : option num) : bool :=
  match x with
  | None => true
  | Some (Int z) => (z =? 0)%Z
  | Some (Flt q) => Qeq_bool q 0
  end.

(** [x * f] for a number [x] and a float [f]. *)
Definition num_times (x : num) (f : Q) : Q :=
  match x with
  | Int z => Float.mul (Float.of_int z) f
  | Flt q => Float.mul q f
  end.

(** [l[i] = v]: raises [IndexError] out of range. *)
Fixpoint setitem {A} (l : list A) (i : nat) (v : A) : result (list A) :=
  match l, i with
  | [], _ => Raise IndexError
  | _ :: l', O => Ok (v :: l')
  | a :: l', S i' => rbind (setitem l' i' v) (fun r => Ok (a :: r))
  end.

(** [if len(options.hls_playlist_prefix) == 0: ... = [""]] *)
Definition default_prefix : M Options unit :=
  modify (fun o =>
    match hls_playlist_prefix o with
    | [] => set_hls_playlist_prefix [""] o
    | _ :: _ => o
    end).

(** [if options.audio_only or options.audio_separate:
       options.video_widths.append(0)] *)
Definition append_audio_width : M Options unit :=
  modify (fun o =>
    if audio_only o || audio_separate o
    then set_video_widths (video_widths o ++ [0%Z])%list o
    else o).

(** How the alignment loop treats a vector: [video_names] is only truncated,
    an empty [video_presets] is left empty, the others are extended. *)
Inductive align_policy : Type :=
| Extend
| ExtendUnlessEmpty
| TruncateOnly.

(** The vector after one pass of the alignment loop:
    [del value[length:]], then [value.extend([value[-1]] * diff)]. *)
Definition align {A} (policy : align_policy) (length : nat) (value : list A)
  : result (list A) :=
  let value := firstn length value in
  let extended :=
    let diff := (length - List.length value)%nat in
    match diff with
    | O => Ok value
    | S _ => rbind (getlast value) (fun x => Ok (value ++ repeat x diff)%list)
    end in
  match policy with
  | TruncateOnly => Ok value
  | ExtendUnlessEmpty =>
      match value with
      | [] => Ok value
      | _ :: _ => extended
      end
  | Extend => extended
  end.

(** One iteration of the alignment loop on the attribute read by [field] and
    written by [set]: the truncation is kept when extending raises. *)
Definition align_option {A} (field : Options -> list A)
    (set : list A -> Options -> Options) (policy : align_policy)
    (length : nat) : M Options unit :=
  modify (fun o => set (firstn length (field o)) o) ;;
  o <- get ;;
  value <- lift (align policy length (field o)) ;;
  modify (set value).

(** The loop over [video_options], in the order of the namespace:
    [video_widths], [video_bitrates], [video_codecs], [video_profiles],
    [video_names], [video_presets]. *)
Definition align_options (length : nat) : M Options unit :=
  align_option video_widths set_video_widths Extend length ;;
  align_option video_bitrates set_video_bitrates Extend length ;;
  align_option video_codecs set_video_codecs Extend length ;;
  align_option video_profiles set_video_profiles Extend length ;;
  align_option video_names set_video_names TruncateOnly length ;;
  align_option video_presets set_video_presets ExtendUnlessEmpty length.

(** [for idx in range(len(options.video_widths)):
       if options.video_widths[idx] == 0: options.video_bitrates[idx] = 0] *)
Definition zero_audio_bitrates : M Options unit :=
  o <- get ;;
  for_each (seq 0 (List.length (video_widths o))) (fun idx =>
    o <- get ;;
    w <- lift (getitem (video_widths o) idx) ;;
    if (w =? 0)%Z then
      b <- lift (setitem (video_bitrates o) idx 0%Z) ;;
      modify (set_video_bitrates b)
    else ret tt).

(** [int(x) for x in parts], stopping at the first part that does not parse. *)
Fixpoint ints_of_strs (parts : list string) : result (list Z) :=
  match parts with
  | [] => Ok []
  | p :: parts' =>
      rbind (int_of_str p) (fun z =>
      rbind (ints_of_strs parts') (fun zs => Ok (z :: zs)))
  end.

(** [operator.truediv] called on the unpacked ints [args]. *)
Definition truediv_star (args : list Z) : result Q :=
  match args with
  | [a; b] =>
      if (b =? 0)%Z then Raise ZeroDivisionError
      else Ok (Float.int_truediv a b)
  | _ => Raise TypeError
  end.

(** [options.ratio] becomes [operator.truediv] of the unpacked
    [int(x) for x in options.ratio.split(":", 1)]. *)
Definition parse_ratio : M Options unit :=
  o <- get ;;
  match ratio o with
  | RatioNum _ => raise AttributeError
  | RatioStr s =>
      args <- lift (ints_of_strs (split1 ":" s)) ;;
      r <- lift (truediv_star args) ;;
      modify (set_ratio (RatioNum r))
  end.

(** [x / options.ratio] for an int [x]. *)
Definition over_ratio (x : Z) (r : ratio_value) : result Q :=
  match r with
  | RatioStr _ => Raise TypeError
  | RatioNum q =>
      if Qeq_bool q 0 then Raise ZeroDivisionError
      else Ok (Float.div (Float.of_int x) q)
  end.

(** The list [more] of synthesized names, one per width. *)
Fixpoint more_names (o : Options) (idxs : list nat) : result (list string) :=
  match idxs with
  | [] => Ok []
  | idx :: idxs' =>
      rbind (getitem (video_bitrates o) idx) (fun b =>
      rbind (if (0 <? b)%Z then
               rbind (getitem (video_widths o) idx) (fun w =>
               rbind (over_ratio w (ratio o)) (fun h =>
               Ok (str_of_int (Float.trunc h) ++ "p")))
             else Ok "Audio only") (fun name =>
      rbind (more_names o idxs') (fun names => Ok (name :: names))))
  end.

(** [if len(options.video_names) < length: ...
       options.video_names.extend(more[-diff:])] *)
Definition derive_names (length : nat) : M Options unit :=
  o <- get ;;
  if (List.length (video_names o) <? length)%nat then
    let diff := (length - List.length (video_names o))%nat in
    more <- lift (more_names o (seq 0 (List.length (video_widths o)))) ;;
    modify (set_video_names
              (video_names o ++ skipn (List.length more - diff) more)%list)
  else ret tt.

(** [options.video_bitrates = [int(r * options.video_bitrate_factor) ...]]
    and the same scaling of a given [mp4_bitrate]. *)
Definition scale_bitrates : M Options unit :=
  modify (fun o =>
    set_video_bitrates
      (map (fun r => Float.trunc (Float.mul (Float.of_int r) (video_bitrate_factor o)))
           (video_bitrates o)) o) ;;
  modify (fun o =>
    match mp4_bitrate o with
    | Some b =>
        if falsy_num (Some b) then o
        else set_mp4_bitrate
               (Some (Int (Float.trunc (num_times b (video_bitrate_factor o))))) o
    | None => o
    end).

(** The test of the pruning loop on a requested width [w] for a source of
    [width] by [height]:
    [(w > width * 1.1) and (w * height / width > height * 1.1)]. *)
Definition too_large (width height w : Z) : result bool :=
  if Qlt_le_dec (Float.mul (Float.of_int width) Float.c1_1) (inject_Z w) then
    if (width =? 0)%Z then Raise ZeroDivisionError
    else
      Ok (if Qlt_le_dec (Float.mul (Float.of_int height) Float.c1_1)
                        (Float.int_truediv (w * height) width)
          then true else false)
  else Ok false.

(** [try: del l[idx]
     except IndexError: pass] *)
Definition del_or_pass {A} (l : list A) (idx : nat) : list A :=
  match delitem l idx with
  | Ok l' => l'
  | Raise _ => l
  end.

(** [for option in video_options: f(getattr(options, option))] for an
    operation [f] on lists, in the order of the namespace. *)
Definition map_vectors (f : forall A, list A -> list A) (o : Options) : Options :=
  let o := set_video_widths (f _ (video_widths o)) o in
  let o := set_video_bitrates (f _ (video_bitrates o)) o in
  let o := set_video_codecs (f _ (video_codecs o)) o in
  let o := set_video_profiles (f _ (video_profiles o)) o in
  let o := set_video_names (f _ (video_names o)) o in
  set_video_presets (f _ (video_presets o)) o.

(** The inner loop of the pruning step: index [idx] leaves every vector. *)
Definition delete_rendition (idx : nat) (o : Options) : Options :=
  map_vectors (fun _ l => del_or_pass l idx) o.

(** [for idx in reversed(range(len(options.video_widths))): ...] *)
Definition prune (technical : Technical) : M Options unit :=
  o <- get ;;
  for_each (rev (seq 0 (List.length (video_widths o)))) (fun idx =>
    o <- get ;;
    w <- lift (getitem (video_widths o) idx) ;;
    drop <- lift (too_large (width (video technical)) (height (video technical)) w) ;;
    if drop : bool then modify (delete_rendition idx) else ret tt).

(** [max] of the unpacked [w for w in options.video_widths if w <= limit],
    and the source width when that raises [TypeError]. *)
Definition default_width (technical : Technical) (limit : Z) (o : Options) : Z :=
  match max_star (filter (fun w => (w <=? limit)%Z) (video_widths o)) with
  | Ok w => w
  | Raise _ => width (video technical)
  end.

Definition derive_poster_width (technical : Technical) : M Options unit :=
  modify (fun o =>
    if falsy_int (poster_width o)
    then set_poster_width (Some (default_width technical (poster_max_width o) o)) o
    else o).

Definition derive_mp4_width (technical : Technical) : M Options unit :=
  modify (fun o =>
    if falsy_int (mp4_width o)
    then set_mp4_width (Some (default_width technical (mp4_max_width o) o)) o
    else o).

(** [options.video_widths.index(options.mp4_width)] *)
Definition index_of_mp4_width (o : Options) : result nat :=
  match mp4_width o with
  | Some w => index (video_widths o) w
  | None => Raise ValueError
  end.

Definition derive_mp4_bitrate : M Options unit :=
  o <- get ;;
  if falsy_num (mp4_bitrate o) then
    b <- lift (except
           (rbind (index_of_mp4_width o) (fun i =>
            rbind (getitem (video_bitrates o) i) (fun r =>
            Ok (Int (Float.trunc (Float.mul (Float.of_int r) (mp4_bitrate_factor o)))))))
           (rbind (getitem (video_bitrates o) 0) (fun r =>
            Ok (Flt (Float.mul (Float.of_int r) (mp4_bitrate_factor o)))))) ;;
    modify (set_mp4_bitrate (Some b))
  else ret tt.

Definition fix_options (technical : Technical) : M Options unit :=
  default_prefix ;;
  append_audio_width ;;
  o <- get ;;
  let length := List.length (video_widths o) in
  align_options length ;;
  zero_audio_bitrates ;;
  parse_ratio ;;
  derive_names length ;;
  scale_bitrates ;;
  prune technical ;;
  derive_poster_width technical ;;
  derive_mp4_width technical ;;
  derive_mp4_bitrate.

Local Close Scope monad_scope.

(** *** [extract_codecs] *)

(** The three regular expressions, as [re.match] applies them to one line of
    the dump.  Each starts with a greedy [.*] followed by a literal, so the
    match found is the one at the last position of that literal from which
    the rest of the pattern matches; [.] does not match a newline. *)

(** Tries [tail] at every position of [s], later positions first. *)
Fixpoint match_last {A} (tail : string -> option A) (s : string) : option A :=
  match s with
  | EmptyString => tail s
  | String c s' =>
      if is_newline c then tail s
      else match match_last tail s' with
           | Some r => Some r
           | None => tail s
           end
  end.

(** [s] after the literal [p], when [s] starts with it. *)
Definition after (p : string) (s : string) : option string := strip_prefix p s.

(** One [.] of a pattern: any character but a newline. *)
Definition any_char (s : string) : option string :=
  match s with
  | String c s' => if is_newline c then None else Some s'
  | EmptyString => None
  end.

Definition obind {A B} (o : option A) (f : A -> option B) : option B :=
  match o with
  | Some a => f a
  | None => None
  end.

(** [\S+] followed by the rest of the pattern: the longest run of characters
    that are not whitespace, which must not be empty. *)
Definition non_spaces (s : string) : option (string * string) :=
  match span (fun c => negb (is_space c)) s with
  | (EmptyString, _) => None
  | (w, rest) => Some (w, rest)
  end.

(** [\d+]: the longest run of digits, not empty. *)
Definition digits (s : string) : option (string * string) :=
  match span is_digit s with
  | (EmptyString, _) => None
  | (d, rest) => Some (d, rest)
  end.

(** [moov.trak.mdia.minf.stbl.stsd.] with its unescaped dots. *)
Definition stsd_path (s : string) : option string :=
  obind (after "moov" s) (fun s =>
  obind (any_char s) (fun s =>
  obind (after "trak" s) (fun s =>
  obind (any_char s) (fun s =>
  obind (after "mdia" s) (fun s =>
  obind (any_char s) (fun s =>
  obind (after "minf" s) (fun s =>
  obind (any_char s) (fun s =>
  obind (after "stbl" s) (fun s =>
  obind (any_char s) (fun s =>
  obind (after "stsd" s) any_char)))))))))).

(** [codec_re]:
    [.*: type (?P<codec>\S+) \(moov.trak.mdia.minf.stbl.stsd.(?P=codec)\)] *)
Definition codec_re (line : string) : option string :=
  match_last (fun s =>
    obind (after ": type " s) (fun s =>
    obind (non_spaces s) (fun '(codec, s) =>
    obind (after " (" s) (fun s =>
    obind (stsd_path s) (fun s =>
    obind (after codec s) (fun s =>
    obind (after ")" s) (fun _ => Some codec))))))) line.

(** [attribute_re]: [.*: (?P<attribute>\S+) = (?P<value>\d+) .*] *)
Definition attribute_re (line : string) : option (string * string) :=
  match_last (fun s =>
    obind (after ": " s) (fun s =>
    obind (non_spaces s) (fun '(attribute, s) =>
    obind (after " = " s) (fun s =>
    obind (digits s) (fun '(value, s) =>
    obind (after " " s) (fun _ => Some (attribute, value))))))) line.

(** [\s+]: the rest after a non-empty run of whitespace. *)
Definition some_spaces (s : string) : option string :=
  match span is_space s with
  | (EmptyString, _) => None
  | (_, rest) => Some rest
  end.

(** [\d{2}] *)
Definition two_digits (s : string) : option (string * string) :=
  match s with
  | String a (String b rest) =>
      if is_digit a && is_digit b
      then Some (String a (String b EmptyString), rest)
      else None
  | _ => None
  end.

(** [info_re]: [.*: info = <\d+ bytes>\s+(?P<byte>\d{2}) .*] *)
Definition info_re (line : string) : option string :=
  match_last (fun s =>
    obind (after ": info = <" s) (fun s =>
    obind (digits s) (fun '(_, s) =>
    obind (after " bytes>" s) (fun s =>
    obind (some_spaces s) (fun s =>
    obind (two_digits s) (fun '(byte, s) =>
    obind (after " " s) (fun _ => Some byte))))))) line.

(** [int(s)] on a run of decimal digits (within the interpreter's limit on
    the number of digits, beyond which [int] raises [ValueError]). *)
Definition int_of_digits (s : string) : Z := digits_value 0 s.

(** [int(s, 16)] on two decimal digits. *)
Definition int16_of_digits (s : string) : Z :=
  match s with
  | String a (String b _) => 16 * digit_value a + digit_value b
  | _ => 0
  end.

(** The set [codecs]: whether it holds [codec]. *)
Definition has_codec (codec : string) (result : list string) : bool :=
  existsb (fun line =>
    match codec_re line with
    | Some c => String.eqb c codec
    | None => false
    end) result.

Definition avcC_marker : string := "(moov.trak.mdia.minf.stbl.stsd.avc1.avcC)".
Definition esds_marker : string := "(moov.trak.mdia.minf.stbl.stsd.mp4a.esds)".

(** [" " * (len(line) - len(line.lstrip(" ")) + 1)] *)
Definition deeper_than (line : string) : string :=
  spaces (leading_spaces line + 1).

(** The values [profile], [constraints] and [level] of the avcC scan. *)
Record avc_fields : Type := {
  profile : option Z;
  constraints : option Z;
  level : option Z
}.

(** The loop [for line in result[idx + 1:]] of the avc1 branch. *)
Fixpoint scan_avcC (indent : string) (lines : list string) (f : avc_fields)
  : avc_fields :=
  match lines with
  | [] => f
  | line :: lines' =>
      if negb (startswith line indent) then f
      else
        match attribute_re line with
        | None => scan_avcC indent lines' f
        | Some (attribute, value) =>
            let v := Some (int_of_digits value) in
            scan_avcC indent lines'
              (if String.eqb attribute "AVCProfileIndication" then
                 {| profile := v; constraints := constraints f; level := level f |}
               else if String.eqb attribute "profile_compatibility" then
                 {| profile := profile f; constraints := v; level := level f |}
               else if String.eqb attribute "AVCLevelIndication" then
                 {| profile := profile f; constraints := constraints f; level := v |}
               else f)
        end
  end.

(** [f"avc1.{profile:02x}" f"{constraints:02x}{level:02x}"] *)
Definition avc1_identifier (p c l : Z) : string :=
  "avc1." ++ hex02 p ++ hex02 c ++ hex02 l.

(** The avc1 branch: the loop over the lines of the dump, appending one
    identifier for each avcC atom. *)
Fixpoint decode_avc1 (result : list string) : Py.result (list string) :=
  match result with
  | [] => Ok []
  | line :: rest =>
      if contains avcC_marker line then
        match scan_avcC (deeper_than line) rest
                {| profile := None; constraints := None; level := None |} with
        | {| profile := Some p; constraints := Some c; level := Some l |} =>
            rbind (decode_avc1 rest) (fun ids => Ok (avc1_identifier p c l :: ids))
        | _ => Raise (RuntimeError "unable to decode AVC1 codec")
        end
      else decode_avc1 rest
  end.

(** [osti] is [None], [...] (a decSpecificInfo line was seen and its bytes
    are expected on the next line) or the audio object type. *)
Inductive osti_value : Type :=
| OstiNone
| OstiPending
| OstiType (z : Z).

(** The loop [for line in result[idx + 1:]] of the mp4a branch. *)
Fixpoint scan_esds (indent : string) (lines : list string)
    (oti : option Z) (osti : osti_value) : Py.result (option Z * osti_value) :=
  match lines with
  | [] => Ok (oti, osti)
  | line :: lines' =>
      if negb (startswith line indent) then Ok (oti, osti)
      else
        let is_oti :=
          match attribute_re line with
          | Some (attribute, value) =>
              if String.eqb attribute "objectTypeId"
              then Some (int_of_digits value) else None
          | None => None
          end in
        match is_oti with
        | Some v => scan_esds indent lines' (Some v) osti
        | None =>
            if contains "decSpecificInfo" line then
              scan_esds indent lines' oti OstiPending
            else
              match osti with
              | OstiPending =>
                  match info_re line with
                  | None => Raise (RuntimeError "cannot decode specific info")
                  | Some byte =>
                      scan_esds indent lines' oti
                        (OstiType (Z.shiftr (Z.land (int16_of_digits byte) 248) 3))
                  end
              | _ => scan_esds indent lines' oti osti
              end
        end
  end.

(** [f"mp4a.{oti:02x}.{osti}"] *)
Definition mp4a_identifier (oti : Z) (osti : osti_value) : string :=
  "mp4a." ++ hex02 oti ++ "." ++
  match osti with
  | OstiType z => str_of_int z
  | _ => "Ellipsis"
  end.

(** The mp4a branch. *)
Fixpoint decode_mp4a (result : list string) : Py.result (list string) :=
  match result with
  | [] => Ok []
  | line :: rest =>
      if contains esds_marker line then
        rbind (scan_esds (deeper_than line) rest None OstiNone) (fun r =>
        match r with
        | (Some oti, OstiPending) | (Some oti, OstiType _) =>
            rbind (decode_mp4a rest) (fun ids =>
            Ok (mp4a_identifier oti (snd r) :: ids))
        | _ => Raise (RuntimeError "unable to decode MP4A codec")
        end)
      else decode_mp4a rest
  end.

(** The decoder on the text [mp4file --dump] printed.  [codecs] is a set, and
    the order in which [for codec in codecs] visits it is not fixed by the
    language: [avc1_first] says whether ["avc1"] comes before ["mp4a"]. *)
Definition decode_dump (avc1_first : bool) (dump : string) : Py.result string :=
  let result := split "010" dump in
  let avc1 := if has_codec "avc1" result then decode_avc1 result else Ok [] in
  let mp4a := if has_codec "mp4a" result then decode_mp4a result else Ok [] in
  rbind (if avc1_first
         then rbind avc1 (fun a => rbind mp4a (fun b => Ok (a ++ b)%list))
         else rbind mp4a (fun b => rbind avc1 (fun a => Ok (b ++ a)%list)))
        (fun results => Ok (join "," results)).

(** The world outside: what [run(options, "mp4file", "--dump", sample)]
    returns or raises for each sample, and the iteration order of the set. *)
Record Mp4file : Type := {
  run_dump : string -> Py.result string;
  avc1_first : bool
}.

Definition extract_codecs (env : Mp4file) (sample : string) : Py.result string :=
  rbind (run_dump env sample) (decode_dump (avc1_first env)).

(** *** The master playlist of [transcode] *)

Local Open Scope writer_scope.

(** An entry of the dictionary [playlists], filled by the HLS loop of
    [transcode] for each index of [options.video_widths]. *)
Record Playlist : Type := {
  name : string;
  resolution : string
}.

(** One call of [master.write]. *)
Inductive chunk : Type :=
| Header
| Version (n : Z)
| Media (prefix uri : string)
| StreamInf (bandwidth : Z)
| Resolution (res : string) (fps : Q)
| Codecs (codecs : string)
| AudioGroup
| NameUri (display prefix uri : string).

(** The text each call writes. *)
Definition render (c : chunk) : string :=
  match c with
  | Header => "#EXTM3U" ++ nl
  | Version n => "#EXT-X-VERSION:" ++ str_of_int n ++ nl
  | Media prefix uri =>
      "#EXT-X-MEDIA:TYPE=AUDIO,GROUP-ID=" ++ dquote ++ "audio" ++ dquote ++
      ",DEFAULT=yes,AUTOSELECT=yes,URI=" ++ dquote ++ prefix ++ uri ++ dquote ++ nl
  | StreamInf bandwidth =>
      "#EXT-X-STREAM-INF:BANDWIDTH=" ++ str_of_int bandwidth ++ "000,"
  | Resolution res fps =>
      "RESOLUTION=" ++ res ++ ",FRAME-RATE=" ++ format_comma_3f fps ++ ","
  | Codecs codecs => "CODECS=" ++ dquote ++ codecs ++ dquote ++ ","
  | AudioGroup => "AUDIO=" ++ dquote ++ "audio" ++ dquote ++ ","
  | NameUri display prefix uri =>
      "NAME=" ++ dquote ++ display ++ dquote ++ nl ++ prefix ++ uri ++ nl
  end.

(** The content of the file after the writes [out]. *)
Definition file_text (out : list chunk) : string :=
  String.concat "" (map render out).

(** [fps = operator.truediv] of the unpacked [int(x) for x in fps.split("/")]. *)
Definition frame_rate (technical : Technical) : Py.result Q :=
  rbind (ints_of_strs (split "/" (r_frame_rate (video technical)))) truediv_star.

(** [playlists[max(playlists.keys())]] *)
Definition last_playlist (playlists : list Playlist) : Py.result Playlist :=
  match rev playlists with
  | p :: _ => Ok p
  | [] => Raise ValueError
  end.

(** The header, and in separate-audio mode one media entry per prefix. *)
Definition master_header (o : Options) (playlists : list Playlist)
  : W chunk unit :=
  tell Header ;;
  if audio_separate o then
    tell (Version 4) ;;
    wfor (hls_playlist_prefix o) (fun prefix =>
      p <- wlift (last_playlist playlists) ;;
      tell (Media prefix (name p)))
  else tell (Version 3).

(** [try: codecs = extract_codecs(options, f"_{idx}.mp4")
     except (FileNotFoundError, RuntimeError): no_codecs = True],
    guarded by [if not no_codecs and options.hls_add_codecs]: the value of
    [codecs] and the new value of [no_codecs]. *)
Definition try_codecs (o : Options) (env : Mp4file) (idx : nat)
    (no_codecs : bool) : Py.result (option string * bool) :=
  if negb no_codecs && hls_add_codecs o then
    match extract_codecs env ("_" ++ str_of_int (Z.of_nat idx) ++ ".mp4") with
    | Ok codecs => Ok (Some codecs, no_codecs)
    | Raise FileNotFoundError => Ok (None, true)
    | Raise (RuntimeError _) => Ok (None, true)
    | Raise e => Raise e
    end
  else Ok (None, no_codecs).

(** [if codecs:] *)
Definition truthy_str (s : option string) : option string :=
  match s with
  | Some EmptyString => None
  | other => other
  end.

(** The writes of one pass of [for prefix in options.hls_playlist_prefix]. *)
Definition stream_variant (o : Options) (playlists : list Playlist) (fps : Q)
    (idx : nat) (bitrate bandwidth : Z) (codecs : option string)
    (prefix : string) : W chunk unit :=
  tell (StreamInf bandwidth) ;;
  (if (0 <? bitrate)%Z then
     p <- wlift (getitem playlists idx) ;;
     tell (Resolution (resolution p) fps)
   else wret tt) ;;
  match truthy_str codecs with
  | Some c => tell (Codecs c)
  | None => wret tt
  end ;;
  (if audio_separate o then tell AudioGroup else wret tt) ;;
  display <- wlift (getitem (video_names o) idx) ;;
  p <- wlift (getitem playlists idx) ;;
  tell (NameUri display prefix (name p)).

(** The loop [for idx in playlists], from the indices [idxs] on, entered
    with the flag [no_codecs]. *)
Fixpoint master_variants (o : Options) (has_audio : bool)
    (playlists : list Playlist) (fps : Q) (env : Mp4file)
    (idxs : list nat) (no_codecs : bool) : W chunk unit :=
  match idxs with
  | [] => wret tt
  | idx :: idxs' =>
      bitrate <- wlift (getitem (video_bitrates o) idx) ;;
      if negb (audio_only o) && (bitrate =? 0)%Z then
        master_variants o has_audio playlists fps env idxs' no_codecs
      else
        r <- wlift (try_codecs o env idx no_codecs) ;;
        let bandwidth :=
          if has_audio : bool then (bitrate + audio_bitrate o)%Z else bitrate in
        wfor (hls_playlist_prefix o)
             (stream_variant o playlists fps idx bitrate bandwidth (fst r)) ;;
        master_variants o has_audio playlists fps env idxs' (snd r)
  end.

(** The part of [transcode] that writes the master playlist. *)
Definition transcode_master (o : Options) (technical : Technical)
    (playlists : list Playlist) (env : Mp4file) : W chunk unit :=
  fps <- wlift (frame_rate technical) ;;
  master_header o playlists ;;
  master_variants o (match audio technical with Some _ => true | None => false end)
    playlists fps env (seq 0 (List.length playlists)) false.

(** *** The size of a rendition, of the MP4 and of the poster *)





(** [f"{twidth}x{theight}"], the resolution kept in [playlists[idx]]. *)
Definition resolution_text (size : Z * Z) : string :=
  str_of_int (fst size) ++ "x" ++ str_of_int (snd size).

(** *** [poster]: the JPEG quality *)

(** [quality = options.poster_quality * 30 // 100] and then
    [quality = 30 - quality + 1], the value given to [-qscale:v]. *)
Definition quality (poster_quality : Z) : Z :=
  let quality := (poster_quality * 30 / 100)%Z in
  (30 - quality + 1)%Z.

End Video2hls.

(** * Properties *)

(** ** Rounding: monotonicity and exactness on integers *)

Module FloatFacts.

Import Float.
Local Open Scope Q_scope.

Lemma pow2_pos (k : Z) : 0 < 2 ^ k.
Proof. apply Qpower_0_lt. reflexivity. Qed.

Lemma pow2_add (a b : Z) : 2 ^ (a + b) == 2 ^ a * 2 ^ b.
Proof. apply Qpower_plus. discriminate. Qed.

Lemma pow2_inject (a : Z) : (0 <= a)%Z -> inject_Z (2 ^ a) == 2 ^ a.
Proof. intros H. now rewrite Zpower_Qpower. Qed.

Lemma pow2_lt (a b : Z) : (a < b)%Z -> 2 ^ a < 2 ^ b.
Proof. intros. apply Qpower_lt_compat_l; [assumption|reflexivity]. Qed.

Lemma pow2_le (a b : Z) : (a <= b)%Z -> 2 ^ a <= 2 ^ b.
Proof. intros. apply Qpower_le_compat_l; [assumption|discriminate]. Qed.

Lemma pow2_lt_inv (a b : Z) : 2 ^ a < 2 ^ b -> (a < b)%Z.
Proof. intros. eapply Qpower_lt_compat_l_inv; [eassumption|reflexivity]. Qed.

Lemma pow2_cancel (a : Z) : 2 ^ a * 2 ^ (- a) == 1.
Proof. rewrite <- pow2_add, Z.add_opp_diag_r. reflexivity. Qed.

(** A fraction of two integers lies between the powers of two that bound them. *)
Lemma Qmake_bounds (n : Z) (d : positive) (a b : Z) :
  (0 <= a)%Z -> (0 <= b)%Z ->
  (2 ^ a <= n < 2 ^ (a + 1))%Z -> (2 ^ b <= Zpos d < 2 ^ (b + 1))%Z ->
  2 ^ (a - b - 1) < n # d /\ n # d < 2 ^ (a - b + 1).
Proof.
  intros Ha Hb [Hn1 Hn2] [Hd1 Hd2].
  assert (E : n # d == inject_Z n / inject_Z (Zpos d)) by apply Qmake_Qdiv.
  assert (Dpos : 0 < inject_Z (Zpos d)) by reflexivity.
  rewrite E. split.
  - apply Qlt_shift_div_l; [exact Dpos|].
    apply Qlt_le_trans with (2 ^ (a - b - 1) * 2 ^ (b + 1)).
    + rewrite Qmult_lt_l by apply pow2_pos.
      rewrite <- pow2_inject by lia. rewrite <- Zlt_Qlt. exact Hd2.
    + rewrite <- pow2_add. replace (a - b - 1 + (b + 1))%Z with a by ring.
      rewrite <- pow2_inject by lia. rewrite <- Zle_Qle. exact Hn1.
  - apply Qlt_shift_div_r; [exact Dpos|].
    apply Qlt_le_trans with (2 ^ (a - b + 1) * 2 ^ b).
    + rewrite <- pow2_add. replace (a - b + 1 + b)%Z with (a + 1)%Z by ring.
      rewrite <- pow2_inject by lia. rewrite <- Zlt_Qlt. exact Hn2.
    + rewrite Qmult_le_l by apply pow2_pos.
      rewrite <- pow2_inject by lia. rewrite <- Zle_Qle. exact Hd1.
Qed.

Lemma binade_spec (q : Q) : 0 < q -> 2 ^ binade q <= q /\ q < 2 ^ (binade q + 1).
Proof.
  intros Hq. destruct q as [n d]. unfold binade. cbn [Qnum Qden].
  assert (Hn : (0 < n)%Z) by (unfold Qlt in Hq; cbn in Hq; lia).
  pose proof (Z.log2_spec n Hn) as Sn.
  pose proof (Z.log2_spec (Zpos d) eq_refl) as Sd.
  pose proof (Z.log2_nonneg n) as Ln.
  pose proof (Z.log2_nonneg (Zpos d)) as Ld.
  replace (Z.succ (Z.log2 n)) with (Z.log2 n + 1)%Z in Sn by lia.
  replace (Z.succ (Z.log2 (Zpos d))) with (Z.log2 (Zpos d) + 1)%Z in Sd by lia.
  destruct (Qmake_bounds n d _ _ Ln Ld Sn Sd) as [B1 B2].
  destruct (Qle_bool (2 ^ (Z.log2 n - Z.log2 (Zpos d))) (n # d)) eqn:E.
  - split; [now apply Qle_bool_iff | exact B2].
  - split; [apply Qlt_le_weak; exact B1|].
    replace (Z.log2 n - Z.log2 (Z.pos d) - 1 + 1)%Z with (Z.log2 n - Z.log2 (Z.pos d))%Z by ring.
    apply Qnot_le_lt. intros C. apply Qle_bool_iff in C. congruence.
Qed.

Lemma binade_unique (q : Q) (k : Z) : 2 ^ k <= q -> q < 2 ^ (k + 1) -> binade q = k.
Proof.
  intros H1 H2.
  assert (Hq : 0 < q) by (eapply Qlt_le_trans; [apply (pow2_pos k)|exact H1]).
  destruct (binade_spec q Hq) as [B1 B2].
  assert (binade q < k + 1)%Z by (apply pow2_lt_inv; eapply Qle_lt_trans; eassumption).
  assert (k < binade q + 1)%Z by (apply pow2_lt_inv; eapply Qle_lt_trans; eassumption).
  lia.
Qed.

Lemma binade_mono (x y : Q) : 0 < x -> x <= y -> (binade x <= binade y)%Z.
Proof.
  intros Hx Hxy.
  assert (Hy : 0 < y) by (eapply Qlt_le_trans; eassumption).
  destruct (binade_spec x Hx) as [X1 _]. destruct (binade_spec y Hy) as [_ Y2].
  assert (binade x < binade y + 1)%Z; [|lia].
  apply pow2_lt_inv. eapply Qle_lt_trans; [exact X1|]. eapply Qle_lt_trans; eassumption.
Qed.

Lemma rne_bounds (x : Q) : (Qfloor x <= rne x <= Qfloor x + 1)%Z.
Proof.
  unfold rne. cbv zeta.
  destruct (Qcompare (x - inject_Z (Qfloor x)) (1 # 2)); [destruct (Z.even (Qfloor x))| |]; lia.
Qed.

Lemma rne_inject (n : Z) : rne (inject_Z n) = n.
Proof.
  unfold rne. cbv zeta. rewrite Qfloor_Z.
  assert (E : inject_Z n - inject_Z n == 0) by ring.
  rewrite E. reflexivity.
Qed.

Lemma rne_mono (x y : Q) : x <= y -> (rne x <= rne y)%Z.
Proof.
  intros Hxy. pose proof (Qfloor_resp_le _ _ Hxy) as Hf.
  pose proof (rne_bounds x) as Bx. pose proof (rne_bounds y) as By.
  destruct (Z.eq_dec (Qfloor x) (Qfloor y)) as [E|NE]; [|lia].
  assert (Hr : x - inject_Z (Qfloor x) <= y - inject_Z (Qfloor y)).
  { rewrite E. apply Qplus_le_compat; [exact Hxy|apply Qle_refl]. }
  clear Bx By. unfold rne. cbv zeta.
  set (rx := x - inject_Z (Qfloor x)) in *.
  set (ry := y - inject_Z (Qfloor y)) in *.
  destruct (Qcompare rx (1 # 2)) eqn:Cx; destruct (Qcompare ry (1 # 2)) eqn:Cy;
    rewrite <- ?E; try (destruct (Z.even (Qfloor x)); lia); try lia; exfalso;
    repeat match goal with
    | H : Qcompare _ _ = Eq |- _ => apply Qeq_alt in H
    | H : Qcompare _ _ = Lt |- _ => apply Qlt_alt in H
    | H : Qcompare _ _ = Gt |- _ => apply Qgt_alt in H
    end.
  - rewrite Cx in Hr.
    apply (Qlt_irrefl ry). eapply Qlt_le_trans; eassumption.
  - rewrite Cy in Hr.
    apply (Qlt_irrefl (1 # 2)). eapply Qlt_le_trans; eassumption.
  - apply (Qlt_irrefl (1 # 2)). eapply Qlt_le_trans; [exact Cx|].
    eapply Qle_trans; [exact Hr|]. apply Qlt_le_weak. exact Cy.
Qed.

(** The scaled significand lies in [[2^52, 2^53)]. *)
Lemma scaled_bounds (q : Q) : 0 < q ->
  2 ^ (prec - 1) <= q * 2 ^ (- (binade q - (prec - 1))) /\
  q * 2 ^ (- (binade q - (prec - 1))) < 2 ^ prec.
Proof.
  intros Hq. destruct (binade_spec q Hq) as [B1 B2].
  set (k := binade q) in *.
  replace (- (k - (prec - 1)))%Z with ((prec - 1) + - k)%Z by ring.
  rewrite pow2_add. split.
  - rewrite (Qmult_comm (2 ^ (prec - 1))), Qmult_assoc.
    rewrite <- (Qmult_1_l (2 ^ (prec - 1))) at 1.
    apply Qmult_le_compat_r; [|apply Qlt_le_weak, pow2_pos].
    rewrite <- (pow2_cancel k). apply Qmult_le_compat_r; [exact B1|apply Qlt_le_weak, pow2_pos].
  - assert (E : 2 ^ prec == 2 ^ (k + 1) * (2 ^ (prec - 1) * 2 ^ (- k))).
    { rewrite <- !pow2_add. replace (k + 1 + (prec - 1 + - k))%Z with prec by ring. reflexivity. }
    rewrite E. apply Qmult_lt_compat_r; [|exact B2].
    rewrite <- pow2_add. apply pow2_pos.
Qed.

Lemma rne_scaled_bounds (q : Q) : 0 < q ->
  (2 ^ (prec - 1) <= rne (q * 2 ^ (- (binade q - (prec - 1)))) <= 2 ^ prec)%Z.
Proof.
  intros Hq. destruct (scaled_bounds q Hq) as [S1 S2]. split.
  - rewrite <- (rne_inject (2 ^ (prec - 1))). apply rne_mono.
    rewrite pow2_inject by (unfold prec; lia). exact S1.
  - rewrite <- (rne_inject (2 ^ prec)). apply rne_mono.
    rewrite pow2_inject by (unfold prec; lia). apply Qlt_le_weak. exact S2.
Qed.

Lemma round_pos_bounds (q : Q) : 0 < q ->
  2 ^ binade q <= round_pos q /\ round_pos q <= 2 ^ (binade q + 1).
Proof.
  intros Hq. unfold round_pos. cbv zeta. rewrite Qred_correct.
  destruct (rne_scaled_bounds q Hq) as [R1 R2].
  set (k := binade q) in *. set (e := (k - (prec - 1))%Z) in *.
  set (m := rne (q * 2 ^ (- e))) in *.
  split.
  - replace k with ((prec - 1) + e)%Z at 1 by (unfold e; ring).
    rewrite pow2_add. apply Qmult_le_compat_r; [|apply Qlt_le_weak, pow2_pos].
    rewrite <- pow2_inject by (unfold prec; lia). now rewrite <- Zle_Qle.
  - replace (k + 1)%Z with (prec + e)%Z by (unfold e; ring).
    rewrite pow2_add. apply Qmult_le_compat_r; [|apply Qlt_le_weak, pow2_pos].
    rewrite <- pow2_inject by (unfold prec; lia). now rewrite <- Zle_Qle.
Qed.

Lemma round_pos_mono (x y : Q) : 0 < x -> x <= y -> round_pos x <= round_pos y.
Proof.
  intros Hx Hxy.
  assert (Hy : 0 < y) by (eapply Qlt_le_trans; eassumption).
  pose proof (binade_mono x y Hx Hxy) as Hk.
  destruct (Z.eq_dec (binade x) (binade y)) as [E|NE].
  - unfold round_pos. cbv zeta. rewrite !Qred_correct, E.
    apply Qmult_le_compat_r; [|apply Qlt_le_weak, pow2_pos].
    rewrite <- Zle_Qle. apply rne_mono.
    apply Qmult_le_compat_r; [exact Hxy|apply Qlt_le_weak, pow2_pos].
  - destruct (round_pos_bounds x Hx) as [_ X2]. destruct (round_pos_bounds y Hy) as [Y1 _].
    eapply Qle_trans; [exact X2|]. eapply Qle_trans; [|exact Y1].
    apply pow2_le. lia.
Qed.

Lemma fl_proper (x y : Q) : x == y -> fl x = fl y.
Proof. intros E. unfold fl. now rewrite (Qred_complete _ _ E). Qed.

Lemma Qnum_sign_pos (q : Q) : 0 < q <-> (0 < Qnum q)%Z.
Proof. unfold Qlt. cbn. lia. Qed.

Lemma Qnum_sign_neg (q : Q) : q < 0 <-> (Qnum q < 0)%Z.
Proof. unfold Qlt. cbn. lia. Qed.

Lemma Qnum_sign_zero (q : Q) : q == 0 <-> Qnum q = 0%Z.
Proof. unfold Qeq. cbn. lia. Qed.

Lemma fl_pos_eq (q : Q) : 0 < q -> fl q = round_pos (Qred q).
Proof.
  intros H. rewrite <- (Qred_correct q) in H. apply Qnum_sign_pos in H.
  unfold fl. cbv zeta. destruct (Qnum (Qred q)); try lia. reflexivity.
Qed.

Lemma fl_neg_eq (q : Q) : q < 0 -> fl q = - round_pos (- Qred q).
Proof.
  intros H. rewrite <- (Qred_correct q) in H. apply Qnum_sign_neg in H.
  unfold fl. cbv zeta. destruct (Qnum (Qred q)); try lia. reflexivity.
Qed.

Lemma fl_zero_eq (q : Q) : q == 0 -> fl q = 0.
Proof.
  intros H. rewrite <- (Qred_correct q) in H. apply Qnum_sign_zero in H.
  unfold fl. cbv zeta. now rewrite H.
Qed.

Lemma round_pos_pos (q : Q) : 0 < q -> 0 < round_pos q.
Proof.
  intros H. destruct (round_pos_bounds q H) as [B _].
  eapply Qlt_le_trans; [apply pow2_pos|exact B].
Qed.

Lemma fl_pos (q : Q) : 0 < q -> 0 < fl q.
Proof.
  intros H. rewrite (fl_pos_eq q H). apply round_pos_pos. now rewrite Qred_correct.
Qed.

Lemma fl_neg (q : Q) : q < 0 -> fl q < 0.
Proof.
  intros H. rewrite (fl_neg_eq q H).
  assert (P : 0 < round_pos (- Qred q)).
  { apply round_pos_pos. rewrite Qred_correct.
    apply (Qplus_lt_l _ _ q). ring_simplify. exact H. }
  apply (Qplus_lt_l _ _ (round_pos (- Qred q))). ring_simplify. exact P.
Qed.

Lemma fl_opp (q : Q) : fl (- q) == - fl q.
Proof.
  destruct (Q_dec 0 q) as [[H|H]|H].
  - assert (N : - q < 0) by (apply (Qplus_lt_l _ _ q); ring_simplify; exact H).
    rewrite (fl_neg_eq _ N), (fl_pos_eq _ H), Qred_opp.
    assert (E : - - Qred q = Qred q) by (destruct (Qred q) as [a b]; unfold Qopp; cbn [Qnum Qden]; f_equal; lia).
    rewrite E. reflexivity.
  - assert (P : 0 < - q) by (apply (Qplus_lt_l _ _ q); ring_simplify; exact H).
    rewrite (fl_pos_eq _ P), (fl_neg_eq _ H), Qred_opp. ring.
  - assert (Z1 : q == 0) by (symmetry; exact H).
    assert (Z2 : - q == 0) by (rewrite Z1; reflexivity).
    rewrite (fl_zero_eq _ Z1), (fl_zero_eq _ Z2). reflexivity.
Qed.

Theorem fl_mono (x y : Q) : x <= y -> fl x <= fl y.
Proof.
  intros Hxy.
  destruct (Q_dec 0 x) as [[Hx|Hx]|Hx].
  - assert (Hy : 0 < y) by (eapply Qlt_le_trans; eassumption).
    rewrite (fl_pos_eq _ Hx), (fl_pos_eq _ Hy).
    apply round_pos_mono; rewrite ?Qred_correct; assumption.
  - destruct (Q_dec 0 y) as [[Hy|Hy]|Hy].
    + apply Qlt_le_weak. eapply Qlt_trans; [apply fl_neg; exact Hx|apply fl_pos; exact Hy].
    + rewrite (fl_neg_eq _ Hx), (fl_neg_eq _ Hy).
      apply Qopp_le_compat. apply round_pos_mono.
      * rewrite Qred_correct. apply (Qplus_lt_l _ _ y). ring_simplify. exact Hy.
      * rewrite !Qred_correct. apply Qopp_le_compat. exact Hxy.
    + rewrite (fl_zero_eq y) by (symmetry; exact Hy).
      apply Qlt_le_weak, fl_neg, Hx.
  - rewrite (fl_zero_eq x) by (symmetry; exact Hx).
    rewrite <- Hx in Hxy. apply Qle_lt_or_eq in Hxy. destruct Hxy as [Hy|Hy].
    + apply Qlt_le_weak, fl_pos, Hy.
    + rewrite (fl_zero_eq y) by (symmetry; exact Hy). apply Qle_refl.
Qed.

#[local] Instance rne_comp : Proper (Qeq ==> eq) rne.
Proof.
  intros x y E. unfold rne. cbv zeta. rewrite (Qfloor_comp _ _ E).
  assert (E' : x - inject_Z (Qfloor y) == y - inject_Z (Qfloor y)) by (rewrite E; reflexivity).
  now rewrite E'.
Qed.

Lemma inject_Z_pos (n : Z) : (0 < n)%Z -> 0 < inject_Z n.
Proof. intros H. unfold Qlt. cbn. lia. Qed.

Lemma round_pos_int (n : Z) : (0 < n < 2 ^ prec)%Z -> round_pos (inject_Z n) == inject_Z n.
Proof.
  intros [H0 H1].
  assert (Hq : 0 < inject_Z n) by (apply inject_Z_pos; exact H0).
  destruct (binade_spec _ Hq) as [B1 B2].
  assert (Hk : (binade (inject_Z n) < prec)%Z).
  { apply pow2_lt_inv. eapply Qle_lt_trans; [exact B1|].
    rewrite <- pow2_inject by (unfold prec; lia). rewrite <- Zlt_Qlt. exact H1. }
  unfold round_pos. cbv zeta. rewrite Qred_correct.
  set (e := (binade (inject_Z n) - (prec - 1))%Z) in *.
  assert (He : (0 <= - e)%Z) by (unfold e; lia).
  assert (E : inject_Z n * 2 ^ (- e) == inject_Z (n * 2 ^ (- e))).
  { rewrite inject_Z_mult, pow2_inject by exact He. reflexivity. }
  rewrite E, rne_inject, inject_Z_mult, pow2_inject by exact He.
  rewrite <- Qmult_assoc, (Qmult_comm (2 ^ (- e))), pow2_cancel. ring.
Qed.

Lemma Qred_inject_Z (n : Z) : Qred (inject_Z n) = inject_Z n.
Proof.
  unfold inject_Z, Qred.
  pose proof (Z.ggcd_gcd n 1) as G. rewrite Z.gcd_1_r in G.
  pose proof (Z.ggcd_correct_divisors n 1) as D.
  destruct (Z.ggcd n 1) as [g [a b]]. cbn in G. subst g.
  destruct D as [Da Db]. rewrite Z.mul_1_l in Da, Db. subst a b. reflexivity.
Qed.

Theorem fl_int (n : Z) : (Z.abs n < 2 ^ prec)%Z -> fl (inject_Z n) == inject_Z n.
Proof.
  intros H. destruct (Z.lt_trichotomy n 0) as [N|[N|N]].
  - assert (E : inject_Z n == - inject_Z (- n)) by (rewrite inject_Z_opp; ring).
    rewrite (fl_proper _ _ E), fl_opp, E.
    assert (P : 0 < inject_Z (- n)) by (apply inject_Z_pos; lia).
    rewrite (fl_pos_eq _ P), Qred_inject_Z, round_pos_int by lia. reflexivity.
  - subst n. reflexivity.
  - assert (P : 0 < inject_Z n) by (apply inject_Z_pos; lia).
    rewrite (fl_pos_eq _ P), Qred_inject_Z. apply round_pos_int. lia.
Qed.

End FloatFacts.

(** ** The geometry fitter *)

Module GeometryFacts.
Import Float FloatFacts Py Video2hls.
Local Open Scope Q_scope.

Lemma trunc_le_int (q : Q) (n : Z) : q <= inject_Z n -> (trunc q <= n)%Z.
Proof.
  intros H. unfold trunc. destruct (Qle_bool 0 q).
  - rewrite <- (Qfloor_Z n). now apply Qfloor_resp_le.
  - rewrite <- (Qceiling_Z n). now apply Qceiling_resp_le.
Qed.

Lemma trunc_nonneg (q : Q) : 0 <= q -> (0 <= trunc q)%Z.
Proof.
  intros H. unfold trunc. apply Qle_bool_iff in H. rewrite H.
  apply Qle_bool_iff in H. change 0%Z with (Qfloor 0). now apply Qfloor_resp_le.
Qed.

Lemma of_int_exact (n : Z) : (Z.abs n < 2 ^ prec)%Z -> of_int n == inject_Z n.
Proof. apply fl_int. Qed.

Lemma div_of_int (n : Z) (r : Q) :
  (Z.abs n < 2 ^ prec)%Z -> div (of_int n) r = fl (inject_Z n / r).
Proof.
  intros H. unfold div. apply fl_proper. now rewrite (of_int_exact n H).
Qed.

Lemma mul_of_int (n : Z) (r : Q) :
  (Z.abs n < 2 ^ prec)%Z -> mul (of_int n) r = fl (inject_Z n * r).
Proof.
  intros H. unfold mul. apply fl_proper. now rewrite (of_int_exact n H).
Qed.

Lemma fl_le_int (q : Q) (n : Z) :
  (Z.abs n < 2 ^ prec)%Z -> q <= inject_Z n -> fl q <= inject_Z n.
Proof.
  intros Hn H. rewrite <- (fl_int n Hn). now apply fl_mono.
Qed.

Lemma fl_gt_int (q : Q) (n : Z) :
  (Z.abs n < 2 ^ prec)%Z -> inject_Z n < fl q -> inject_Z n < q.
Proof.
  intros Hn H. apply Qnot_le_lt. intros C.
  apply (Qlt_irrefl (inject_Z n)). eapply Qlt_le_trans; [exact H|].
  now apply fl_le_int.
Qed.

Lemma even_floor2 (n : Z) : Z.even (n / 2 * 2) = true.
Proof. rewrite Z.even_mul. cbn. now rewrite orb_true_r. Qed.

Lemma floor2_le (n : Z) : (n / 2 * 2 <= n)%Z.
Proof. pose proof (Z.mul_div_le n 2). lia. Qed.

Lemma floor2_nonneg (n : Z) : (0 <= n)%Z -> (0 <= n / 2 * 2)%Z.
Proof. intros H. pose proof (Z.div_pos n 2 H). lia. Qed.

Lemma ratio_pos (w h : Z) : (0 < w)%Z -> (0 < h)%Z -> 0 < int_truediv w h.
Proof.
  intros Hw Hh. unfold int_truediv. apply fl_pos.
  apply Qlt_shift_div_l; [now apply inject_Z_pos|].
  rewrite Qmult_0_l. now apply inject_Z_pos.
Qed.

End GeometryFacts.

Import Float FloatFacts Py Monad Video2hls GeometryFacts.

(** The fitted rectangle lies in the box, and both its sides are even and
    not negative. *)
Lemma contained_in_in_box (w h W H : Z) :
  (0 < w -> 0 < h -> 0 < W < 2 ^ 53 -> 0 < H < 2 ^ 53 ->
   exists w' h',
     contained_in (w, h) (W, H) = Ok (w', h') /\
     0 <= w' <= W /\ 0 <= h' <= H /\
     Z.even w' = true /\ Z.even h' = true)%Z.
Proof.
  intros Hw Hh HW HH. unfold contained_in. cbn [fst snd].
  destruct (Z.eqb_spec h 0) as [E|_]; [lia|].
  pose proof (ratio_pos w h Hw Hh) as Hr.
  set (ratio := int_truediv w h) in *.
  destruct (Qeq_bool ratio 0) eqn:E0.
  { apply Qeq_bool_eq in E0. rewrite E0 in Hr. discriminate Hr. }
  assert (PW : (Z.abs W < 2 ^ prec)%Z) by (unfold prec; lia).
  assert (PH : (Z.abs H < 2 ^ prec)%Z) by (unfold prec; lia).
  rewrite (div_of_int W ratio PW), (mul_of_int H ratio PH).
  assert (Wq : (0 < inject_Z W)%Q) by (apply inject_Z_pos; lia).
  assert (Hq : (0 < inject_Z H)%Q) by (apply inject_Z_pos; lia).
  destruct (Qlt_le_dec (inject_Z H) (fl (inject_Z W / ratio))) as [L|L].
  - (* the box is too wide: the width shrinks *)
    apply fl_gt_int in L; [|exact PH].
    assert (M : (inject_Z H * ratio <= inject_Z W)%Q).
    { apply Qlt_le_weak. apply (Qmult_lt_r _ _ ratio Hr) in L.
      eapply Qlt_le_trans; [exact L|]. unfold Qdiv.
      rewrite <- Qmult_assoc, (Qmult_comm (/ ratio)), Qmult_inv_r, Qmult_1_r.
      - apply Qle_refl.
      - intros C. rewrite C in Hr. discriminate Hr. }
    exists (trunc (fl (inject_Z H * ratio)) / 2 * 2), (H / 2 * 2).
    assert (T1 : trunc (fl (inject_Z H * ratio)) <= W).
    { apply trunc_le_int. now apply fl_le_int. }
    assert (T0 : 0 <= trunc (fl (inject_Z H * ratio))).
    { apply trunc_nonneg. apply Qlt_le_weak, fl_pos.
      now apply Qmult_lt_0_compat. }
    pose proof (floor2_le (trunc (fl (inject_Z H * ratio)))).
    pose proof (floor2_nonneg _ T0). pose proof (floor2_le H).
    pose proof (floor2_nonneg H ltac:(lia)).
    repeat split; try lia; apply even_floor2.
  - (* the box is too tall: the height shrinks *)
    exists (W / 2 * 2), (trunc (fl (inject_Z W / ratio)) / 2 * 2).
    assert (T1 : trunc (fl (inject_Z W / ratio)) <= H) by now apply trunc_le_int.
    assert (T0 : 0 <= trunc (fl (inject_Z W / ratio))).
    { apply trunc_nonneg. apply Qlt_le_weak, fl_pos.
      apply Qlt_shift_div_l; [exact Hr|]. now rewrite Qmult_0_l. }
    pose proof (floor2_le (trunc (fl (inject_Z W / ratio)))).
    pose proof (floor2_nonneg _ T0). pose proof (floor2_le W).
    pose proof (floor2_nonneg W ltac:(lia)).
    repeat split; try lia; apply even_floor2.
Qed.

(** ** Reasoning about computations *)

Module MonadFacts.

Lemma bind_ok {S A B} (m : M S A) (f : A -> M S B) s b s' :
  bind m f s = (Ok b, s') ->
  exists a s1, m s = (Ok a, s1) /\ f a s1 = (Ok b, s').
Proof.
  unfold bind. destruct (m s) as [[a|e] s1]; intros H.
  - now exists a, s1.
  - discriminate H.
Qed.

Lemma modify_run {S} (f : S -> S) s : modify f s = (Ok tt, f s).
Proof. reflexivity. Qed.

Lemma get_run {S} (s : S) : get s = (Ok s, s).
Proof. reflexivity. Qed.

Lemma lift_ok {S A} (r : result A) (s : S) a s' :
  lift r s = (Ok a, s') -> r = Ok a /\ s' = s.
Proof. unfold lift. intros H. inversion H. auto. Qed.

(** A loop whose body keeps [I] keeps it, whether it returns or raises. *)
Lemma for_each_keeps {S A} (I : S -> Prop) (l : list A) (body : A -> M S unit) :
  (forall x s r s', I s -> body x s = (r, s') -> I s') ->
  forall s r s', I s -> for_each l body s = (r, s') -> I s'.
Proof.
  intros Hb. induction l as [|x l IH]; intros s r s' Hs H; cbn in H.
  - inversion H. now subst.
  - unfold bind in H. destruct (body x s) as [[[]|e] s1] eqn:E.
    + eapply IH; [|exact H]. eapply Hb; eassumption.
    + inversion H. subst. eapply Hb; eassumption.
Qed.

End MonadFacts.

Module ListFacts.

(** [pick keep l]: the elements of [l] at the positions [keep] marks; the
    positions past the end of [keep] are kept. *)
Fixpoint pick {A} (keep : list bool) (l : list A) : list A :=
  match keep, l with
  | [], _ => l
  | _, [] => []
  | true :: keep', x :: l' => x :: pick keep' l'
  | false :: keep', _ :: l' => pick keep' l'
  end.

Lemma pick_nil {A} (keep : list bool) : pick keep (@nil A) = [].
Proof. destruct keep as [|[] ?]; reflexivity. Qed.

Lemma delitem_app {A} (p : list A) x (q : list A) :
  delitem (p ++ x :: q) (List.length p) = Ok (p ++ q).
Proof. induction p as [|a p IH]; cbn; [reflexivity|]. now rewrite IH. Qed.

Lemma delitem_short {A} (l : list A) i :
  (List.length l <= i)%nat -> delitem l i = Raise IndexError.
Proof.
  revert i. induction l as [|a l IH]; intros i H; cbn.
  - now destruct i.
  - destruct i as [|i]; cbn in H; [lia|]. rewrite IH by lia. reflexivity.
Qed.

Lemma getitem_app {A} (p : list A) x (q : list A) :
  getitem (p ++ x :: q) (List.length p) = Ok x.
Proof. unfold getitem. now rewrite nth_error_app2, Nat.sub_diag by lia. Qed.

Lemma firstn_skipn_cons {A} (l : list A) k :
  (k < List.length l)%nat ->
  exists x, firstn (S k) l = firstn k l ++ [x] /\ skipn k l = x :: skipn (S k) l.
Proof.
  revert k. induction l as [|a l IH]; intros k H; cbn in H; [lia|].
  destruct k as [|k].
  - exists a. split; reflexivity.
  - destruct (IH k ltac:(lia)) as [x [E1 E2]]. exists x. split.
    + rewrite !firstn_cons, E1. reflexivity.
    + exact E2.
Qed.

(** The vector after the deletions decided for the positions from [k] on. *)
Definition pruned_from {A} (k : nat) (keep : list bool) (l : list A) : list A :=
  firstn k l ++ pick keep (skipn k l).

Lemma pruned_from_keep {A} (k : nat) (keep : list bool) (l : list A) :
  pruned_from k (true :: keep) l = pruned_from (S k) keep l.
Proof.
  unfold pruned_from. destruct (Nat.lt_ge_cases k (List.length l)) as [H|H].
  - destruct (firstn_skipn_cons l k H) as [x [E1 E2]].
    rewrite E1, E2. cbn. now rewrite <- app_assoc.
  - rewrite !firstn_all2, !skipn_all2 by lia. now rewrite !pick_nil.
Qed.

Lemma pruned_from_drop {A} (k : nat) (keep : list bool) (l : list A) :
  pruned_from k (false :: keep) l = del_or_pass (pruned_from (S k) keep l) k.
Proof.
  unfold pruned_from, del_or_pass. destruct (Nat.lt_ge_cases k (List.length l)) as [H|H].
  - destruct (firstn_skipn_cons l k H) as [x [E1 E2]].
    rewrite E1, E2. cbn [pick]. rewrite <- app_assoc. cbn [app].
    assert (L : List.length (firstn k l) = k) by (rewrite length_firstn; lia).
    pose proof (delitem_app (firstn k l) x (pick keep (skipn (S k) l))) as D.
    rewrite L in D. now rewrite D.
  - rewrite !firstn_all2, !skipn_all2 by lia. rewrite !pick_nil, app_nil_r.
    now rewrite delitem_short by lia.
Qed.

Lemma pruned_from_end {A} (l : list A) : pruned_from (List.length l) [] l = l.
Proof. unfold pruned_from. now rewrite firstn_all, skipn_all, app_nil_r. Qed.

Lemma pruned_from_past {A} (k : nat) (l : list A) :
  pruned_from k [] l = l.
Proof. unfold pruned_from. cbn. apply firstn_skipn. Qed.

Lemma pruned_from_0 {A} (keep : list bool) (l : list A) :
  pruned_from 0 keep l = pick keep l.
Proof. reflexivity. Qed.

Lemma pick_length {A B} (keep : list bool) (l : list A) (l' : list B) :
  List.length l = List.length l' -> List.length (pick keep l) = List.length (pick keep l').
Proof.
  revert l l'. induction keep as [|[] keep IH]; intros [|x l] [|y l'] H;
    cbn in *; try discriminate; auto.
Qed.

Lemma pick_Forall2 {A B} (R : A -> B -> Prop) (keep : list bool) l l' :
  Forall2 R l l' -> Forall2 R (pick keep l) (pick keep l').
Proof.
  intros H. revert keep. induction H as [|x y l l' Hxy H IH]; intros keep.
  - rewrite !pick_nil. constructor.
  - destruct keep as [|[] keep]; cbn.
    + now constructor.
    + constructor; auto.
    + auto.
Qed.

End ListFacts.

Module NormalizerFacts.

Import MonadFacts ListFacts.

Lemma map_vectors_ext (f g : forall A, list A -> list A) (o : Options) :
  (forall A l, f A l = g A l) -> map_vectors f o = map_vectors g o.
Proof. intros E. unfold map_vectors. cbn. now rewrite !E. Qed.

Lemma map_vectors_compose (f g : forall A, list A -> list A) (o : Options) :
  map_vectors f (map_vectors g o) = map_vectors (fun A l => f A (g A l)) o.
Proof. reflexivity. Qed.

Lemma map_vectors_id (o : Options) : map_vectors (fun _ l => l) o = o.
Proof. now destruct o. Qed.

(** The decision of the pruning loop on each width: [keep] marks the widths
    that stay. *)
Definition decided (technical : Technical) (widths : list Z) (keep : list bool) : Prop :=
  Forall2 (fun w k =>
             too_large (width (video technical)) (height (video technical)) w
             = Ok (negb k)) widths keep.

Definition prune_body (technical : Technical) (idx : nat) : M Options unit :=
  bind get (fun o =>
  bind (lift (getitem (video_widths o) idx)) (fun w =>
  bind (lift (too_large (width (video technical)) (height (video technical)) w))
       (fun drop : bool => if drop then modify (delete_rendition idx) else ret tt))).

Lemma rev_seq_S (k : nat) : rev (seq 0 (S k)) = k :: rev (seq 0 k).
Proof. now rewrite seq_S, rev_app_distr. Qed.

Lemma prune_loop (technical : Technical) (o0 : Options) :
  forall k keep s',
    (k + List.length keep = List.length (video_widths o0))%nat ->
    decided technical (skipn k (video_widths o0)) keep ->
    for_each (rev (seq 0 k)) (prune_body technical)
             (map_vectors (fun _ => pruned_from k keep) o0) = (Ok tt, s') ->
    exists keep',
      decided technical (video_widths o0) keep' /\
      s' = map_vectors (fun _ => pick keep') o0.
Proof.
  induction k as [|k IH]; intros keep s' Hlen Hdec Hrun.
  - cbn in Hrun. inversion Hrun. exists keep. split; [exact Hdec|reflexivity].
  - rewrite rev_seq_S in Hrun. cbn [for_each] in Hrun.
    apply bind_ok in Hrun. destruct Hrun as [[] [s1 [Hbody Hrest]]].
    unfold prune_body in Hbody.
    apply bind_ok in Hbody. destruct Hbody as [o [s2 [Hget Hbody]]].
    rewrite get_run in Hget. inversion Hget. subst o s2. clear Hget.
    apply bind_ok in Hbody. destruct Hbody as [w [s2 [Hw Hbody]]].
    apply lift_ok in Hw. destruct Hw as [Hw ->].
    apply bind_ok in Hbody. destruct Hbody as [drop [s2 [Hd Hbody]]].
    apply lift_ok in Hd. destruct Hd as [Hd ->].
    assert (Hk : (k < List.length (video_widths o0))%nat) by lia.
    destruct (firstn_skipn_cons (video_widths o0) k Hk) as [x [E1 E2]].
    assert (Hx : w = x).
    { change (video_widths (map_vectors (fun _ => pruned_from (S k) keep) o0))
        with (pruned_from (S k) keep (video_widths o0)) in Hw.
      unfold pruned_from in Hw. rewrite E1, <- app_assoc in Hw. cbn [app] in Hw.
      assert (L : List.length (firstn k (video_widths o0)) = k)
        by (rewrite length_firstn; lia).
      pose proof (getitem_app (firstn k (video_widths o0)) x
                    (pick keep (skipn (S k) (video_widths o0)))) as G.
      rewrite L in G. rewrite G in Hw. now inversion Hw. }
    subst w. destruct drop.
    + rewrite modify_run in Hbody. inversion Hbody. subst s1. clear Hbody.
      unfold delete_rendition in Hrest. rewrite map_vectors_compose in Hrest.
      rewrite (map_vectors_ext _ (fun _ => pruned_from k (false :: keep))) in Hrest
        by (intros; now rewrite pruned_from_drop).
      apply (IH (false :: keep) s'); [cbn; lia| |exact Hrest].
      unfold decided. rewrite E2. constructor; [exact Hd|exact Hdec].
    + inversion Hbody. subst s1. clear Hbody.
      rewrite (map_vectors_ext _ (fun _ => pruned_from k (true :: keep))) in Hrest
        by (intros; now rewrite pruned_from_keep).
      apply (IH (true :: keep) s'); [cbn; lia| |exact Hrest].
      unfold decided. rewrite E2. constructor; [exact Hd|exact Hdec].
Qed.

(** The pruning step deletes from every vector the positions of the widths
    that are too large, and nothing else. *)
Lemma prune_spec (technical : Technical) (o o' : Options) :
  prune technical o = (Ok tt, o') ->
  exists keep,
    decided technical (video_widths o) keep /\
    o' = map_vectors (fun _ => pick keep) o.
Proof.
  intros Hrun. unfold prune in Hrun.
  apply bind_ok in Hrun. destruct Hrun as [o1 [s1 [Hget Hrun]]].
  rewrite get_run in Hget. inversion Hget. subst o1 s1. clear Hget.
  apply (prune_loop technical o (List.length (video_widths o)) [] o').
  - cbn. lia.
  - rewrite skipn_all. constructor.
  - rewrite (map_vectors_ext _ (fun _ l => l)) by (intros; apply pruned_from_past).
    rewrite map_vectors_id. exact Hrun.
Qed.

End NormalizerFacts.

Module AlignFacts.

Import MonadFacts ListFacts NormalizerFacts.

Ltac mrun H :=
  lazymatch type of H with
  | bind _ _ _ = (Ok _, _) =>
      let a := fresh "a" in
      let s1 := fresh "s" in
      let H1 := fresh "R" in
      apply bind_ok in H; destruct H as [a [s1 [H1 H]]]; mrun H1; mrun H
  | get _ = (Ok ?a, ?s1) =>
      rewrite get_run in H; inversion H; clear H; try subst a; try subst s1
  | modify _ _ = (Ok ?a, ?s1) =>
      rewrite modify_run in H; inversion H; clear H; try subst a; try subst s1
  | ret _ _ = (Ok ?a, ?s1) =>
      inversion H; clear H; try subst a; try subst s1
  | lift _ _ = (Ok _, ?s1) =>
      let E := fresh "E" in
      apply lift_ok in H; destruct H as [H E]; try subst s1
  | _ => idtac
  end.

(** Reduces the projections of updated records. *)
Ltac fields :=
  cbn [hls_playlist_prefix hls_add_codecs video_widths video_bitrates video_codecs video_profiles video_names video_presets video_bitrate_factor audio_bitrate audio_only audio_separate mp4 mp4_width mp4_max_width mp4_bitrate_factor mp4_bitrate poster_width poster_max_width ratio
       set_hls_playlist_prefix set_video_widths set_video_bitrates set_video_codecs set_video_profiles set_video_names set_video_presets set_mp4_width set_mp4_bitrate set_poster_width set_ratio map_vectors] in *.

(** The claim's words: a vector longer than [n] is truncated, a shorter one
    is extended by repeating its last element. *)
Definition last_sticks {A} (n : nat) (v : list A) : list A :=
  if (n <=? List.length v)%nat then firstn n v
  else match rev v with
       | x :: _ => v ++ repeat x (n - List.length v)
       | [] => v
       end.

Lemma align_firstn {A} (policy : align_policy) (n : nat) (v : list A) :
  align policy n (firstn n v) = align policy n v.
Proof. unfold align. now rewrite firstn_firstn, Nat.min_id. Qed.

Lemma getlast_rev {A} (v : list A) x : getlast v = Ok x -> exists r, rev v = x :: r.
Proof. unfold getlast. destruct (rev v) as [|y r]; intros H; inversion H. now exists r. Qed.

Lemma align_extend {A} (n : nat) (v v' : list A) :
  align Extend n v = Ok v' -> v' = last_sticks n v /\ List.length v' = n.
Proof.
  unfold align, last_sticks. cbv zeta.
  destruct (Nat.leb_spec n (List.length v)) as [H|H].
  - rewrite length_firstn, Nat.min_l by lia. rewrite Nat.sub_diag.
    intros E. inversion E. split; [reflexivity|]. rewrite length_firstn. lia.
  - rewrite firstn_all2 by lia.
    destruct (n - List.length v)%nat as [|d] eqn:D; [lia|].
    unfold getlast. destruct (rev v) as [|x r]; cbn [rbind]; intros E; inversion E.
    subst v'. split; [reflexivity|].
    rewrite length_app. cbn [List.length]. rewrite repeat_length. lia.
Qed.

Lemma align_truncate {A} (n : nat) (v v' : list A) :
  align TruncateOnly n v = Ok v' -> v' = firstn n v.
Proof. unfold align. cbv zeta. intros E. now inversion E. Qed.

Lemma align_presets {A} (n : nat) (v v' : list A) :
  align ExtendUnlessEmpty n v = Ok v' ->
  match firstn n v with
  | [] => v' = []
  | _ :: _ => v' = last_sticks n v /\ List.length v' = n
  end.
Proof.
  intros H. destruct (firstn n v) as [|x r] eqn:F.
  - unfold align in H. cbv zeta in H. rewrite F in H. now inversion H.
  - apply align_extend. unfold align in *. cbv zeta in *. now rewrite F in *.
Qed.

(** The state after the alignment loop, when it does not raise. *)
Lemma align_options_spec (n : nat) (o o' : Options) :
  align_options n o = (Ok tt, o') ->
  exists widths bitrates codecs profiles names presets,
    align Extend n (video_widths o) = Ok widths /\
    align Extend n (video_bitrates o) = Ok bitrates /\
    align Extend n (video_codecs o) = Ok codecs /\
    align Extend n (video_profiles o) = Ok profiles /\
    align TruncateOnly n (video_names o) = Ok names /\
    align ExtendUnlessEmpty n (video_presets o) = Ok presets /\
    o' = set_video_presets presets (set_video_names names
          (set_video_profiles profiles (set_video_codecs codecs
          (set_video_bitrates bitrates (set_video_widths widths o))))).
Proof.
  intros H. unfold align_options, align_option in H. mrun H.
  fields.
  repeat match goal with
  | H : context [align _ _ (firstn _ _)] |- _ => rewrite align_firstn in H
  end.
  exists a0, a1, a2, a3, a4, a. repeat split; assumption || reflexivity.
Qed.

End AlignFacts.

Module ZeroFacts.

Import MonadFacts ListFacts NormalizerFacts AlignFacts.

(** The bit rates after the loop that forces the bit rate of each width 0. *)
Fixpoint zeroed (widths bitrates : list Z) : list Z :=
  match widths, bitrates with
  | w :: widths', b :: bitrates' =>
      (if (w =? 0)%Z then 0%Z else b) :: zeroed widths' bitrates'
  | _, _ => bitrates
  end.

Lemma zeroed_length (ws bs : list Z) : List.length (zeroed ws bs) = List.length bs.
Proof.
  revert bs. induction ws as [|w ws IH]; intros [|b bs]; cbn; auto.
Qed.

Lemma zeroed_Forall2 (ws bs : list Z) :
  List.length bs = List.length ws ->
  Forall2 (fun w b => w = 0%Z -> b = 0%Z) ws (zeroed ws bs).
Proof.
  revert bs. induction ws as [|w ws IH]; intros [|b bs] H; cbn in *;
    try discriminate; constructor.
  - destruct (Z.eqb_spec w 0); congruence.
  - apply IH. lia.
Qed.

Lemma zeroed_fixed (ws bs : list Z) :
  Forall2 (fun w b => w = 0%Z -> b = 0%Z) ws bs -> zeroed ws bs = bs.
Proof.
  induction 1 as [|w b ws bs Hwb _ IH]; cbn; [reflexivity|].
  rewrite IH. destruct (Z.eqb_spec w 0) as [E|E]; [now rewrite Hwb|reflexivity].
Qed.

(** The bit rates when the positions before [k] have been visited. *)
Definition zeroed_before (k : nat) (ws bs : list Z) : list Z :=
  zeroed (firstn k ws) bs.

Lemma zeroed_app_width (p : list Z) (w : Z) (bs : list Z) :
  zeroed (p ++ [w]) bs =
  if (w =? 0)%Z
  then match setitem (zeroed p bs) (List.length p) 0%Z with
       | Ok b => b
       | Raise _ => zeroed p bs
       end
  else zeroed p bs.
Proof.
  revert bs. induction p as [|a p IH]; intros [|b bs]; cbn.
  - now destruct (w =? 0)%Z.
  - now destruct (w =? 0)%Z.
  - now destruct (w =? 0)%Z.
  - rewrite IH. destruct (w =? 0)%Z; [|reflexivity].
    now destruct (setitem (zeroed p bs) (List.length p) 0%Z).
Qed.

Definition zero_body (idx : nat) : M Options unit :=
  bind get (fun o =>
  bind (lift (getitem (video_widths o) idx)) (fun w =>
  if (w =? 0)%Z then
    bind (lift (setitem (video_bitrates o) idx 0%Z)) (fun b =>
    modify (set_video_bitrates b))
  else ret tt)).

Lemma zero_loop (o0 : Options) :
  forall m k s',
    (k + m = List.length (video_widths o0))%nat ->
    for_each (seq k m) zero_body
      (set_video_bitrates (zeroed_before k (video_widths o0) (video_bitrates o0)) o0)
    = (Ok tt, s') ->
    s' = set_video_bitrates (zeroed (video_widths o0) (video_bitrates o0)) o0.
Proof.
  induction m as [|m IH]; intros k s' Hlen Hrun.
  - cbn in Hrun. inversion Hrun. unfold zeroed_before.
    now rewrite firstn_all2 by lia.
  - cbn [seq for_each] in Hrun. apply bind_ok in Hrun.
    destruct Hrun as [[] [s1 [Hbody Hrest]]].
    assert (Hk : (k < List.length (video_widths o0))%nat) by lia.
    destruct (firstn_skipn_cons (video_widths o0) k Hk) as [x [E1 _]].
    assert (L : List.length (firstn k (video_widths o0)) = k)
      by (rewrite length_firstn; lia).
    assert (Hx : getitem (video_widths o0) k = Ok x).
    { unfold getitem. rewrite <- (firstn_skipn (S k) (video_widths o0)), E1.
      rewrite nth_error_app1 by (rewrite length_app; cbn; lia).
      rewrite nth_error_app2 by lia. now rewrite L, Nat.sub_diag. }
    apply (IH (S k) s'); [lia|].
    unfold zero_body in Hbody. mrun Hbody. fields.
    rewrite Hx in R. inversion R. subst a. clear R.
    unfold zeroed_before in *. rewrite E1, zeroed_app_width, L.
    destruct (x =? 0)%Z.
    + mrun Hbody. fields. rewrite R. exact Hrest.
    + mrun Hbody. exact Hrest.
Qed.

(** The step that forces the bit rate of every width 0 to 0 changes the bit
    rates only, and as [zeroed] says. *)
Lemma zero_audio_bitrates_spec (o o' : Options) :
  zero_audio_bitrates o = (Ok tt, o') ->
  o' = set_video_bitrates (zeroed (video_widths o) (video_bitrates o)) o.
Proof.
  intros H. unfold zero_audio_bitrates in H.
  apply bind_ok in H. destruct H as [o1 [s1 [Hget H]]].
  rewrite get_run in Hget. inversion Hget. subst o1 s1.
  apply (zero_loop o (List.length (video_widths o)) 0%nat); [lia|].
  unfold zeroed_before. cbn [firstn zeroed].
  replace (set_video_bitrates (video_bitrates o) o) with o by now destruct o.
  exact H.
Qed.

End ZeroFacts.

Module StepFacts.

Import MonadFacts ListFacts NormalizerFacts AlignFacts ZeroFacts.
Local Open Scope string_scope.

(** A display name made by the normalizer. *)
Definition synthesized (name : string) : Prop :=
  name = "Audio only" \/ exists h : Z, name = str_of_int h ++ "p".

Lemma more_names_spec (o : Options) (idxs : list nat) (more : list string) :
  more_names o idxs = Ok more ->
  List.length more = List.length idxs /\ Forall synthesized more.
Proof.
  revert more. induction idxs as [|idx idxs IH]; intros more H; cbn in H.
  - inversion H. split; [reflexivity|constructor].
  - destruct (getitem (video_bitrates o) idx) as [b|e]; cbn [rbind] in H; [|discriminate].
    destruct (more_names o idxs) as [names|e] eqn:E.
    + destruct (IH names eq_refl) as [L F].
      destruct (0 <? b)%Z.
      * destruct (getitem (video_widths o) idx) as [w|e]; cbn [rbind] in H; [|discriminate].
        destruct (over_ratio w (ratio o)) as [h|e]; cbn [rbind] in H; [|discriminate].
        inversion H. split; [cbn; now rewrite L|].
        constructor; [right; now exists (Float.trunc h)|exact F].
      * cbn [rbind] in H. inversion H. split; [cbn; now rewrite L|].
        constructor; [now left|exact F].
    + destruct (0 <? b)%Z.
      * destruct (getitem (video_widths o) idx) as [w|e']; cbn [rbind] in H; [|discriminate].
        destruct (over_ratio w (ratio o)) as [h|e']; cbn [rbind] in H; discriminate.
      * cbn [rbind] in H. discriminate.
Qed.

Lemma Forall_skipn {A} (P : A -> Prop) (n : nat) (l : list A) :
  Forall P l -> Forall P (skipn n l).
Proof.
  intros H. rewrite <- (firstn_skipn n l) in H. now apply Forall_app in H.
Qed.

(** The step that completes the display names appends synthesized names,
    and as many as are missing. *)
Lemma derive_names_spec (n : nat) (o o' : Options) :
  derive_names n o = (Ok tt, o') ->
  exists extra,
    o' = set_video_names (video_names o ++ extra)%list o /\
    Forall synthesized extra /\
    (List.length (video_widths o) = n ->
     (List.length (video_names o) <= n)%nat ->
     List.length (video_names o ++ extra)%list = n).
Proof.
  intros H. unfold derive_names in H. mrun H.
  destruct (Nat.ltb_spec (List.length (video_names o)) n) as [Lt|Ge].
  - mrun H. destruct (more_names_spec _ _ _ R) as [Lm Fm].
    rewrite length_seq in Lm.
    eexists. split; [reflexivity|]. split; [now apply Forall_skipn|].
    intros Hw Hn. rewrite length_app, length_skipn. lia.
  - mrun H. exists []. split; [|split].
    + rewrite app_nil_r. now destruct o.
    + constructor.
    + intros _ Hn. rewrite app_nil_r. lia.
Qed.

(** [int(r * factor)] *)
Definition scaled (factor : Q) (r : Z) : Z :=
  Float.trunc (Float.mul (Float.of_int r) factor).

Lemma scaled_0 (factor : Q) : scaled factor 0 = 0%Z.
Proof.
  unfold scaled, Float.mul.
  assert (E : (Float.of_int 0 * factor == 0)%Q).
  { unfold Float.of_int. rewrite (FloatFacts.fl_zero_eq (inject_Z 0)) by reflexivity. ring. }
  now rewrite (FloatFacts.fl_zero_eq _ E).
Qed.

Lemma scale_bitrates_spec (o o' : Options) :
  scale_bitrates o = (Ok tt, o') ->
  exists b, o' = set_mp4_bitrate b
                   (set_video_bitrates
                      (map (scaled (video_bitrate_factor o)) (video_bitrates o)) o).
Proof.
  intros H. unfold scale_bitrates in H. mrun H. destruct o. fields.
  destruct mp4_bitrate0 as [[z|q]|]; cbn [falsy_num];
    repeat match goal with
    | |- context [if ?c then _ else _] => destruct c
    end; eexists; reflexivity.
Qed.

Lemma parse_ratio_spec (o o' : Options) :
  parse_ratio o = (Ok tt, o') ->
  exists s r, ratio o = RatioStr s /\ o' = set_ratio (RatioNum r) o.
Proof.
  intros H. unfold parse_ratio in H. mrun H.
  destruct (ratio o) as [s|q] eqn:E.
  - mrun H. now exists s, a0.
  - discriminate H.
Qed.

Lemma derive_mp4_bitrate_spec (o o' : Options) :
  derive_mp4_bitrate o = (Ok tt, o') ->
  exists b, o' = set_mp4_bitrate b o.
Proof.
  intros H. unfold derive_mp4_bitrate in H. mrun H.
  destruct (falsy_num (mp4_bitrate o)).
  - mrun H. eexists. reflexivity.
  - mrun H. exists (mp4_bitrate o). now destruct o.
Qed.

End StepFacts.

Module PlanFacts.

Import MonadFacts ListFacts NormalizerFacts AlignFacts ZeroFacts StepFacts.
Local Open Scope string_scope.

Ltac fields_in F :=
  cbn [hls_playlist_prefix hls_add_codecs video_widths video_bitrates video_codecs video_profiles video_names video_presets video_bitrate_factor audio_bitrate audio_only audio_separate mp4 mp4_width mp4_max_width mp4_bitrate_factor mp4_bitrate poster_width poster_max_width ratio
       set_hls_playlist_prefix set_video_widths set_video_bitrates set_video_codecs set_video_profiles set_video_names set_video_presets set_mp4_width set_mp4_bitrate set_poster_width set_ratio map_vectors] in F.

(** From [E : s' = update s], the value of every attribute of [s'] in terms
    of [s]; the equation itself is then forgotten. *)
Ltac observe E :=
  let F := fresh "F" in pose proof (f_equal hls_playlist_prefix E) as F; fields_in F;
  let F := fresh "F" in pose proof (f_equal hls_add_codecs E) as F; fields_in F;
  let F := fresh "F" in pose proof (f_equal video_widths E) as F; fields_in F;
  let F := fresh "F" in pose proof (f_equal video_bitrates E) as F; fields_in F;
  let F := fresh "F" in pose proof (f_equal video_codecs E) as F; fields_in F;
  let F := fresh "F" in pose proof (f_equal video_profiles E) as F; fields_in F;
  let F := fresh "F" in pose proof (f_equal video_names E) as F; fields_in F;
  let F := fresh "F" in pose proof (f_equal video_presets E) as F; fields_in F;
  let F := fresh "F" in pose proof (f_equal video_bitrate_factor E) as F; fields_in F;
  let F := fresh "F" in pose proof (f_equal audio_bitrate E) as F; fields_in F;
  let F := fresh "F" in pose proof (f_equal audio_only E) as F; fields_in F;
  let F := fresh "F" in pose proof (f_equal audio_separate E) as F; fields_in F;
  let F := fresh "F" in pose proof (f_equal mp4 E) as F; fields_in F;
  let F := fresh "F" in pose proof (f_equal mp4_width E) as F; fields_in F;
  let F := fresh "F" in pose proof (f_equal mp4_max_width E) as F; fields_in F;
  let F := fresh "F" in pose proof (f_equal mp4_bitrate_factor E) as F; fields_in F;
  let F := fresh "F" in pose proof (f_equal mp4_bitrate E) as F; fields_in F;
  let F := fresh "F" in pose proof (f_equal poster_width E) as F; fields_in F;
  let F := fresh "F" in pose proof (f_equal poster_max_width E) as F; fields_in F;
  let F := fresh "F" in pose proof (f_equal ratio E) as F; fields_in F;
  clear E.

(** The width vector once the audio-only width has been appended. *)
Definition canonical_widths (o : Options) : list Z :=
  (video_widths o ++ if audio_only o || audio_separate o then [0%Z] else [])%list.

Definition canonical_length (o : Options) : nat :=
  List.length (canonical_widths o).

Lemma align_same_length {A} (v v' : list A) :
  align Extend (List.length v) v = Ok v' -> v' = v.
Proof.
  intros H. apply align_extend in H. destruct H as [-> _].
  unfold last_sticks. rewrite Nat.leb_refl. apply firstn_all.
Qed.

Lemma default_prefix_spec (o o' : Options) :
  default_prefix o = (Ok tt, o') ->
  o' = set_hls_playlist_prefix
         (match hls_playlist_prefix o with [] => [""] | l => l end) o.
Proof.
  unfold default_prefix. intros H. mrun H.
  destruct o as [p]. cbn. now destruct p.
Qed.

Lemma append_audio_width_spec (o o' : Options) :
  append_audio_width o = (Ok tt, o') ->
  o' = set_video_widths (canonical_widths o) o.
Proof.
  unfold append_audio_width, canonical_widths. intros H. mrun H.
  destruct o. cbn. destruct (audio_only0 || audio_separate0); cbn;
    now rewrite ?app_nil_r.
Qed.

Lemma derive_poster_width_spec (technical : Technical) (o o' : Options) :
  derive_poster_width technical o = (Ok tt, o') ->
  o' = set_poster_width
         (if falsy_int (poster_width o)
          then Some (default_width technical (poster_max_width o) o)
          else poster_width o) o.
Proof.
  unfold derive_poster_width. intros H. mrun H.
  destruct (falsy_int (poster_width o)); [reflexivity|now destruct o].
Qed.

Lemma derive_mp4_width_spec (technical : Technical) (o o' : Options) :
  derive_mp4_width technical o = (Ok tt, o') ->
  o' = set_mp4_width
         (if falsy_int (mp4_width o)
          then Some (default_width technical (mp4_max_width o) o)
          else mp4_width o) o.
Proof.
  unfold derive_mp4_width. intros H. mrun H.
  destruct (falsy_int (mp4_width o)); [reflexivity|now destruct o].
Qed.

Lemma default_width_ext (technical : Technical) (limit : Z) (a b : Options) :
  video_widths a = video_widths b ->
  default_width technical limit a = default_width technical limit b.
Proof. unfold default_width. now intros ->. Qed.


(** What a run of [fix_options] that returns leaves in [options], vector by
    vector, in terms of the options it was given. *)
Lemma fix_options_spec (technical : Technical) (o o' : Options) :
  fix_options technical o = (Ok tt, o') ->
  let widths := canonical_widths o in
  let n := canonical_length o in
  exists bitrates codecs profiles presets extra keep rs r,
    align Extend n (video_bitrates o) = Ok bitrates /\
    align Extend n (video_codecs o) = Ok codecs /\
    align Extend n (video_profiles o) = Ok profiles /\
    align ExtendUnlessEmpty n (video_presets o) = Ok presets /\
    Forall synthesized extra /\
    List.length (firstn n (video_names o) ++ extra)%list = n /\
    ratio o = RatioStr rs /\
    decided technical widths keep /\
    video_widths o' = pick keep widths /\
    video_bitrates o' =
      pick keep (map (scaled (video_bitrate_factor o)) (zeroed widths bitrates)) /\
    video_codecs o' = pick keep codecs /\
    video_profiles o' = pick keep profiles /\
    video_names o' = pick keep (firstn n (video_names o) ++ extra)%list /\
    video_presets o' = pick keep presets /\
    ratio o' = RatioNum r /\
    hls_playlist_prefix o' =
      match hls_playlist_prefix o with [] => [""] | l => l end /\
    audio_only o' = audio_only o /\
    audio_separate o' = audio_separate o /\
    hls_add_codecs o' = hls_add_codecs o /\
    audio_bitrate o' = audio_bitrate o /\
    poster_width o' =
      (if falsy_int (poster_width o)
       then Some (default_width technical (poster_max_width o) o')
       else poster_width o) /\
    mp4_width o' =
      (if falsy_int (mp4_width o)
       then Some (default_width technical (mp4_max_width o) o')
       else mp4_width o).
Proof.
  intros H widths n. unfold fix_options in H. mrun H.
  repeat match goal with u : unit |- _ => destruct u end.
  apply default_prefix_spec in R. observe R.
  apply append_audio_width_spec in R0. observe R0.
  apply align_options_spec in R1.
  destruct R1 as (w1 & bitrates & codecs & profiles & names & presets
                  & Aw & Ab & Ac & Ap & An & Aq & R1).
  observe R1.
  apply zero_audio_bitrates_spec in R2. observe R2.
  apply parse_ratio_spec in R3. destruct R3 as (rs & r & Hs & R3). observe R3.
  apply derive_names_spec in R4. destruct R4 as (extra & R4 & Fe & Le). observe R4.
  apply scale_bitrates_spec in R5. destruct R5 as (b5 & R5). observe R5.
  apply prune_spec in R6. destruct R6 as (keep & Hk & R6). observe R6.
  apply derive_poster_width_spec in R7. observe R7.
  apply derive_mp4_width_spec in R8. observe R8.
  apply derive_mp4_bitrate_spec in H. destruct H as (b9 & H). observe H.
  assert (Cw : video_widths s0 = widths).
  { unfold widths, canonical_widths in *.
    replace (video_widths o) with (video_widths s) by congruence.
    replace (audio_only o) with (audio_only s) by congruence.
    replace (audio_separate o) with (audio_separate s) by congruence.
    assumption. }
  rewrite Cw in *.
  assert (Hn : List.length widths = n) by reflexivity.
  rewrite Hn in *.
  assert (Ew : w1 = widths) by (apply align_same_length; now rewrite Hn).
  subst w1. apply align_truncate in An. subst names.
  assert (Ln : List.length (firstn n (video_names o) ++ extra)%list = n).
  { replace (video_names o) with (video_names s0) by congruence.
    replace (firstn n (video_names s0)) with (video_names s3) by congruence.
    apply Le; [congruence|].
    replace (video_names s3) with (firstn n (video_names s0)) by congruence.
    rewrite length_firstn. lia. }
  exists bitrates, codecs, profiles, presets, extra, keep, rs, r.
  split; [congruence|]. split; [congruence|]. split; [congruence|].
  split; [congruence|]. split; [exact Fe|].
  split; [exact Ln|]. split; [congruence|].
  split; [unfold decided in *; congruence|].
  split; [congruence|]. split; [congruence|]. split; [congruence|].
  split; [congruence|]. split; [congruence|]. split; [congruence|].
  split; [congruence|]. split; [congruence|]. split; [congruence|].
  split; [congruence|]. split; [congruence|]. split; [congruence|].
  split.
  - rewrite (default_width_ext technical (poster_max_width o) o' s6) by congruence.
    replace (poster_width o) with (poster_width s6) by congruence.
    replace (poster_max_width o) with (poster_max_width s6) by congruence.
    congruence.
  - rewrite (default_width_ext technical (mp4_max_width o) o' s7) by congruence.
    replace (mp4_width o) with (mp4_width s7) by congruence.
    replace (mp4_max_width o) with (mp4_max_width s7) by congruence.
    congruence.
Qed.

End PlanFacts.

(** ** The normalized plan *)

Import MonadFacts ListFacts NormalizerFacts AlignFacts ZeroFacts StepFacts PlanFacts.
Local Open Scope string_scope.

(** The literal [0.8], the default of [--mp4-bitrate-factor]. *)
Definition c0_8 : Q := Eval vm_compute in Float.fl (8 # 10).

(** The options [parse_args] builds when only the input file is given. *)
Definition default_options : Options := {|
  hls_playlist_prefix := [];
  hls_add_codecs := true;
  video_widths := [3840; 2560; 1920; 1280; 854; 640; 428];
  video_bitrates := [14000; 6500; 4500; 2500; 1300; 800; 400];
  video_codecs := ["h264"];
  video_profiles := ["high@5.1"; "high@5.1"; "main@3.2"; "main@3.1"];
  video_names := [];
  video_presets := [];
  video_bitrate_factor := 1;
  audio_bitrate := 96;
  audio_only := false;
  audio_separate := false;
  mp4 := true;
  mp4_width := None;
  mp4_max_width := 1280;
  mp4_bitrate_factor := c0_8;
  mp4_bitrate := None;
  poster_width := None;
  poster_max_width := 1280;
  ratio := RatioStr "16:9"
|}.

(** A 1920x1080 source at 25 frames per second, without audio. *)
Definition source_1080p : Technical := {|
  video := {| width := 1920; height := 1080; r_frame_rate := "25/1" |};
  audio := None
|}.

Lemma Forall2_nth_error {A B} (R : A -> B -> Prop) (l : list A) (l' : list B) :
  Forall2 R l l' ->
  forall i a, nth_error l i = Some a ->
  exists b, nth_error l' i = Some b /\ R a b.
Proof.
  induction 1 as [|x y l l' Hxy _ IH]; intros [|i] a E; cbn in *; try discriminate.
  - inversion E. subst. now exists y.
  - now apply IH.
Qed.

Lemma Forall2_map_r {A B C} (R : A -> B -> Prop) (R' : A -> C -> Prop)
    (f : B -> C) (l : list A) (l' : list B) :
  (forall a b, R a b -> R' a (f b)) ->
  Forall2 R l l' -> Forall2 R' l (map f l').
Proof. intros Hf. induction 1; cbn; constructor; auto. Qed.

(** In a normalized plan the widths and the bit rates are aligned, and a
    width 0 carries the bit rate 0. *)
Lemma audio_only_invariant (technical : Technical) (o o' : Options) :
  fix_options technical o = (Ok tt, o') ->
  Forall2 (fun w b => w = 0 -> b = 0) (video_widths o') (video_bitrates o').
Proof.
  intros H. apply fix_options_spec in H. cbv zeta in H.
  destruct H as (bitrates & codecs & profiles & presets & extra & keep & rs & r
                 & Ab & _ & _ & _ & _ & _ & _ & _ & Ew & Eb & _).
  rewrite Ew, Eb. apply pick_Forall2.
  apply Forall2_map_r with (R := fun w b => w = 0 -> b = 0).
  - intros w b Hwb Hw. rewrite (Hwb Hw). apply scaled_0.
  - apply zeroed_Forall2. apply align_extend in Ab. now destruct Ab as [_ ->].
Qed.

(** C6: for every index of a normalized plan, a width 0 at that index means
    a bit rate 0 at that index, whatever bit rates and bit-rate factor were
    given: the invariant survives the scaling and the pruning. *)
Theorem zero_width_means_zero_bitrate (technical : Technical) (o o' : Options) :
  fix_options technical o = (Ok tt, o') ->
  forall idx : nat,
    nth_error (video_widths o') idx = Some 0 ->
    nth_error (video_bitrates o') idx = Some 0.
Proof.
  intros H idx Hw. apply audio_only_invariant in H.
  destruct (Forall2_nth_error _ _ _ H idx 0 Hw) as (b & Hb & Hz).
  now rewrite Hb, (Hz eq_refl).
Qed.

(** A plan with an audio-only rendition and a bit-rate factor of 1.5. *)
Definition audio_only_request : Options :=
  {| hls_playlist_prefix := [];
     hls_add_codecs := true;
     video_widths := [1280; 640];
     video_bitrates := [2500; 800; 64];
     video_codecs := ["h264"];
     video_profiles := ["main@3.1"];
     video_names := [];
     video_presets := [];
     video_bitrate_factor := 3 # 2;
     audio_bitrate := 96;
     audio_only := true;
     audio_separate := false;
     mp4 := true;
     mp4_width := None;
     mp4_max_width := 1280;
     mp4_bitrate_factor := 1;
     mp4_bitrate := None;
     poster_width := None;
     poster_max_width := 1280;
     ratio := RatioStr "16:9" |}.

Lemma zero_width_means_zero_bitrate_witness :
  nth_error (video_widths (snd (fix_options source_1080p audio_only_request))) 2 = Some 0 /\
  nth_error (video_bitrates (snd (fix_options source_1080p audio_only_request))) 2 = Some 0.
Proof.
  split; [vm_compute; reflexivity|].
  apply (zero_width_means_zero_bitrate source_1080p audio_only_request);
    vm_compute; reflexivity.
Defined.

(** The alignment policy in the claim's words: the vector cut or extended to
    [n] elements; an empty [video_presets] stays empty. *)
Definition presets_aligned (n : nat) (presets : list string) : list string :=
  match firstn n presets with
  | [] => []
  | _ :: _ => last_sticks n presets
  end.

(** What normalization makes of the per-rendition vectors: with [n] the
    length of the width vector once the audio-only width is appended, every
    vector is first brought to [n] elements (cut, or extended with its last
    element; the names are cut and completed with synthesized names); the
    bit rates so aligned are then set to 0 where the width is 0 and
    multiplied by the bit rate factor; and the pruning keeps the same
    positions [keep] of each vector, those of the widths it does not find
    too large. *)
Definition aligned_plan (technical : Technical) (o o' : Options) : Prop :=
  let n := canonical_length o in
  let widths := canonical_widths o in
  let bitrates :=
    map (scaled (video_bitrate_factor o))
        (zeroed widths (last_sticks n (video_bitrates o))) in
  exists (keep : list bool) (extra : list string),
    decided technical widths keep /\
    List.length keep = n /\
    List.length bitrates = n /\
    Forall synthesized extra /\
    video_widths o' = pick keep widths /\
    video_bitrates o' = pick keep bitrates /\
    video_codecs o' = pick keep (last_sticks n (video_codecs o)) /\
    video_profiles o' = pick keep (last_sticks n (video_profiles o)) /\
    video_presets o' = pick keep (presets_aligned n (video_presets o)) /\
    video_names o' = pick keep (firstn n (video_names o) ++ extra)%list /\
    List.length (last_sticks n (video_codecs o)) = n /\
    List.length (last_sticks n (video_profiles o)) = n /\
    List.length (firstn n (video_names o) ++ extra)%list = n /\
    List.length (video_bitrates o') = List.length (video_widths o') /\
    List.length (video_codecs o') = List.length (video_widths o') /\
    List.length (video_profiles o') = List.length (video_widths o') /\
    List.length (video_names o') = List.length (video_widths o') /\
    (video_presets o' = [] \/
     List.length (video_presets o') = List.length (video_widths o')).

Lemma decided_length (technical : Technical) (widths : list Z) (keep : list bool) :
  decided technical widths keep -> List.length keep = List.length widths.
Proof. intros H. symmetry. eapply Forall2_length. exact H. Qed.

(** A run of [fix_options] that returns leaves an aligned plan. *)
Lemma plan_is_aligned (technical : Technical) (o o' : Options) :
  fix_options technical o = (Ok tt, o') -> aligned_plan technical o o'.
Proof.
  intros H. apply fix_options_spec in H. cbv zeta in H.
  destruct H as (bitrates & codecs & profiles & presets & extra & keep & rs & r
                 & Ab & Ac & Ap & Aq & Fe & Ln & _ & Hk & Ew & Eb & Ec & Ep
                 & En & Eq & _).
  unfold aligned_plan. cbv zeta.
  apply align_extend in Ab, Ac, Ap.
  destruct Ab as [-> Lb], Ac as [-> Lc], Ap as [-> Lp].
  apply align_presets in Aq.
  pose proof (decided_length _ _ _ Hk) as Lk. fold (canonical_length o) in Lk.
  exists keep, extra.
  assert (Lz : List.length (map (scaled (video_bitrate_factor o))
                              (zeroed (canonical_widths o)
                                 (last_sticks (canonical_length o) (video_bitrates o))))
               = canonical_length o) by (now rewrite length_map, zeroed_length).
  assert (Eq' : presets = presets_aligned (canonical_length o) (video_presets o)).
  { unfold presets_aligned.
    destruct (firstn (canonical_length o) (video_presets o)); [exact Aq|apply Aq]. }
  rewrite Ew, Eb, Ec, Ep, En, Eq.
  repeat split; try assumption; try (now subst presets).
  - apply pick_length. now rewrite Lz.
  - apply pick_length. now rewrite Lc.
  - apply pick_length. now rewrite Lp.
  - apply pick_length. now rewrite Ln.
  - destruct (firstn (canonical_length o) (video_presets o)) eqn:F.
    + left. subst presets. apply pick_nil.
    + right. apply pick_length. destruct Aq as [_ Lq]. now rewrite Lq.
Qed.



(** ** Normalizing twice *)

Module RerunFacts.

Lemma bind_run {S A B} (m : M S A) (f : A -> M S B) s a s1 :
  m s = (Ok a, s1) -> bind m f s = f a s1.
Proof. unfold bind. now intros ->. Qed.

Lemma bind_raise {S A B} (m : M S A) (f : A -> M S B) s e s1 :
  m s = (Raise e, s1) -> bind m f s = (Raise e, s1).
Proof. unfold bind. now intros ->. Qed.

Lemma for_each_unchanged {S A} (l : list A) (body : A -> M S unit) (s : S) :
  (forall x, In x l -> body x s = (Ok tt, s)) ->
  for_each l body s = (Ok tt, s).
Proof.
  induction l as [|x l IH]; intros H; cbn; [reflexivity|].
  rewrite (bind_run _ _ _ _ _ (H x (or_introl eq_refl))).
  apply IH. intros y Hy. apply H. now right.
Qed.

Lemma setitem_same {A} (l : list A) (i : nat) (v : A) :
  nth_error l i = Some v -> setitem l i v = Ok l.
Proof.
  revert i. induction l as [|a l IH]; intros [|i] H; cbn in *; try discriminate.
  - now inversion H.
  - now rewrite (IH i H).
Qed.

Lemma align_fixed {A} (policy : align_policy) (n : nat) (v : list A) :
  List.length v = n -> align policy n v = Ok v.
Proof.
  intros L. unfold align. rewrite firstn_all2 by lia. rewrite L, Nat.sub_diag.
  destruct policy; [reflexivity| |reflexivity]. now destruct v.
Qed.

Lemma align_option_fixed {A} (field : Options -> list A)
    (set : list A -> Options -> Options) (policy : align_policy) (n : nat)
    (o : Options) :
  set (field o) o = o ->
  align policy n (field o) = Ok (field o) ->
  firstn n (field o) = field o ->
  align_option field set policy n o = (Ok tt, o).
Proof.
  intros Hset Hal Hfi. unfold align_option, bind, modify, get, lift.
  now rewrite Hfi, Hset, Hal, Hset.
Qed.

(** The alignment loop leaves an aligned plan as it is. *)
Lemma align_options_fixed (o : Options) :
  let n := List.length (video_widths o) in
  List.length (video_bitrates o) = n ->
  List.length (video_codecs o) = n ->
  List.length (video_profiles o) = n ->
  List.length (video_names o) = n ->
  (video_presets o = [] \/ List.length (video_presets o) = n) ->
  align_options n o = (Ok tt, o).
Proof.
  intros n Lb Lc Lp Ln Lq. unfold align_options.
  rewrite (bind_run _ _ _ tt o).
  2:{ apply align_option_fixed; [now destruct o|now apply align_fixed|now apply firstn_all]. }
  rewrite (bind_run _ _ _ tt o).
  2:{ apply align_option_fixed; [now destruct o|now apply align_fixed|apply firstn_all2; lia]. }
  rewrite (bind_run _ _ _ tt o).
  2:{ apply align_option_fixed; [now destruct o|now apply align_fixed|apply firstn_all2; lia]. }
  rewrite (bind_run _ _ _ tt o).
  2:{ apply align_option_fixed; [now destruct o|now apply align_fixed|apply firstn_all2; lia]. }
  rewrite (bind_run _ _ _ tt o).
  2:{ apply align_option_fixed; [now destruct o|now apply align_fixed|apply firstn_all2; lia]. }
  apply align_option_fixed; [now destruct o| |].
  - destruct Lq as [E|L]; [|now apply align_fixed].
    rewrite E. unfold align. now rewrite firstn_nil.
  - destruct Lq as [E|L]; [|apply firstn_all2; lia].
    rewrite E. apply firstn_nil.
Qed.

(** The loop that forces the bit rate of a width 0 leaves a plan that
    already has the invariant as it is. *)
Lemma zero_audio_bitrates_fixed (o : Options) :
  Forall2 (fun w b => w = 0 -> b = 0) (video_widths o) (video_bitrates o) ->
  zero_audio_bitrates o = (Ok tt, o).
Proof.
  intros F. unfold zero_audio_bitrates. rewrite (bind_run _ _ _ o o) by reflexivity.
  apply for_each_unchanged. intros idx Hidx. apply in_seq in Hidx.
  rewrite (bind_run _ _ _ o o) by reflexivity.
  destruct (nth_error (video_widths o) idx) as [w|] eqn:Ew.
  2:{ apply nth_error_None in Ew. lia. }
  destruct (Forall2_nth_error _ _ _ F idx w Ew) as (b & Eb & Hwb).
  rewrite (bind_run _ _ _ w o) by (unfold lift, getitem; now rewrite Ew).
  destruct (Z.eqb_spec w 0) as [Hz|Hz]; [|reflexivity].
  rewrite (Hwb Hz) in Eb.
  rewrite (bind_run _ _ _ (video_bitrates o) o)
    by (unfold lift; now rewrite (setitem_same _ _ _ Eb)).
  unfold modify. now destruct o.
Qed.

Lemma for_each_returns {S A} (I : S -> Prop) (P : A -> Prop) (l : list A)
    (body : A -> M S unit) :
  (forall x s, P x -> I s -> exists s', body x s = (Ok tt, s') /\ I s') ->
  Forall P l ->
  forall s, I s -> exists s', for_each l body s = (Ok tt, s') /\ I s'.
Proof.
  intros Hb Hl. induction Hl as [|x l Hx _ IH]; intros s Hs; cbn [for_each].
  - exists s. now split.
  - destruct (Hb x s Hx Hs) as (s1 & E & H1).
    rewrite (bind_run _ _ _ _ _ E). now apply IH.
Qed.

Lemma getlast_returns {A} (l : list A) : l <> [] -> exists x, getlast l = Ok x.
Proof.
  intros N. unfold getlast. destruct (rev l) as [|x r] eqn:E; [|eauto].
  apply (f_equal (@rev A)) in E. rewrite rev_involutive in E. contradiction.
Qed.

Lemma align_returns {A} (policy : align_policy) (n : nat) (v : list A) :
  (policy = Extend -> v <> [] \/ (n <= List.length v)%nat) ->
  exists v', align policy n v = Ok v'.
Proof.
  intros H. unfold align.
  assert (X : firstn n v <> [] ->
              exists v', match (n - List.length (firstn n v))%nat with
                         | O => Ok (firstn n v)
                         | S _ => rbind (getlast (firstn n v))
                                    (fun x => Ok (firstn n v ++
                                       repeat x (n - List.length (firstn n v)))%list)
                         end = Ok v').
  { intros N. destruct (n - List.length (firstn n v))%nat; [eauto|].
    destruct (getlast_returns _ N) as [x ->]. cbn. eauto. }
  destruct policy.
  - destruct (n - List.length (firstn n v))%nat eqn:D; [eauto|].
    apply X. destruct (H eq_refl) as [N|L].
    + destruct v as [|a v]; [contradiction|].
      destruct n; [cbn in D; discriminate D|]. discriminate.
    + rewrite length_firstn in D. lia.
  - destruct (firstn n v) eqn:F; [eauto|]. apply X. discriminate.
  - eauto.
Qed.

Lemma align_option_returns {A} (field : Options -> list A)
    (set : list A -> Options -> Options) (policy : align_policy) (n : nat)
    (o : Options) :
  (forall x s, field (set x s) = x) ->
  (forall x y s, set x (set y s) = set x s) ->
  (policy = Extend -> field o <> [] \/ (n <= List.length (field o))%nat) ->
  exists v', align_option field set policy n o = (Ok tt, set v' o).
Proof.
  intros Hget Hset H.
  destruct (align_returns policy n (field o) H) as [v' E].
  exists v'. unfold align_option, bind, modify, get, lift.
  now rewrite Hget, align_firstn, E, Hset.
Qed.

Lemma align_options_returns (n : nat) (o : Options) :
  (n <= List.length (video_widths o))%nat ->
  video_bitrates o <> [] -> video_codecs o <> [] -> video_profiles o <> [] ->
  exists o', align_options n o = (Ok tt, o').
Proof.
  intros Hw Hb Hc Hp. unfold align_options.
  destruct (align_option_returns video_widths set_video_widths Extend n o)
    as [w E1]; [reflexivity|reflexivity|auto|].
  rewrite (bind_run _ _ _ _ _ E1).
  destruct (align_option_returns video_bitrates set_video_bitrates Extend n
              (set_video_widths w o)) as [b E2]; [reflexivity|reflexivity|auto|].
  rewrite (bind_run _ _ _ _ _ E2).
  destruct (align_option_returns video_codecs set_video_codecs Extend n
              (set_video_bitrates b (set_video_widths w o)))
    as [c E3]; [reflexivity|reflexivity|auto|].
  rewrite (bind_run _ _ _ _ _ E3).
  destruct (align_option_returns video_profiles set_video_profiles Extend n
              (set_video_codecs c (set_video_bitrates b (set_video_widths w o))))
    as [p E4]; [reflexivity|reflexivity|auto|].
  rewrite (bind_run _ _ _ _ _ E4).
  destruct (align_option_returns video_names set_video_names TruncateOnly n
              (set_video_profiles p
                 (set_video_codecs c (set_video_bitrates b (set_video_widths w o)))))
    as [m E5]; [reflexivity|reflexivity|discriminate|].
  rewrite (bind_run _ _ _ _ _ E5).
  destruct (align_option_returns video_presets set_video_presets ExtendUnlessEmpty n
              (set_video_names m (set_video_profiles p
                 (set_video_codecs c (set_video_bitrates b (set_video_widths w o))))))
    as [q E6]; [reflexivity|reflexivity|discriminate|].
  eauto.
Qed.

Lemma setitem_returns {A} (l : list A) (i : nat) (v : A) :
  (i < List.length l)%nat ->
  exists l', setitem l i v = Ok l' /\ List.length l' = List.length l.
Proof.
  revert i. induction l as [|a l IH]; intros i H; cbn in H; [lia|].
  destruct i as [|i]; cbn [setitem]; [eauto|].
  destruct (IH i ltac:(lia)) as (l' & -> & L). cbn. eexists. split; [reflexivity|].
  cbn. now rewrite L.
Qed.

Lemma getitem_returns {A} (l : list A) (i : nat) :
  (i < List.length l)%nat -> exists a, getitem l i = Ok a.
Proof.
  intros H. unfold getitem. destruct (nth_error l i) eqn:E; [eauto|].
  apply nth_error_None in E. lia.
Qed.

Lemma zero_audio_bitrates_returns (o : Options) :
  (List.length (video_widths o) <= List.length (video_bitrates o))%nat ->
  exists o', zero_audio_bitrates o = (Ok tt, o').
Proof.
  intros L. unfold zero_audio_bitrates.
  rewrite (bind_run _ _ _ o o) by reflexivity.
  set (n := List.length (video_widths o)).
  destruct (for_each_returns
              (fun s => (n <= List.length (video_bitrates s))%nat /\
                        List.length (video_widths s) = n)
              (fun idx => (idx < n)%nat)
              (seq 0 n)
              (fun idx =>
                 bind get (fun o0 =>
                 bind (lift (getitem (video_widths o0) idx)) (fun w =>
                 if (w =? 0)%Z
                 then bind (lift (setitem (video_bitrates o0) idx 0%Z))
                        (fun b => modify (set_video_bitrates b))
                 else ret tt)))) with (s := o) as (o' & E & _).
  - intros idx s Hi [Hb Hw].
    rewrite (bind_run _ _ _ s s) by reflexivity.
    destruct (getitem_returns (video_widths s) idx ltac:(lia)) as [w Ew].
    rewrite (bind_run _ _ _ w s) by (unfold lift; now rewrite Ew).
    destruct (w =? 0)%Z.
    + destruct (setitem_returns (video_bitrates s) idx 0%Z ltac:(lia)) as (b & Eb & Lb).
      rewrite (bind_run _ _ _ b s) by (unfold lift; now rewrite Eb).
      eexists. split; [reflexivity|]. cbn. split; [lia|assumption].
    + eexists. split; [reflexivity|]. split; assumption.
  - apply Forall_forall. intros i Hi. apply in_seq in Hi. lia.
  - split; [exact L|reflexivity].
  - eauto.
Qed.

End RerunFacts.

Import RerunFacts.

(** Without an audio-only or separate-audio rendition a second run leaves
    the plan as it is and raises at the ratio, which is a number by then. *)
Lemma rerun_without_audio (technical technical' : Technical) (o o' : Options) :
  fix_options technical o = (Ok tt, o') ->
  audio_only o = false ->
  audio_separate o = false ->
  fix_options technical' o' = (Raise AttributeError, o').
Proof.
  intros H Hao Has.
  pose proof (audio_only_invariant _ _ _ H) as Inv.
  pose proof (plan_is_aligned _ _ _ H) as Al.
  apply fix_options_spec in H. cbv zeta in H.
  destruct H as (_ & _ & _ & _ & _ & _ & _ & r & _ & _ & _ & _ & _ & _ & _ & _
                 & _ & _ & _ & _ & _ & _ & Er & Epre & Eao & Eas & _).
  unfold aligned_plan in Al. cbv zeta in Al.
  destruct Al as (keep & extra & _ & _ & _ & _ & _ & _ & _ & _ & _ & _ & _ & _ & _
                  & Lb & Lc & Lp & Ln & Lq).
  unfold fix_options.
  rewrite (bind_run _ _ _ tt o').
  2:{ unfold default_prefix, modify. destruct (hls_playlist_prefix o') eqn:E; [|reflexivity].
      destruct (hls_playlist_prefix o); discriminate. }
  rewrite (bind_run _ _ _ tt o').
  2:{ unfold append_audio_width, modify. now rewrite Eao, Eas, Hao, Has. }
  rewrite (bind_run _ _ _ o' o') by reflexivity.
  rewrite (bind_run _ _ _ tt o') by now apply align_options_fixed.
  rewrite (bind_run _ _ _ tt o') by now apply zero_audio_bitrates_fixed.
  apply bind_raise. unfold parse_ratio.
  rewrite (bind_run _ _ _ o' o') by reflexivity. now rewrite Er.
Qed.

Module RerunAudioFacts.

Lemma last_sticks_one_more {A} (v : list A) (x : A) (r : list A) :
  rev v = x :: r -> last_sticks (S (List.length v)) v = (v ++ [x])%list.
Proof.
  intros E. unfold last_sticks.
  destruct (Nat.leb_spec (S (List.length v)) (List.length v)) as [L|_]; [lia|].
  rewrite E. now replace (S (List.length v) - List.length v)%nat with 1%nat by lia.
Qed.

Lemma last_sticks_same {A} (v : list A) : last_sticks (List.length v) v = v.
Proof. unfold last_sticks. rewrite Nat.leb_refl. apply firstn_all. Qed.

Lemma zeroed_one_more (ws bs : list Z) (x : Z) :
  Forall2 (fun w b => w = 0 -> b = 0) ws bs ->
  zeroed (ws ++ [0]) (bs ++ [x]) = (bs ++ [0])%list.
Proof.
  induction 1 as [|w b ws bs Hwb _ IH]; cbn; [reflexivity|].
  rewrite IH. destruct (Z.eqb_spec w 0) as [E|E]; [now rewrite Hwb|reflexivity].
Qed.

Lemma nonempty_rev {A} (v : list A) : v <> [] -> exists x r, rev v = x :: r.
Proof.
  intros N. destruct (rev v) as [|x r] eqn:E; [|eauto].
  apply (f_equal (@rev A)) in E. rewrite rev_involutive in E. contradiction.
Qed.

End RerunAudioFacts.

(** C3, as the code has it: normalization is not meant to run twice.  After
    a run that returned, the ratio is a number and no longer a string, and a
    second run on the same object, for whatever source, raises.  Without an
    audio-only or separate-audio rendition it raises [AttributeError] at the
    ratio and leaves the options as they are.  With one, it has appended one
    more width 0 by then: when the plan has a rendition it raises
    [AttributeError] at the ratio too, the plan having one more position,
    of width 0 and bit rate 0, with the last codec and profile (and the last
    preset, if there are presets) repeated and the names as they were; when
    the plan is empty it raises [IndexError] in the alignment loop, at the
    bit rates, with the width 0 alone in the plan. *)
Theorem renormalization_raises (technical technical' : Technical) (o o' : Options) :
  fix_options technical o = (Ok tt, o') ->
  let n := List.length (video_widths o') in
  exists (e : exn) (o'' : Options) (r : Q),
    fix_options technical' o' = (Raise e, o'') /\
    ratio o' = RatioNum r /\ ratio o'' = RatioNum r /\
    video_names o'' = video_names o' /\
    if audio_only o' || audio_separate o' then
      video_widths o'' = (video_widths o' ++ [0])%list /\
      match n with
      | O =>
          e = IndexError /\
          video_bitrates o'' = [] /\ video_codecs o'' = [] /\
          video_profiles o'' = [] /\ video_presets o'' = []
      | S _ =>
          e = AttributeError /\
          video_bitrates o'' = (video_bitrates o' ++ [0])%list /\
          video_codecs o'' = last_sticks (S n) (video_codecs o') /\
          video_profiles o'' = last_sticks (S n) (video_profiles o') /\
          video_presets o'' = presets_aligned (S n) (video_presets o')
      end
    else e = AttributeError /\ o'' = o'.
Proof.
  intros H. cbv zeta.
  pose proof (audio_only_invariant _ _ _ H) as Inv.
  pose proof (plan_is_aligned _ _ _ H) as Al.
  pose proof H as Spec. apply fix_options_spec in Spec. cbv zeta in Spec.
  destruct Spec as (_ & _ & _ & _ & _ & _ & _ & r & _ & _ & _ & _ & _ & _ & _ & _
                 & _ & _ & _ & _ & _ & _ & Er & Epre & Eao & Eas & _).
  unfold aligned_plan in Al. cbv zeta in Al.
  destruct Al as (keep & extra & _ & _ & _ & _ & _ & _ & _ & _ & _ & _ & _ & _ & _
                  & Lb & Lc & Lp & Ln & Lq).
  remember (List.length (video_widths o')) as n eqn:En.
  destruct (audio_only o' || audio_separate o') eqn:Audio.
  2:{ exists AttributeError, o', r.
      split; [|now repeat split].
      apply orb_false_elim in Audio. destruct Audio as [Hao Has].
      apply (rerun_without_audio technical technical' o o' H); congruence. }
  assert (Pre : default_prefix o' = (Ok tt, o')).
  { unfold default_prefix, modify. destruct (hls_playlist_prefix o') eqn:E; [|reflexivity].
    destruct (hls_playlist_prefix o); discriminate. }
  set (o1 := set_video_widths (video_widths o' ++ [0])%list o').
  assert (App : append_audio_width o' = (Ok tt, o1)).
  { unfold append_audio_width, modify. now rewrite Audio. }
  unfold fix_options.
  rewrite (bind_run _ _ _ tt o' Pre), (bind_run _ _ _ tt o1 App).
  rewrite (bind_run _ _ _ o1 o1) by reflexivity.
  assert (L1 : List.length (video_widths o1) = S n).
  { unfold o1. cbn. rewrite length_app. cbn. lia. }
  rewrite L1.
  destruct n as [|m].
  - (* the empty plan *)
    assert (Ew : video_widths o' = []) by (apply length_zero_iff_nil; congruence).
    assert (Eb : video_bitrates o' = []) by (apply length_zero_iff_nil; congruence).
    assert (Ec : video_codecs o' = []) by (apply length_zero_iff_nil; congruence).
    assert (Ep : video_profiles o' = []) by (apply length_zero_iff_nil; congruence).
    assert (Eq : video_presets o' = []).
    { destruct Lq as [E|E]; [exact E|apply length_zero_iff_nil; congruence]. }
    exists IndexError,
      (set_video_bitrates [] (set_video_widths [0] o1)), r.
    split.
    + apply bind_raise. unfold align_options. 
      rewrite (bind_run _ _ _ tt (set_video_widths [0] o1)).
      2:{ unfold align_option, bind, modify, get, lift. unfold o1. cbn. now rewrite Ew. }
      apply bind_raise. unfold align_option, bind, modify, get, lift. unfold o1. cbn.
      now rewrite Eb.
    + unfold o1. cbn. rewrite Ew. now repeat split.
  - (* a plan with renditions *)
    remember (S m) as n eqn:Em.
    assert (Nb : video_bitrates o' <> []) by (intros E; rewrite E in Lb; cbn in Lb; lia).
    assert (Nc : video_codecs o' <> []) by (intros E; rewrite E in Lc; cbn in Lc; lia).
    assert (Np : video_profiles o' <> []) by (intros E; rewrite E in Lp; cbn in Lp; lia).
    destruct (align_options_returns (S n) o1) as [o2 A2];
      [lia|exact Nb|exact Nc|exact Np|].
    rewrite (bind_run _ _ _ tt o2 A2).
    apply align_options_spec in A2.
    destruct A2 as (ws & bs & cs & ps & ns & qs & Aw & Ab & Ac & Ap & An & Aq & E2).
    apply align_extend in Aw, Ab, Ac, Ap. apply align_truncate in An.
    destruct Aw as [Aw _], Ab as [Ab Lbs], Ac as [Ac _], Ap as [Ap _].
    change (video_widths o1) with (video_widths o' ++ [0])%list in Aw.
    change (video_bitrates o1) with (video_bitrates o') in Ab.
    change (video_codecs o1) with (video_codecs o') in Ac.
    change (video_profiles o1) with (video_profiles o') in Ap.
    change (video_names o1) with (video_names o') in An.
    change (video_presets o1) with (video_presets o') in Aq.
    assert (Ews : ws = (video_widths o' ++ [0])%list).
    { rewrite Aw. rewrite <- L1 at 1. apply RerunAudioFacts.last_sticks_same. }
    assert (Ens : ns = video_names o') by (rewrite An; apply firstn_all2; lia).
    assert (Eqs : qs = presets_aligned (S n) (video_presets o')).
    { apply align_presets in Aq. unfold presets_aligned.
      destruct (firstn (S n) (video_presets o')); [exact Aq|apply Aq]. }
    destruct (RerunAudioFacts.nonempty_rev _ Nb) as (x & rb & Ex).
    assert (Ebs : bs = (video_bitrates o' ++ [x])%list).
    { rewrite Ab. rewrite <- Lb.
      now apply RerunAudioFacts.last_sticks_one_more with (r := rb). }
    destruct (zero_audio_bitrates_returns o2) as [o3 A3].
    { rewrite E2. cbn. rewrite Ews, Lbs, length_app. cbn. lia. }
    rewrite (bind_run _ _ _ tt o3 A3).
    apply zero_audio_bitrates_spec in A3.
    exists AttributeError, o3, r.
    assert (R3 : ratio o3 = RatioNum r) by (rewrite A3, E2; exact Er).
    split.
    + apply bind_raise. unfold parse_ratio.
      rewrite (bind_run _ _ _ o3 o3) by reflexivity. now rewrite R3.
    + rewrite A3, E2. cbn. 
      rewrite Ews, Ebs, RerunAudioFacts.zeroed_one_more by exact Inv.
      repeat split; try assumption; try reflexivity.
Qed.

Lemma renormalization_raises_witness :
  let o' := snd (fix_options source_1080p audio_only_request) in
  let n := List.length (video_widths o') in
  exists (e : exn) (o'' : Options) (r : Q),
    fix_options source_1080p o' = (Raise e, o'') /\
    ratio o' = RatioNum r /\ ratio o'' = RatioNum r /\
    video_names o'' = video_names o' /\
    if audio_only o' || audio_separate o' then
      video_widths o'' = (video_widths o' ++ [0])%list /\
      match n with
      | O =>
          e = IndexError /\
          video_bitrates o'' = [] /\ video_codecs o'' = [] /\
          video_profiles o'' = [] /\ video_presets o'' = []
      | S _ =>
          e = AttributeError /\
          video_bitrates o'' = (video_bitrates o' ++ [0])%list /\
          video_codecs o'' = last_sticks (S n) (video_codecs o') /\
          video_profiles o'' = last_sticks (S n) (video_profiles o') /\
          video_presets o'' = presets_aligned (S n) (video_presets o')
      end
    else e = AttributeError /\ o'' = o'.
Proof.
  apply (renormalization_raises source_1080p source_1080p audio_only_request).
  vm_compute. reflexivity.
Defined.

(** C3 fails as stated: the plan normalized from [audio_only_request] has
    the widths 1280, 640 and 0; normalizing it again appends one more width
    0 and raises. *)
Lemma normalization_is_not_idempotent :
  exists o1 o2,
    fix_options source_1080p audio_only_request = (Ok tt, o1) /\
    fix_options source_1080p o1 = (Raise AttributeError, o2) /\
    video_widths o1 = [1280; 640; 0] /\
    video_widths o2 = [1280; 640; 0; 0].
Proof.
  eexists. eexists. split; [vm_compute; reflexivity|].
  split; [vm_compute; reflexivity|]. split; reflexivity.
Qed.

(** ** Rounding: relative error *)

Module FloatError.

Import Float FloatFacts.
Local Open Scope Q_scope.

(** Half a unit in the last place, relative to the value: [2^-53]. *)
Definition u : Q := 1 # 9007199254740992.

Lemma rne_error (s : Q) :
  inject_Z (rne s) <= s + (1 # 2) /\ s - (1 # 2) <= inject_Z (rne s).
Proof.
  pose proof (Qfloor_le s) as F1. pose proof (Qlt_floor s) as F2.
  rewrite inject_Z_plus in F2. change (inject_Z 1) with 1 in F2.
  unfold rne. cbv zeta.
  destruct (Qcompare (s - inject_Z (Qfloor s)) (1 # 2)) eqn:C.
  - apply Qeq_alt in C.
    destruct (Z.even (Qfloor s)); rewrite ?inject_Z_plus;
      change (inject_Z 1) with 1; split; lra.
  - apply Qlt_alt in C. split; lra.
  - apply Qgt_alt in C. rewrite inject_Z_plus. change (inject_Z 1) with 1.
    split; lra.
Qed.

Lemma pow2_52 : 2 ^ (- 52) == 1 # 4503599627370496.
Proof. reflexivity. Qed.

(** The rounding error of a positive number is at most [u] times it. *)
Lemma round_pos_error (q : Q) : 0 < q ->
  q - q * u <= round_pos q /\ round_pos q <= q + q * u.
Proof.
  intros Hq. destruct (binade_spec q Hq) as [B1 _].
  unfold round_pos. cbv zeta. rewrite Qred_correct.
  set (k := binade q) in *. set (e := (k - (prec - 1))%Z).
  destruct (rne_error (q * 2 ^ (- e))) as [R1 R2].
  set (m := inject_Z (rne (q * 2 ^ (- e)))) in *.
  pose proof (pow2_pos e) as Pe.
  assert (C : 2 ^ (- e) * 2 ^ e == 1).
  { rewrite <- pow2_add. replace (- e + e)%Z with 0%Z by ring. reflexivity. }
  assert (He : 2 ^ e <= q * (1 # 4503599627370496)).
  { rewrite <- pow2_52. unfold e, prec.
    replace (k - (53 - 1))%Z with (k + - 52)%Z by ring. rewrite pow2_add.
    apply Qmult_le_compat_r; [exact B1|apply Qlt_le_weak, pow2_pos]. }
  assert (U1 : m * 2 ^ e <= (q * 2 ^ (- e) + (1 # 2)) * 2 ^ e)
    by (apply Qmult_le_compat_r; [exact R1|now apply Qlt_le_weak]).
  assert (U2 : (q * 2 ^ (- e) - (1 # 2)) * 2 ^ e <= m * 2 ^ e)
    by (apply Qmult_le_compat_r; [exact R2|now apply Qlt_le_weak]).
  assert (E1 : (q * 2 ^ (- e) + (1 # 2)) * 2 ^ e == q + (1 # 2) * 2 ^ e).
  { rewrite Qmult_plus_distr_l, <- Qmult_assoc, C. ring. }
  assert (E2 : (q * 2 ^ (- e) - (1 # 2)) * 2 ^ e == q - (1 # 2) * 2 ^ e).
  { unfold Qminus. rewrite Qmult_plus_distr_l, <- Qmult_assoc, C. ring. }
  rewrite E1 in U1. rewrite E2 in U2. unfold u. split; lra.
Qed.

Theorem fl_error (q : Q) : 0 < q ->
  q - q * u <= fl q /\ fl q <= q + q * u.
Proof.
  intros Hq. rewrite (fl_pos_eq q Hq).
  assert (P : 0 < Qred q) by now rewrite Qred_correct.
  destruct (round_pos_error _ P) as [E1 E2].
  pose proof (Qred_correct q) as Eq. unfold u in *. split; lra.
Qed.

End FloatError.

(** ** The pruning test against exact arithmetic *)

Module PruneFacts.

Import Float FloatFacts FloatError GeometryFacts.
Local Open Scope Q_scope.

Lemma inject_Z_lt (a b : Z) : (a < b)%Z -> inject_Z a < inject_Z b.
Proof. now rewrite <- Zlt_Qlt. Qed.

Lemma inject_Z_le (a b : Z) : (a <= b)%Z -> inject_Z a <= inject_Z b.
Proof. now rewrite <- Zle_Qle. Qed.

(** For a source narrower than [2^40] pixels the test of the pruning loop,
    computed in floats, is the exact comparison of [w] with 1.1 times the
    source width. *)
Theorem too_large_exact (W H w : Z) :
  (0 < W < 2 ^ 40)%Z -> (0 < H < 2 ^ 53)%Z ->
  too_large W H w = Ok (11 * W <? 10 * w)%Z.
Proof.
  intros [W0 W1] [H0 H1]. unfold too_large.
  assert (PW : (Z.abs W < 2 ^ prec)%Z) by (unfold prec; lia).
  assert (PH : (Z.abs H < 2 ^ prec)%Z) by (unfold prec; lia).
  rewrite (mul_of_int W _ PW), (mul_of_int H _ PH).
  destruct (Z.eqb_spec W 0) as [E|_]; [lia|].
  pose proof (inject_Z_pos W W0) as Wq. pose proof (inject_Z_pos H H0) as Hq.
  pose proof (inject_Z_lt _ _ W1) as Wb. change (inject_Z (2 ^ 40)) with 1099511627776 in Wb.
  assert (X0 : 0 < inject_Z W * c1_1) by (unfold c1_1; lra).
  destruct (fl_error _ X0) as [A1 A2]. unfold u in A1, A2.
  destruct (Z.ltb_spec (11 * W) (10 * w)) as [Lt|Ge].
  - (* more than a tenth wider: both comparisons hold *)
    assert (Lq : 11 * inject_Z W + 1 <= 10 * inject_Z w).
    { change 11 with (inject_Z 11). change 10 with (inject_Z 10).
      change 1 with (inject_Z 1).
      rewrite <- !inject_Z_mult, <- inject_Z_plus. apply inject_Z_le. lia. }
    unfold c1_1 in A1, A2, X0.
    destruct (Qlt_le_dec (fl (inject_Z W * c1_1)) (inject_Z w)) as [_|C];
      [|unfold c1_1 in C; lra].
    assert (Y0 : 0 < inject_Z (w * H) / inject_Z W).
    { apply Qlt_shift_div_l; [exact Wq|]. rewrite Qmult_0_l.
      apply inject_Z_pos. nia. }
    assert (Z0 : 0 < inject_Z H * c1_1) by (unfold c1_1; lra).
    destruct (fl_error _ Z0) as [_ B2]. destruct (fl_error _ Y0) as [C1 _].
    unfold u, c1_1 in B2, C1.
    assert (K : inject_Z H * (2476979795053773 # 2251799813685248)
                + inject_Z H * (2476979795053773 # 2251799813685248)
                  * (1 # 9007199254740992)
                < inject_Z (w * H) / inject_Z W
                  - inject_Z (w * H) / inject_Z W * (1 # 9007199254740992)).
    { assert (L : (2476979795053773 # 2251799813685248) * inject_Z W
                  * (1 + (1 # 9007199254740992))
                  < inject_Z w * (1 - (1 # 9007199254740992))) by lra.
      assert (R : 0 < inject_Z H / inject_Z W).
      { apply Qlt_shift_div_l; [exact Wq|]. now rewrite Qmult_0_l. }
      apply (Qmult_lt_l _ _ _ R) in L.
      assert (E1 : inject_Z H / inject_Z W *
                   ((2476979795053773 # 2251799813685248) * inject_Z W
                    * (1 + (1 # 9007199254740992)))
                   == inject_Z H * (2476979795053773 # 2251799813685248)
                      + inject_Z H * (2476979795053773 # 2251799813685248)
                        * (1 # 9007199254740992)).
      { field. intros C. rewrite C in Wq. discriminate Wq. }
      assert (E2 : inject_Z H / inject_Z W *
                   (inject_Z w * (1 - (1 # 9007199254740992)))
                   == inject_Z (w * H) / inject_Z W
                      - inject_Z (w * H) / inject_Z W * (1 # 9007199254740992)).
      { rewrite inject_Z_mult. field. intros C. rewrite C in Wq. discriminate Wq. }
      rewrite E1, E2 in L. exact L. }
    unfold int_truediv.
    destruct (Qlt_le_dec (fl (inject_Z H * c1_1))
                         (fl (inject_Z (w * H) / inject_Z W))) as [_|C];
      [reflexivity|unfold c1_1 in C; lra].
  - (* at most a tenth wider: the first comparison fails *)
    destruct (Qlt_le_dec (fl (inject_Z W * c1_1)) (inject_Z w)) as [C|_];
      [|reflexivity].
    exfalso. destruct (Z.le_gt_cases w 0) as [Neg|Pos].
    + pose proof (fl_pos _ X0) as P. pose proof (inject_Z_le _ _ Neg) as N.
      change (inject_Z 0) with 0 in N. lra.
    + assert (Pw : (Z.abs w < 2 ^ prec)%Z) by (unfold prec; lia).
      assert (Lq : 10 * inject_Z w <= 11 * inject_Z W).
      { change 11 with (inject_Z 11). change 10 with (inject_Z 10).
        rewrite <- !inject_Z_mult. apply inject_Z_le. lia. }
      assert (M : inject_Z w <= inject_Z W * c1_1) by (unfold c1_1; lra).
      apply fl_mono in M. rewrite (fl_int w Pw) in M. lra.
Qed.

End PruneFacts.

(** ** Pruning of oversized renditions *)

Import Float FloatFacts FloatError PruneFacts.

(** [x < y] on rationals, as a boolean. *)
Definition Qltb (x y : Q) : bool := negb (Qle_bool y x).

Lemma Qltb_lt (x y : Q) : Qltb x y = true <-> (x < y)%Q.
Proof.
  unfold Qltb. rewrite negb_true_iff. split.
  - intros H. apply Qnot_le_lt. intros C. apply Qle_bool_iff in C. congruence.
  - intros H. destruct (Qle_bool y x) eqn:E; [|reflexivity].
    apply Qle_bool_iff in E. exfalso. apply (Qlt_irrefl x).
    eapply Qlt_le_trans; eassumption.
Qed.

(** The two comparisons of the pruning test in exact rational arithmetic:
    [w > width * 1.1] and [w * height / width > height * 1.1]. *)
Definition wider_than_tolerance (width w : Z) : bool :=
  Qltb (inject_Z width * (11 # 10)) (inject_Z w).

Definition taller_than_tolerance (width height w : Z) : bool :=
  Qltb (inject_Z height * (11 # 10)) (inject_Z w * inject_Z height / inject_Z width).

Definition oversized (width height w : Z) : bool :=
  wider_than_tolerance width w && taller_than_tolerance width height w.

Lemma tenth_more_Z (W w : Z) :
  (inject_Z W * (11 # 10) < inject_Z w)%Q <-> (11 * W < 10 * w)%Z.
Proof. unfold Qlt, Qmult, inject_Z. cbn [Qnum Qden]. lia. Qed.

Lemma wider_than_tolerance_Z (W w : Z) :
  wider_than_tolerance W w = (11 * W <? 10 * w)%Z.
Proof.
  unfold wider_than_tolerance.
  destruct (Z.ltb_spec (11 * W) (10 * w)) as [H|H].
  - apply Qltb_lt. now apply tenth_more_Z.
  - destruct (Qltb _ _) eqn:E; [|reflexivity].
    apply Qltb_lt, tenth_more_Z in E. lia.
Qed.

Lemma taller_than_tolerance_Z (W H w : Z) :
  (0 < W)%Z -> (0 < H)%Z ->
  taller_than_tolerance W H w = (11 * W <? 10 * w)%Z.
Proof.
  intros HW HH. unfold taller_than_tolerance.
  assert (Wq : (0 < inject_Z W)%Q) by (unfold Qlt; cbn; lia).
  assert (Hq : (0 < inject_Z H)%Q) by (unfold Qlt; cbn; lia).
  assert (E : (inject_Z w * inject_Z H / inject_Z W
               == inject_Z H * (inject_Z w / inject_Z W))%Q).
  { field. intros C. rewrite C in Wq. discriminate Wq. }
  assert (Iff : (inject_Z H * (11 # 10) < inject_Z w * inject_Z H / inject_Z W)%Q
                <-> (11 * W < 10 * w)%Z).
  { rewrite E, Qmult_lt_l by exact Hq. rewrite <- tenth_more_Z. split.
    - intros L. apply (Qmult_lt_r _ _ _ Wq) in L.
      assert (E2 : (inject_Z w / inject_Z W * inject_Z W == inject_Z w)%Q).
      { field. intros C. rewrite C in Wq. discriminate Wq. }
      rewrite E2 in L. lra.
    - intros L. apply Qlt_shift_div_l; [exact Wq|]. lra. }
  destruct (Z.ltb_spec (11 * W) (10 * w)) as [L|L].
  - apply Qltb_lt. now apply Iff.
  - destruct (Qltb _ _) eqn:B; [|reflexivity].
    apply Qltb_lt, Iff in B. lia.
Qed.

(** C10: over exact rational arithmetic, for a source of positive width and
    height, the height comparison of the pruning test holds exactly when the
    width comparison does, so the test is the width comparison alone: no
    rendition is kept for being taller but not wider than the tolerance. *)
Theorem height_test_is_width_test (width height w : Z) :
  0 < width -> 0 < height ->
  taller_than_tolerance width height w = wider_than_tolerance width w /\
  oversized width height w = wider_than_tolerance width w.
Proof.
  intros HW HH. unfold oversized.
  rewrite (taller_than_tolerance_Z _ _ _ HW HH), wider_than_tolerance_Z.
  split; [reflexivity|apply andb_diag].
Qed.

Lemma height_test_is_width_test_witness :
  taller_than_tolerance 1920 1080 2113 = wider_than_tolerance 1920 2113 /\
  oversized 1920 1080 2113 = wider_than_tolerance 1920 2113.
Proof. apply height_test_is_width_test; lia. Defined.

(** The test the program computes in floats is the exact one. *)
Lemma too_large_oversized (W H w : Z) :
  0 < W < 2 ^ 40 -> 0 < H < 2 ^ 53 ->
  too_large W H w = Ok (oversized W H w).
Proof.
  intros HW HH. rewrite (too_large_exact W H w HW HH).
  unfold oversized.
  rewrite (taller_than_tolerance_Z W H w) by lia.
  now rewrite wider_than_tolerance_Z, andb_diag.
Qed.

Import MonadFacts ListFacts NormalizerFacts AlignFacts ZeroFacts StepFacts PlanFacts.

Lemma pick_map_filter {A} (f : A -> bool) (l : list A) :
  pick (map f l) l = filter f l.
Proof.
  induction l as [|x l IH]; cbn; [reflexivity|].
  destruct (f x); now rewrite IH.
Qed.

Lemma decided_oversized (technical : Technical) (widths : list Z) (keep : list bool) :
  0 < width (video technical) < 2 ^ 40 ->
  0 < height (video technical) < 2 ^ 53 ->
  decided technical widths keep ->
  keep = map (fun w => negb (oversized (width (video technical))
                                       (height (video technical)) w)) widths.
Proof.
  intros HW HH D. induction D as [|w k ws ks Hwk _ IH]; cbn; [reflexivity|].
  rewrite (too_large_oversized _ _ w HW HH) in Hwk. inversion Hwk as [E].
  rewrite <- IH. f_equal. now destruct k, (oversized _ _ w).
Qed.

(** The steps of [fix_options] that come before the pruning loop. *)
Definition before_pruning : M Options unit :=
  bind default_prefix (fun _ =>
  bind append_audio_width (fun _ =>
  bind get (fun o =>
  let length := List.length (video_widths o) in
  bind (align_options length) (fun _ =>
  bind zero_audio_bitrates (fun _ =>
  bind parse_ratio (fun _ =>
  bind (derive_names length) (fun _ =>
  scale_bitrates))))))).

(** A run of [fix_options] that returns has gone through the pruning loop:
    the loop found the options in the state [s] the steps before it leave,
    and from the decisions [keep] it took on the widths of [s], what is left
    of every vector by the end of the run is what [keep] keeps of the vector
    of [s]. *)
Lemma reaches_pruning (technical : Technical) (o o' : Options) :
  fix_options technical o = (Ok tt, o') ->
  exists (s : Options) (keep : list bool),
    before_pruning o = (Ok tt, s) /\
    decided technical (video_widths s) keep /\
    video_widths o' = pick keep (video_widths s) /\
    video_bitrates o' = pick keep (video_bitrates s) /\
    video_codecs o' = pick keep (video_codecs s) /\
    video_profiles o' = pick keep (video_profiles s) /\
    video_names o' = pick keep (video_names s) /\
    video_presets o' = pick keep (video_presets s).
Proof.
  intros H. unfold fix_options in H. mrun H.
  repeat match goal with u : unit |- _ => destruct u end.
  exists s5.
  assert (B : before_pruning o = (Ok tt, s5)).
  { unfold before_pruning.
    rewrite (bind_run _ _ _ _ _ R), (bind_run _ _ _ _ _ R0).
    rewrite (bind_run _ _ _ s0 s0) by reflexivity. cbv zeta.
    rewrite (bind_run _ _ _ _ _ R1), (bind_run _ _ _ _ _ R2).
    rewrite (bind_run _ _ _ _ _ R3), (bind_run _ _ _ _ _ R4). exact R5. }
  apply prune_spec in R6. destruct R6 as (keep & Hk & R6). observe R6.
  apply derive_poster_width_spec in R7. observe R7.
  apply derive_mp4_width_spec in R8. observe R8.
  apply derive_mp4_bitrate_spec in H. destruct H as (b9 & H). observe H.
  exists keep. split; [exact B|]. split; [exact Hk|].
  repeat split; congruence.
Qed.

(** The vectors of the state [s] before the pruning loop, in terms of the
    options [o] that were given. *)
Definition aligned_before_pruning (o s : Options) : Prop :=
  let n := canonical_length o in
  video_widths s = canonical_widths o /\
  video_bitrates s =
    map (scaled (video_bitrate_factor o))
        (zeroed (canonical_widths o) (last_sticks n (video_bitrates o))) /\
  video_codecs s = last_sticks n (video_codecs o) /\
  video_profiles s = last_sticks n (video_profiles o) /\
  video_presets s = presets_aligned n (video_presets o) /\
  (exists extra : list string,
     Forall synthesized extra /\
     video_names s = (firstn n (video_names o) ++ extra)%list) /\
  List.length (video_bitrates s) = n /\
  List.length (video_codecs s) = n /\
  List.length (video_profiles s) = n /\
  List.length (video_names s) = n.

Lemma before_pruning_spec (o s : Options) :
  before_pruning o = (Ok tt, s) -> aligned_before_pruning o s.
Proof.
  intros H. unfold before_pruning in H. mrun H.
  repeat match goal with u : unit |- _ => destruct u end.
  apply default_prefix_spec in R. observe R.
  apply append_audio_width_spec in R0. observe R0.
  apply align_options_spec in R1.
  destruct R1 as (w1 & bitrates & codecs & profiles & names & presets
                  & Aw & Ab & Ac & Ap & An & Aq & R1).
  observe R1.
  apply zero_audio_bitrates_spec in R2. observe R2.
  apply parse_ratio_spec in R3. destruct R3 as (rs & r & Hs & R3). observe R3.
  apply derive_names_spec in R4. destruct R4 as (extra & R4 & Fe & Le). observe R4.
  apply scale_bitrates_spec in H. destruct H as (b5 & H). observe H.
  unfold aligned_before_pruning. cbv zeta.
  set (widths := canonical_widths o). set (n := canonical_length o).
  assert (Cw : video_widths s1 = widths).
  { unfold widths, canonical_widths in *.
    replace (video_widths o) with (video_widths s0) by congruence.
    replace (audio_only o) with (audio_only s0) by congruence.
    replace (audio_separate o) with (audio_separate s0) by congruence.
    assumption. }
  rewrite Cw in *.
  assert (Hn : List.length widths = n) by reflexivity.
  rewrite Hn in *.
  assert (Ew : w1 = widths) by (apply align_same_length; now rewrite Hn).
  subst w1. apply align_truncate in An. subst names.
  assert (Ln : List.length (firstn n (video_names o) ++ extra)%list = n).
  { replace (video_names o) with (video_names s1) by congruence.
    replace (firstn n (video_names s1)) with (video_names s4) by congruence.
    apply Le; [congruence|].
    replace (video_names s4) with (firstn n (video_names s1)) by congruence.
    rewrite length_firstn. lia. }
  replace (video_bitrates s1) with (video_bitrates o) in Ab by congruence.
  replace (video_codecs s1) with (video_codecs o) in Ac by congruence.
  replace (video_profiles s1) with (video_profiles o) in Ap by congruence.
  replace (video_presets s1) with (video_presets o) in Aq by congruence.
  apply align_extend in Ab, Ac, Ap.
  destruct Ab as [Ab Lb], Ac as [Ac Lc], Ap as [Ap Lp].
  apply align_presets in Aq.
  assert (Eq' : presets = presets_aligned n (video_presets o)).
  { unfold presets_aligned.
    destruct (firstn n (video_presets o)); [exact Aq|apply Aq]. }
  assert (Eb : video_bitrates s =
               map (scaled (video_bitrate_factor o)) (zeroed widths bitrates)).
  { replace (video_bitrate_factor o) with (video_bitrate_factor s5) by congruence.
    congruence. }
  assert (En : video_names s = (firstn n (video_names o) ++ extra)%list).
  { replace (video_names o) with (video_names s1) by congruence. congruence. }
  split; [congruence|]. split; [congruence|]. split; [congruence|].
  split; [congruence|]. split; [congruence|].
  split; [exists extra; now split|].
  split; [rewrite Eb, length_map, zeroed_length; exact Lb|].
  split; [congruence|]. split; [congruence|]. now rewrite En.
Qed.

(** C2: normalization drops a rendition exactly when its width is more than
    a tenth above the source width and its scaled height more than a tenth
    above the source height, and drops its index from every per-rendition
    vector: with [s] the options as the pruning loop finds them, each of the
    six vectors is left with the elements of its vector in [s] at the
    positions of the widths that are not oversized, in their order.  The
    widths of [s] are the canonical ones, and its bit rates, codecs,
    profiles, names and presets are the given ones aligned on them.  At
    1920x1080 the width 3840 is dropped, 2000 is kept, and 2112, which is
    1.1 times 1920, is kept too (the comparison is strict). *)
Theorem oversized_renditions_are_pruned :
  (forall (technical : Technical) (o o' : Options),
     let W := width (video technical) in
     let H := height (video technical) in
     fix_options technical o = (Ok tt, o') ->
     0 < W < 2 ^ 40 -> 0 < H < 2 ^ 53 ->
     exists s : Options,
       before_pruning o = (Ok tt, s) /\
       aligned_before_pruning o s /\
       let keep := map (fun w => negb (oversized W H w)) (video_widths s) in
       video_widths o' = filter (fun w => negb (oversized W H w)) (video_widths s) /\
       video_widths o' = pick keep (video_widths s) /\
       video_bitrates o' = pick keep (video_bitrates s) /\
       video_codecs o' = pick keep (video_codecs s) /\
       video_profiles o' = pick keep (video_profiles s) /\
       video_names o' = pick keep (video_names s) /\
       video_presets o' = pick keep (video_presets s)) /\
  too_large 1920 1080 3840 = Ok true /\
  too_large 1920 1080 2000 = Ok false /\
  too_large 1920 1080 2112 = Ok false /\
  too_large 1920 1080 2113 = Ok true.
Proof.
  split; [|repeat split; vm_compute; reflexivity].
  intros technical o o' W H Hrun HW HH.
  destruct (reaches_pruning _ _ _ Hrun)
    as (s & keep & B & Hk & Ew & Eb & Ec & Ep & En & Eq).
  apply (decided_oversized _ _ _ HW HH) in Hk. fold W H in Hk. subst keep.
  exists s. split; [exact B|]. split; [now apply before_pruning_spec|].
  cbv zeta. split; [|now repeat split].
  rewrite Ew. apply pick_map_filter.
Qed.

(** A request for the widths 3840, 2000 and 2112. *)
Definition oversized_request : Options :=
  set_video_widths [3840; 2000; 2112] default_options.

Lemma oversized_renditions_are_pruned_witness :
  video_widths (snd (fix_options source_1080p oversized_request)) = [2000; 2112] /\
  video_bitrates (snd (fix_options source_1080p oversized_request)) = [6500; 4500] /\
  video_names (snd (fix_options source_1080p oversized_request)) = ["1125p"; "1188p"]%string.
Proof.
  destruct (proj1 oversized_renditions_are_pruned source_1080p oversized_request
              (snd (fix_options source_1080p oversized_request)))
    as (s & B & _ & Hw & _ & Hb & _ & _ & Hn & _);
    [vm_compute; reflexivity|cbn; lia|cbn; lia|].
  assert (Es : s = snd (before_pruning oversized_request)) by now rewrite B.
  subst s.
  split; [rewrite Hw|split; [rewrite Hb|rewrite Hn]]; vm_compute; reflexivity.
Defined.


(** ** The geometry fitter: aspect ratio *)

Module AspectFacts.

Import Float FloatFacts FloatError GeometryFacts PruneFacts.
Local Open Scope Q_scope.

Lemma Qmult_le_l_weak (x y z : Q) : 0 <= z -> x <= y -> z * x <= z * y.
Proof.
  intros Hz Hxy. rewrite !(Qmult_comm z). now apply Qmult_le_compat_r.
Qed.

Lemma trunc_floor (q : Q) : 0 <= q -> trunc q = Qfloor q.
Proof. intros H. unfold trunc. apply Qle_bool_iff in H. now rewrite H. Qed.

(** The float quotient [w / h] against the exact one, cross-multiplied. *)
Lemma ratio_error (w h : Z) : (0 < w)%Z -> (0 < h)%Z ->
  let r := int_truediv w h in
  inject_Z w * (1 - u) <= r * inject_Z h /\ r * inject_Z h <= inject_Z w * (1 + u).
Proof.
  intros Hw Hh r.
  pose proof (inject_Z_pos w Hw) as Wq. pose proof (inject_Z_pos h Hh) as Hq.
  assert (A0 : 0 < inject_Z w / inject_Z h).
  { apply Qlt_shift_div_l; [exact Hq|]. now rewrite Qmult_0_l. }
  destruct (fl_error _ A0) as [E1 E2]. fold (int_truediv w h) in E1, E2. fold r in E1, E2.
  assert (E : inject_Z w / inject_Z h * inject_Z h == inject_Z w).
  { field. intros C. rewrite C in Hq. discriminate Hq. }
  apply (Qmult_le_compat_r _ _ (inject_Z h)) in E1; [|now apply Qlt_le_weak].
  apply (Qmult_le_compat_r _ _ (inject_Z h)) in E2; [|now apply Qlt_le_weak].
  assert (F1 : (inject_Z w / inject_Z h - inject_Z w / inject_Z h * u) * inject_Z h
               == inject_Z w * (1 - u)) by (rewrite <- E at 3; ring).
  assert (F2 : (inject_Z w / inject_Z h + inject_Z w / inject_Z h * u) * inject_Z h
               == inject_Z w * (1 + u)) by (rewrite <- E at 3; ring).
  rewrite F1 in E1. rewrite F2 in E2. now split.
Qed.


(** A number whose product with [d] is within [4 u] of the integer [N], once
    floored, is the exact quotient [N / d] or one less. *)
Lemma floor_near_quotient (y : Q) (d N : Z) :
  (0 < d)%Z -> (0 <= N < 2 ^ 48)%Z ->
  inject_Z N * (1 - 4 * u) <= y * inject_Z d ->
  y * inject_Z d <= inject_Z N * (1 + 4 * u) ->
  (Qfloor y * d <= N /\ N < (Qfloor y + 2) * d)%Z.
Proof.
  intros Hd [N0 N1] L U.
  pose proof (Qfloor_le y) as F1. pose proof (Qlt_floor y) as F2.
  rewrite inject_Z_plus in F2. change (inject_Z 1) with 1 in F2.
  pose proof (inject_Z_pos d Hd) as Dq.
  pose proof (inject_Z_le _ _ N0) as Nq0. change (inject_Z 0) with 0 in Nq0.
  pose proof (inject_Z_lt _ _ N1) as Nq1.
  change (inject_Z (2 ^ 48)) with 281474976710656 in Nq1.
  assert (G1 : inject_Z (Qfloor y) * inject_Z d <= y * inject_Z d)
    by (apply Qmult_le_compat_r; [exact F1|now apply Qlt_le_weak]).
  assert (G2 : y * inject_Z d < (inject_Z (Qfloor y) + 1) * inject_Z d)
    by (apply Qmult_lt_compat_r; assumption).
  rewrite <- inject_Z_mult in G1.
  assert (G2' : y * inject_Z d < inject_Z (Qfloor y * d) + inject_Z d)
    by (rewrite inject_Z_mult; lra).
  unfold u in *.
  split.
  - assert (K : inject_Z (Qfloor y * d) < inject_Z (N + 1)).
    { rewrite inject_Z_plus. change (inject_Z 1) with 1. lra. }
    rewrite <- Zlt_Qlt in K. lia.
  - assert (K : inject_Z N < inject_Z (Qfloor y * d + d + 1)).
    { rewrite !inject_Z_plus. change (inject_Z 1) with 1. lra. }
    rewrite <- Zlt_Qlt in K. lia.
Qed.

(** When the height is derived from the width [W] of the box. *)
Lemma derived_height (w h W : Z) :
  (0 < w < 2 ^ 24)%Z -> (0 < h < 2 ^ 24)%Z -> (0 < W < 2 ^ 24)%Z ->
  let h0 := trunc (fl (inject_Z W / int_truediv w h)) in
  (h0 * w <= W * h /\ W * h < (h0 + 2) * w)%Z.
Proof.
  intros Hw Hh HW h0.
  destruct (ratio_error w h) as [R1 R2]; try lia. cbv zeta in R1, R2.
  pose proof (ratio_pos w h ltac:(lia) ltac:(lia)) as Rp.
  set (r := int_truediv w h) in *.
  pose proof (inject_Z_pos w ltac:(lia)) as wq.
  pose proof (inject_Z_pos h ltac:(lia)) as hq.
  pose proof (inject_Z_pos W ltac:(lia)) as Wq.
  assert (X0 : 0 < inject_Z W / r).
  { apply Qlt_shift_div_l; [exact Rp|]. now rewrite Qmult_0_l. }
  assert (X : inject_Z W / r * r == inject_Z W).
  { field. intros C. rewrite C in Rp. discriminate Rp. }
  destruct (fl_error _ X0) as [Y1 Y2].
  set (x := inject_Z W / r) in *. set (y := fl x) in *.
  assert (Y0 : 0 <= y) by (apply Qlt_le_weak, fl_pos, X0).
  unfold h0. rewrite (trunc_floor y Y0).
  replace (W * h)%Z with (W * h)%Z by reflexivity.
  assert (U0 : 0 < 1 - u) by (unfold u; lra).
  assert (U1 : 0 < 1 + u) by (unfold u; lra).
  apply floor_near_quotient; [lia|nia| |].
  - (* lower bound *)
    assert (S1 : x * (1 - u) * (inject_Z w * (1 + u)) <= y * (inject_Z w * (1 + u))).
    { apply Qmult_le_compat_r; [lra|]. apply Qlt_le_weak.
      apply Qmult_lt_0_compat; assumption. }
    assert (S2 : x * (1 - u) * (r * inject_Z h) <= x * (1 - u) * (inject_Z w * (1 + u))).
    { apply Qmult_le_l; [|exact R2]. apply Qmult_lt_0_compat; assumption. }
    assert (S3 : x * (1 - u) * (r * inject_Z h) == inject_Z W * inject_Z h * (1 - u)).
    { rewrite <- X. ring. }
    rewrite S3 in S2. rewrite inject_Z_mult.
    set (P := y * inject_Z w) in *. set (N := inject_Z W * inject_Z h) in *.
    assert (N0 : 0 <= N) by (unfold N; apply Qlt_le_weak, Qmult_lt_0_compat; assumption).
    assert (S4 : N * (1 - u) <= P * (1 + u)) by (unfold P; lra).
    unfold u in *. lra.
  - (* upper bound *)
    assert (S1 : y * (inject_Z w * (1 - u)) <= x * (1 + u) * (inject_Z w * (1 - u))).
    { apply Qmult_le_compat_r; [lra|]. apply Qlt_le_weak.
      apply Qmult_lt_0_compat; assumption. }
    assert (S2 : x * (1 + u) * (inject_Z w * (1 - u)) <= x * (1 + u) * (r * inject_Z h)).
    { apply Qmult_le_l; [|exact R1]. apply Qmult_lt_0_compat; assumption. }
    assert (S3 : x * (1 + u) * (r * inject_Z h) == inject_Z W * inject_Z h * (1 + u)).
    { rewrite <- X. ring. }
    rewrite S3 in S2. rewrite inject_Z_mult.
    set (P := y * inject_Z w) in *. set (N := inject_Z W * inject_Z h) in *.
    assert (N0 : 0 <= N) by (unfold N; apply Qlt_le_weak, Qmult_lt_0_compat; assumption).
    assert (S4 : P * (1 - u) <= N * (1 + u)) by (unfold P; lra).
    unfold u in *. lra.
Qed.

(** When the width is derived from the height [H] of the box. *)
Lemma derived_width (w h H : Z) :
  (0 < w < 2 ^ 24)%Z -> (0 < h < 2 ^ 24)%Z -> (0 < H < 2 ^ 24)%Z ->
  let w0 := trunc (fl (inject_Z H * int_truediv w h)) in
  (w0 * h <= H * w /\ H * w < (w0 + 2) * h)%Z.
Proof.
  intros Hw Hh HH w0.
  destruct (ratio_error w h) as [R1 R2]; try lia. cbv zeta in R1, R2.
  pose proof (ratio_pos w h ltac:(lia) ltac:(lia)) as Rp.
  set (r := int_truediv w h) in *.
  pose proof (inject_Z_pos w ltac:(lia)) as wq.
  pose proof (inject_Z_pos h ltac:(lia)) as hq.
  pose proof (inject_Z_pos H ltac:(lia)) as Hq.
  assert (X0 : 0 < inject_Z H * r) by (apply Qmult_lt_0_compat; assumption).
  destruct (fl_error _ X0) as [Y1 Y2].
  set (y := fl (inject_Z H * r)) in *.
  assert (Y0 : 0 <= y) by (apply Qlt_le_weak, fl_pos, X0).
  unfold w0. rewrite (trunc_floor y Y0).
  assert (U0 : 0 < 1 - u) by (unfold u; lra).
  assert (U1 : 0 < 1 + u) by (unfold u; lra).
  assert (T1 : inject_Z H * (inject_Z w * (1 - u)) <= inject_Z H * (r * inject_Z h))
    by (apply Qmult_le_l; assumption).
  assert (T2 : inject_Z H * (r * inject_Z h) <= inject_Z H * (inject_Z w * (1 + u)))
    by (apply Qmult_le_l; assumption).
  assert (V1 : (inject_Z H * r - inject_Z H * r * u) * inject_Z h <= y * inject_Z h)
    by (apply Qmult_le_compat_r; [exact Y1|now apply Qlt_le_weak]).
  assert (V2 : y * inject_Z h <= (inject_Z H * r + inject_Z H * r * u) * inject_Z h)
    by (apply Qmult_le_compat_r; [exact Y2|now apply Qlt_le_weak]).
  assert (E1 : (inject_Z H * r - inject_Z H * r * u) * inject_Z h
               == inject_Z H * (r * inject_Z h) * (1 - u)) by ring.
  assert (E2 : (inject_Z H * r + inject_Z H * r * u) * inject_Z h
               == inject_Z H * (r * inject_Z h) * (1 + u)) by ring.
  rewrite E1 in V1. rewrite E2 in V2.
  set (Q1 := inject_Z H * (r * inject_Z h)) in *.
  set (P := y * inject_Z h) in *.
  assert (N0 : 0 <= inject_Z H * inject_Z w)
    by (apply Qlt_le_weak, Qmult_lt_0_compat; assumption).
  assert (T1' : inject_Z H * inject_Z w * (1 - u) <= Q1) by lra.
  assert (T2' : Q1 <= inject_Z H * inject_Z w * (1 + u)) by lra.
  set (N := inject_Z H * inject_Z w) in *.
  assert (W1 : N * (1 - u) * (1 - u) <= Q1 * (1 - u))
    by (apply Qmult_le_compat_r; [exact T1'|lra]).
  assert (W2 : Q1 * (1 + u) <= N * (1 + u) * (1 + u))
    by (apply Qmult_le_compat_r; [exact T2'|lra]).
  apply floor_near_quotient; [lia|nia| |]; rewrite inject_Z_mult; fold N P.
  - assert (C : N * (1 - 4 * u) <= N * (1 - u) * (1 - u)).
    { rewrite <- Qmult_assoc. apply Qmult_le_l_weak; [exact N0|]. unfold u. lra. }
    lra.
  - assert (C : N * (1 + u) * (1 + u) <= N * (1 + 4 * u)).
    { rewrite <- Qmult_assoc. apply Qmult_le_l_weak; [exact N0|]. unfold u. lra. }
    lra.
Qed.

End AspectFacts.


Import Float FloatFacts FloatError GeometryFacts AspectFacts.

(** The two cases of the fitter on positive sizes. *)
Lemma contained_in_cases (w h W H : Z) :
  0 < w -> 0 < h -> 0 < W < 2 ^ 53 -> 0 < H < 2 ^ 53 ->
  let r := int_truediv w h in
  contained_in (w, h) (W, H) =
  Ok (if Qlt_le_dec (inject_Z H) (fl (inject_Z W / r))
      then (trunc (fl (inject_Z H * r)) / 2 * 2, H / 2 * 2)
      else (W / 2 * 2, trunc (fl (inject_Z W / r)) / 2 * 2)).
Proof.
  intros Hw Hh HW HH r. unfold contained_in. cbn [fst snd].
  destruct (Z.eqb_spec h 0) as [E|_]; [lia|].
  pose proof (ratio_pos w h Hw Hh) as Hr. fold r in Hr |- *.
  destruct (Qeq_bool r 0) eqn:E0.
  { apply Qeq_bool_eq in E0. rewrite E0 in Hr. discriminate Hr. }
  assert (PW : (Z.abs W < 2 ^ prec)%Z) by (unfold prec; lia).
  assert (PH : (Z.abs H < 2 ^ prec)%Z) by (unfold prec; lia).
  rewrite (div_of_int W r PW), (mul_of_int H r PH).
  now destruct (Qlt_le_dec (inject_Z H) (fl (inject_Z W / r))).
Qed.

(** X19: for positive source and box sizes (below [2^24] pixels) the fitted
    rectangle lies in the box and its sides are even; one side is the side
    of the box rounded down to even, and the other is at most the side the
    source ratio gives for it and less than three pixels below. *)
Theorem contained_in_fits (w h W H : Z) :
  0 < w < 2 ^ 24 -> 0 < h < 2 ^ 24 -> 0 < W < 2 ^ 24 -> 0 < H < 2 ^ 24 ->
  exists w' h',
    contained_in (w, h) (W, H) = Ok (w', h') /\
    0 <= w' <= W /\ 0 <= h' <= H /\
    Z.even w' = true /\ Z.even h' = true /\
    ((w' = W / 2 * 2 /\ h' * w <= W * h < (h' + 3) * w) \/
     (h' = H / 2 * 2 /\ w' * h <= H * w < (w' + 3) * h)).
Proof.
  intros Hw Hh HW HH.
  destruct (contained_in_in_box w h W H) as (w' & h' & E & Bw & Bh & Ew & Eh); try lia.
  exists w', h'. repeat (split; [assumption|]).
  rewrite contained_in_cases in E by lia. cbv zeta in E.
  destruct (Qlt_le_dec (inject_Z H) (fl (inject_Z W / int_truediv w h))) as [L|L];
    inversion E as [[E1 E2]]; clear E.
  - right. split; [reflexivity|].
    destruct (derived_width w h H Hw Hh HH) as [D1 D2]. cbv zeta in D1, D2.
    set (w0 := trunc (fl (inject_Z H * int_truediv w h))) in *.
    pose proof (Z.mul_div_le w0 2 ltac:(lia)).
    pose proof (Z.mul_succ_div_gt w0 2 ltac:(lia)). nia.
  - left. split; [reflexivity|].
    destruct (derived_height w h W Hw Hh HW) as [D1 D2]. cbv zeta in D1, D2.
    set (h0 := trunc (fl (inject_Z W / int_truediv w h))) in *.
    pose proof (Z.mul_div_le h0 2 ltac:(lia)).
    pose proof (Z.mul_succ_div_gt h0 2 ltac:(lia)). nia.
Qed.

Lemma contained_in_fits_witness :
  exists w' h',
    contained_in (1920, 1080) (1280, 720) = Ok (w', h') /\
    0 <= w' <= 1280 /\ 0 <= h' <= 720 /\
    Z.even w' = true /\ Z.even h' = true /\
    ((w' = 1280 / 2 * 2 /\ h' * 1920 <= 1280 * 1080 < (h' + 3) * 1920) \/
     (h' = 720 / 2 * 2 /\ w' * 1080 <= 720 * 1920 < (w' + 3) * 1080)).
Proof. apply contained_in_fits; lia. Defined.

(** C4 fails in the code: the source 640x476 fits the box 640x480 as it is,
    with both sides even and its exact aspect ratio, but the fitter returns
    640x474.  The quotient [640 / 476] is rounded to a float a little above
    the ratio, so [640 / ratio] is the float just below 476, which [int]
    truncates to 475 and the rounding to even brings to 474: the area is not
    the largest that fits, and the ratio is not the one of the source up to
    the rounding to even. *)
Theorem exact_fit_is_missed :
  contained_in (640, 476) (640, 480) = Ok (640, 474) /\
  (Float.div (Float.of_int 640) (Float.int_truediv 640 476) < inject_Z 476)%Q /\
  Float.trunc (Float.div (Float.of_int 640) (Float.int_truediv 640 476)) = 475 /\
  640 <= 640 /\ 476 <= 480 /\ Z.even 640 = true /\ Z.even 476 = true /\
  640 * 474 < 640 * 476.
Proof.
  split; [vm_compute; reflexivity|].
  split; [vm_compute; reflexivity|].
  split; [vm_compute; reflexivity|].
  repeat split; try reflexivity; lia.
Qed.

(** ** The default poster and MP4 widths *)

Local Open Scope Z_scope.

(** The widths of the plan that do not exceed [limit]. *)
Definition qualifying (limit : Z) (o : Options) : list Z :=
  filter (fun w => w <=? limit) (video_widths o).

(** A request for two renditions of which a single one fits the default
    maxima of 1280 pixels. *)
Definition one_candidate_request : Options :=
  set_video_widths [1920; 1280] default_options.

(** C1: when no poster width (no MP4 width) was given and exactly one width
    of the normalized plan does not exceed the poster (MP4) maximum, the
    derived width is the width of the source, not that width: [max] is
    called on the unpacked candidates, and with a single one it raises the
    [TypeError] that the fallback catches. *)
Theorem lone_candidate_is_ignored (technical : Technical) (o o' : Options) :
  fix_options technical o = (Ok tt, o') ->
  (forall w, falsy_int (poster_width o) = true ->
             qualifying (poster_max_width o) o' = [w] ->
             poster_width o' = Some (width (video technical))) /\
  (forall w, falsy_int (mp4_width o) = true ->
             qualifying (mp4_max_width o) o' = [w] ->
             mp4_width o' = Some (width (video technical))).
Proof.
  intros H. apply fix_options_spec in H. cbv zeta in H.
  destruct H as (bitrates & codecs & profiles & presets & extra & keep & rs & r & H).
  decompose [and] H. clear H.
  split; intros w F Q; unfold qualifying in Q.
  - match goal with E : poster_width o' = _ |- _ => rewrite E end.
    rewrite F. unfold default_width. now rewrite Q.
  - match goal with E : mp4_width o' = _ |- _ => rewrite E end.
    rewrite F. unfold default_width. now rewrite Q.
Qed.

Lemma lone_candidate_is_ignored_witness :
  video_widths (snd (fix_options source_1080p one_candidate_request)) = [1920; 1280] /\
  poster_width (snd (fix_options source_1080p one_candidate_request)) = Some 1920 /\
  mp4_width (snd (fix_options source_1080p one_candidate_request)) = Some 1920.
Proof.
  split; [vm_compute; reflexivity|].
  destruct (lone_candidate_is_ignored source_1080p one_candidate_request
              (snd (fix_options source_1080p one_candidate_request)))
    as [P M]; [vm_compute; reflexivity|].
  split; [apply (P 1280)|apply (M 1280)]; vm_compute; reflexivity.
Defined.

(** ** Decoding the AVC1 codec identifier *)

Local Open Scope string_scope.

(** The value a line gives to the attribute [name], if it gives one. *)
Definition attribute_of (name line : string) : option Z :=
  match attribute_re line with
  | Some (attribute, value) =>
      if String.eqb attribute name then Some (int_of_digits value) else None
  | None => None
  end.

(** The value the lines of a scope give to [name]: the last one counts. *)
Definition scope_value_from (name : string) (acc : option Z) (scope : list string)
  : option Z :=
  fold_left (fun acc line =>
    match attribute_of name line with
    | Some v => Some v
    | None => acc
    end) scope acc.

Definition scope_value (name : string) (scope : list string) : option Z :=
  scope_value_from name None scope.

(** [rest] does not continue the scope opened by [header]. *)
Definition ends_scope (header : string) (rest : list string) : Prop :=
  match rest with
  | [] => True
  | line :: _ => startswith line (deeper_than header) = false
  end.

(** The number of spaces a line of the dump starts with. *)
Definition indentation (line : string) : nat :=
  String.length (fst (span (fun c => Ascii.eqb c " ") line)).

(** [line] is indented strictly deeper than [header]. *)
Definition indented_deeper (header line : string) : Prop :=
  (indentation header < indentation line)%nat.

(** The lines of a dump around its first avcC atom: the lines [before] it,
    its [header], the lines of its [scope], which are the lines that follow
    the header up to the first one that is not indented deeper, and the
    [rest]. *)
Record first_avcC_atom (before : list string) (header : string)
    (scope rest : list string) : Prop := {
  first_none_before : Forall (fun line => contains avcC_marker line = false) before;
  first_header_marked : contains avcC_marker header = true;
  first_scope_deeper : Forall (indented_deeper header) scope;
  first_scope_ended :
    match rest with
    | [] => True
    | line :: _ => ~ indented_deeper header line
    end
}.

(** The sixteen lowercase hexadecimal digits. *)
Definition hex_digit (d : Z) : ascii :=
  nth (Z.to_nat d) (list_ascii_of_string "0123456789abcdef") "0"%char.

(** A byte as two lowercase hexadecimal digits. *)
Definition two_hex_digits (n : Z) : string :=
  String (hex_digit (n / 16)) (String (hex_digit (n mod 16)) EmptyString).

Module CodecFacts.

Lemma scan_avcC_scope (header : string) (scope rest : list string) :
  Forall (fun line => startswith line (deeper_than header) = true) scope ->
  ends_scope header rest ->
  forall f,
    scan_avcC (deeper_than header) (scope ++ rest) f =
    {| profile := scope_value_from "AVCProfileIndication" (profile f) scope;
       constraints := scope_value_from "profile_compatibility" (constraints f) scope;
       level := scope_value_from "AVCLevelIndication" (level f) scope |}.
Proof.
  intros Hs Hr. induction Hs as [|line scope Hl _ IH]; intros f.
  - cbn [app scope_value_from fold_left].
    destruct rest as [|line rest]; [now destruct f|].
    cbn in Hr. cbn [scan_avcC]. rewrite Hr. cbn [negb]. now destruct f.
  - cbn [app scan_avcC]. rewrite Hl. cbn [negb].
    unfold scope_value_from. cbn [fold_left]. fold (scope_value_from "AVCProfileIndication").
    fold (scope_value_from "profile_compatibility").
    fold (scope_value_from "AVCLevelIndication").
    unfold attribute_of.
    destruct (attribute_re line) as [[attribute value]|]; [|apply IH].
    destruct (String.eqb_spec attribute "AVCProfileIndication") as [->|_];
      [rewrite IH; reflexivity|].
    destruct (String.eqb_spec attribute "profile_compatibility") as [->|_];
      [rewrite IH; reflexivity|].
    destruct (String.eqb_spec attribute "AVCLevelIndication") as [->|_];
      [rewrite IH; reflexivity|].
    apply IH.
Qed.

Lemma decode_avc1_no_atom (lines : list string) :
  Forall (fun line => contains avcC_marker line = false) lines ->
  decode_avc1 lines = Ok [].
Proof.
  induction 1 as [|line lines Hl _ IH]; [reflexivity|].
  cbn [decode_avc1]. now rewrite Hl.
Qed.

Lemma decode_avc1_skip (before lines : list string) :
  Forall (fun line => contains avcC_marker line = false) before ->
  decode_avc1 (before ++ lines) = decode_avc1 lines.
Proof.
  induction 1 as [|line before Hl _ IH]; [reflexivity|].
  cbn [app decode_avc1]. now rewrite Hl.
Qed.

End CodecFacts.

Import CodecFacts.

Module ScopeFacts.

Lemma leading_spaces_indentation (line : string) :
  leading_spaces line = indentation line.
Proof.
  unfold indentation. induction line as [|c line IH]; [reflexivity|].
  cbn [leading_spaces span].
  destruct (Ascii.eqb_spec c " ") as [->|N].
  - rewrite IH. now destruct (span _ line).
  - destruct c as [[] [] [] [] [] [] [] []]; try reflexivity. now contradiction N.
Qed.

Lemma startswith_spaces (n : nat) (line : string) :
  startswith line (spaces n) = true <-> (n <= leading_spaces line)%nat.
Proof.
  unfold startswith. revert line. induction n as [|n IH]; intros line.
  - cbn. split; [lia|reflexivity].
  - destruct line as [|c line]; cbn [spaces strip_prefix leading_spaces].
    + split; [discriminate|lia].
    + destruct (Ascii.eqb_spec " " c) as [<-|N].
      * rewrite IH. lia.
      * split; [discriminate|].
        destruct c as [[] [] [] [] [] [] [] []]; try lia. now contradiction N.
Qed.

(** The test of the scan, [line.startswith(spaces)], is the comparison of
    the indentations. *)
Lemma deeper_than_indented (header line : string) :
  startswith line (deeper_than header) = true <-> indented_deeper header line.
Proof.
  unfold deeper_than, indented_deeper.
  rewrite startswith_spaces, !leading_spaces_indentation. lia.
Qed.

Lemma scope_starts_deeper (header : string) (scope : list string) :
  Forall (indented_deeper header) scope ->
  Forall (fun line => startswith line (deeper_than header) = true) scope.
Proof.
  intros H. eapply Forall_impl; [|exact H]. intros line. apply deeper_than_indented.
Qed.

Lemma rest_ends_scope (header : string) (rest : list string) :
  match rest with
  | [] => True
  | line :: _ => ~ indented_deeper header line
  end -> ends_scope header rest.
Proof.
  destruct rest as [|line rest]; [trivial|]. cbn. intros N.
  destruct (startswith line (deeper_than header)) eqn:E; [|reflexivity].
  now apply deeper_than_indented in E.
Qed.

(** The avc1 branch at the first avcC atom of the dump. *)
Lemma decode_avc1_first_atom (before : list string) (header : string)
    (scope rest : list string) :
  first_avcC_atom before header scope rest ->
  decode_avc1 (before ++ header :: scope ++ rest) =
  match scope_value "AVCProfileIndication" scope,
        scope_value "profile_compatibility" scope,
        scope_value "AVCLevelIndication" scope with
  | Some p, Some c, Some l =>
      rbind (decode_avc1 (scope ++ rest))
            (fun ids => Ok (avc1_identifier p c l :: ids))
  | _, _, _ => Raise (RuntimeError "unable to decode AVC1 codec")
  end.
Proof.
  intros [Hb Hh Hs He].
  rewrite decode_avc1_skip by assumption.
  cbn [decode_avc1]. rewrite Hh.
  rewrite scan_avcC_scope
    by (apply scope_starts_deeper || apply rest_ends_scope; assumption).
  cbn [profile constraints level].
  fold (scope_value "AVCProfileIndication" scope).
  fold (scope_value "profile_compatibility" scope).
  fold (scope_value "AVCLevelIndication" scope).
  destruct (scope_value "AVCProfileIndication" scope);
    destruct (scope_value "profile_compatibility" scope);
    destruct (scope_value "AVCLevelIndication" scope); reflexivity.
Qed.

(** The format [02x] prints a byte as two hexadecimal digits. *)
Lemma hex02_byte (n : Z) : 0 <= n < 256 -> hex02 n = two_hex_digits n.
Proof.
  intros H.
  assert (A : forallb (fun k => String.eqb (hex02 (Z.of_nat k))
                                  (two_hex_digits (Z.of_nat k)))
                      (seq 0 256) = true) by (vm_compute; reflexivity).
  rewrite forallb_forall in A.
  specialize (A (Z.to_nat n)). rewrite Z2Nat.id in A by lia.
  apply String.eqb_eq, A, in_seq. lia.
Qed.

End ScopeFacts.

(** C7, as the code has it: on a dump that has an avc1 sample description,
    take the first avcC atom, and as its scope the lines that follow its
    header and are indented strictly deeper, up to the first line that is
    not.  When the scope gives the profile indication [p], the profile
    compatibility [c] and the level indication [l] (the last value of each
    counts), the identifier of the atom is ["avc1."] followed by [p], [c]
    and [l] printed with the format [02x], which for values below 256 is
    two lowercase hexadecimal digits each, so ["avc1.64001f"] for 100, 0
    and 31; and when the later avcC atoms and the mp4a description, if
    there is one, decode as well, the decoder returns the identifiers joined
    by commas, those of avc1 before or after those of mp4a.  When one of
    the three is not found in the scope, the decoder raises [RuntimeError]
    with the message ["unable to decode AVC1 codec"], unless mp4a is decoded
    first and fails. *)
Theorem avc1_identifier_from_scope (env : Mp4file) (sample dump : string)
    (before : list string) (header : string) (scope rest : list string) :
  let lines := split "010" dump in
  let audio := if has_codec "mp4a" lines then decode_mp4a lines else Ok [] in
  run_dump env sample = Ok dump ->
  lines = (before ++ header :: scope ++ rest)%list ->
  has_codec "avc1" lines = true ->
  first_avcC_atom before header scope rest ->
  (forall p c l others ma,
     scope_value "AVCProfileIndication" scope = Some p ->
     scope_value "profile_compatibility" scope = Some c ->
     scope_value "AVCLevelIndication" scope = Some l ->
     decode_avc1 (scope ++ rest) = Ok others ->
     audio = Ok ma ->
     let identifier := "avc1." ++ hex02 p ++ hex02 c ++ hex02 l in
     extract_codecs env sample =
       Ok (join "," (if avc1_first env then (identifier :: others) ++ ma
                     else ma ++ identifier :: others)%list) /\
     (0 <= p < 256 -> 0 <= c < 256 -> 0 <= l < 256 ->
      identifier =
        "avc1." ++ two_hex_digits p ++ two_hex_digits c ++ two_hex_digits l)) /\
  (scope_value "AVCProfileIndication" scope = None \/
   scope_value "profile_compatibility" scope = None \/
   scope_value "AVCLevelIndication" scope = None ->
   avc1_first env = true \/ (exists ma, audio = Ok ma) ->
   extract_codecs env sample = Raise (RuntimeError "unable to decode AVC1 codec")) /\
  "avc1." ++ two_hex_digits 100 ++ two_hex_digits 0 ++ two_hex_digits 31
  = "avc1.64001f".
Proof.
  intros lines audio Hrun Hsplit Ha L.
  assert (D : extract_codecs env sample =
              rbind (if avc1_first env
                     then rbind (decode_avc1 lines)
                            (fun a => rbind audio (fun b => Ok (a ++ b)%list))
                     else rbind audio
                            (fun b => rbind (decode_avc1 lines)
                                        (fun a => Ok (b ++ a)%list)))
                    (fun results => Ok (join "," results))).
  { unfold extract_codecs. rewrite Hrun. cbn [rbind]. unfold decode_dump.
    fold lines. rewrite Ha. reflexivity. }
  rewrite D, Hsplit, (ScopeFacts.decode_avc1_first_atom _ _ _ _ L).
  split; [|split].
  - intros p c l others ma -> -> -> -> ->. cbv zeta. split.
    + destruct (avc1_first env); reflexivity.
    + intros Hp Hc Hl. now rewrite !ScopeFacts.hex02_byte by assumption.
  - intros Missing Order.
    assert (E : match scope_value "AVCProfileIndication" scope,
                      scope_value "profile_compatibility" scope,
                      scope_value "AVCLevelIndication" scope with
                | Some p, Some c, Some l =>
                    rbind (decode_avc1 (scope ++ rest))
                          (fun ids => Ok (avc1_identifier p c l :: ids))
                | _, _, _ => Raise (RuntimeError "unable to decode AVC1 codec")
                end = Raise (RuntimeError "unable to decode AVC1 codec")).
    { destruct Missing as [E|[E|E]]; rewrite E;
        repeat match goal with |- context [match ?x with _ => _ end] => destruct x end;
        reflexivity. }
    rewrite E.
    destruct Order as [-> | [ma ->]]; [reflexivity|].
    destruct (avc1_first env); reflexivity.
  - vm_compute. reflexivity.
Qed.

(** The dump of a file with one H.264 track: High profile, level 3.1. *)
Definition high_profile_dump : string :=
  join nl [
    "  f.mp4: type stsd (moov.trak.mdia.minf.stbl.stsd)";
    "   f.mp4: entryCount = 1 (0x00000001)";
    "   f.mp4: type avc1 (moov.trak.mdia.minf.stbl.stsd.avc1)";
    "    f.mp4: width = 1280 (0x0500)";
    "    f.mp4: type avcC (moov.trak.mdia.minf.stbl.stsd.avc1.avcC)";
    "     f.mp4: configurationVersion = 1 (0x01)";
    "     f.mp4: AVCProfileIndication = 100 (0x64)";
    "     f.mp4: profile_compatibility = 0 (0x00)";
    "     f.mp4: AVCLevelIndication = 31 (0x1f)";
    "  f.mp4: type stts (moov.trak.mdia.minf.stbl.stts)"
  ].

Definition dumps (dump : string) : Mp4file :=
  {| run_dump := fun _ => Ok dump; avc1_first := true |}.

(** The dump of a file with an H.264 track (High profile, level 3.1) and an
    AAC track. *)
Definition two_track_dump : string :=
  join nl [
    "  f.mp4: type stsd (moov.trak.mdia.minf.stbl.stsd)";
    "   f.mp4: type avc1 (moov.trak.mdia.minf.stbl.stsd.avc1)";
    "    f.mp4: type avcC (moov.trak.mdia.minf.stbl.stsd.avc1.avcC)";
    "     f.mp4: AVCProfileIndication = 100 (0x64)";
    "     f.mp4: profile_compatibility = 0 (0x00)";
    "     f.mp4: AVCLevelIndication = 31 (0x1f)";
    "  f.mp4: type stsd (moov.trak.mdia.minf.stbl.stsd)";
    "   f.mp4: type mp4a (moov.trak.mdia.minf.stbl.stsd.mp4a)";
    "    f.mp4: type esds (moov.trak.mdia.minf.stbl.stsd.mp4a.esds)";
    "     f.mp4: objectTypeId = 64 (0x40)";
    "     f.mp4: decSpecificInfo";
    "      f.mp4: info = <2 bytes>  12 10  |..|"
  ].

Lemma avc1_identifier_from_scope_witness :
  extract_codecs (dumps two_track_dump) "f.mp4" = Ok "avc1.64001f,mp4a.40.2".
Proof.
  refine (proj1 (proj1 (avc1_identifier_from_scope (dumps two_track_dump) "f.mp4"
           two_track_dump
           (firstn 2 (split "010" two_track_dump))
           (nth 2 (split "010" two_track_dump) "")
           (firstn 3 (skipn 3 (split "010" two_track_dump)))
           (skipn 6 (split "010" two_track_dump))
           eq_refl _ _ _) 100 0 31 [] ["mp4a.40.2"] _ _ _ _ _));
    try (vm_compute; reflexivity).
  constructor; try (vm_compute; reflexivity).
  - repeat constructor.
  - repeat constructor.
  - vm_compute. lia.
Defined.

(** The same video track beside an audio track whose esds atom gives no
    object type. *)
Definition broken_audio_dump : string :=
  join nl [
    "  f.mp4: type stsd (moov.trak.mdia.minf.stbl.stsd)";
    "   f.mp4: type avc1 (moov.trak.mdia.minf.stbl.stsd.avc1)";
    "    f.mp4: type avcC (moov.trak.mdia.minf.stbl.stsd.avc1.avcC)";
    "     f.mp4: AVCProfileIndication = 100 (0x64)";
    "     f.mp4: profile_compatibility = 0 (0x00)";
    "     f.mp4: AVCLevelIndication = 31 (0x1f)";
    "  f.mp4: type stsd (moov.trak.mdia.minf.stbl.stsd)";
    "   f.mp4: type mp4a (moov.trak.mdia.minf.stbl.stsd.mp4a)";
    "    f.mp4: type esds (moov.trak.mdia.minf.stbl.stsd.mp4a.esds)";
    "     f.mp4: decSpecificInfo";
    "      f.mp4: info = <2 bytes>  12 10  |..|"
  ].

(** A dump whose avcC atom gives a profile indication of 300. *)
Definition wide_profile_dump : string :=
  join nl [
    "   f.mp4: type avc1 (moov.trak.mdia.minf.stbl.stsd.avc1)";
    "    f.mp4: type avcC (moov.trak.mdia.minf.stbl.stsd.avc1.avcC)";
    "     f.mp4: AVCProfileIndication = 300 (0x12c)";
    "     f.mp4: profile_compatibility = 0 (0x00)";
    "     f.mp4: AVCLevelIndication = 31 (0x1f)"
  ].

(** C7 fails as stated.  In [broken_audio_dump] the avc1 sample description
    is present and the scope of the avcC atom holds the three attributes
    100, 0 and 31, yet the decoder produces no identifier: it raises
    [RuntimeError] with the message ["unable to decode MP4A codec"],
    whichever codec it visits first.  And in [wide_profile_dump] the profile
    indication 300 is printed with three digits. *)
Lemma audio_failure_hides_identifier :
  let lines := split "010" broken_audio_dump in
  let scope := firstn 3 (skipn 3 lines) in
  has_codec "avc1" lines = true /\
  first_avcC_atom (firstn 2 lines) (nth 2 lines "") scope (skipn 6 lines) /\
  scope_value "AVCProfileIndication" scope = Some 100 /\
  scope_value "profile_compatibility" scope = Some 0 /\
  scope_value "AVCLevelIndication" scope = Some 31 /\
  (forall first : bool,
     extract_codecs {| run_dump := fun _ => Ok broken_audio_dump;
                       avc1_first := first |} "f.mp4"
     = Raise (RuntimeError "unable to decode MP4A codec")) /\
  extract_codecs (dumps wide_profile_dump) "f.mp4" = Ok "avc1.12c001f".
Proof.
  cbv zeta. split; [vm_compute; reflexivity|].
  split.
  { constructor; try (vm_compute; reflexivity).
    - repeat constructor.
    - repeat constructor.
    - vm_compute. lia. }
  split; [vm_compute; reflexivity|].
  split; [vm_compute; reflexivity|].
  split; [vm_compute; reflexivity|].
  split; [intros []; vm_compute; reflexivity|vm_compute; reflexivity].
Qed.


(** ** The master playlist *)

Local Open Scope string_scope.

Definition is_codecs (c : chunk) : bool :=
  match c with Codecs _ => true | _ => false end.

Definition is_stream_inf (c : chunk) : bool :=
  match c with StreamInf _ => true | _ => false end.

(** [mp4file] is missing or fails: the two exceptions [run] raises then. *)
Definition expected_errors (env : Mp4file) : Prop :=
  forall sample e, run_dump env sample = Raise e ->
  e = FileNotFoundError \/ exists msg, e = RuntimeError msg.

(** [technical["audio"]] is not [None]. *)
Definition has_audio (technical : Technical) : bool :=
  match audio technical with Some _ => true | None => false end.

Module MasterFacts.

Lemma wbind_Forall {C A B} (P : C -> Prop) (m : W C A) (f : A -> W C B) :
  Forall P (fst m) -> (forall a, Forall P (fst (f a))) ->
  Forall P (fst (wbind m f)).
Proof.
  intros Hm Hf. destruct m as [out [a|e]]; cbn in *; [|assumption].
  specialize (Hf a). destruct (f a) as [out' r]. cbn in *.
  apply Forall_app. now split.
Qed.

Lemma wfor_Forall {C A} (P : C -> Prop) (l : list A) (body : A -> W C unit) :
  (forall x, Forall P (fst (body x))) -> Forall P (fst (wfor l body)).
Proof.
  intros Hb. induction l as [|x l IH]; cbn [wfor]; [constructor|].
  apply wbind_Forall; auto.
Qed.

Lemma wlift_Forall {C A} (P : C -> Prop) (r : Py.result A) :
  Forall P (fst (@wlift C A r)).
Proof. constructor. Qed.

Lemma tell_Forall {C} (P : C -> Prop) (c : C) : P c -> Forall P (fst (tell c)).
Proof. intros H. cbn. now constructor. Qed.

Lemma wret_Forall {C A} (P : C -> Prop) (a : A) : Forall P (fst (@wret C A a)).
Proof. constructor. Qed.

Ltac written :=
  repeat first
    [ apply wbind_Forall; [|intros ?]
    | apply wfor_Forall; intros ?
    | apply wlift_Forall
    | apply wret_Forall
    | apply tell_Forall; reflexivity
    | match goal with |- context [if ?b then _ else _] => destruct b end ].

(** An entry written without a codec string has no [CODECS] attribute. *)
Lemma stream_variant_plain (o : Options) playlists fps idx bitrate bandwidth prefix :
  Forall (fun c => is_codecs c = false)
         (fst (stream_variant o playlists fps idx bitrate bandwidth None prefix)).
Proof. unfold stream_variant. cbn [truthy_str]. written. Qed.

(** Once codec signalling is off (or when it was never asked for) no entry
    carries a [CODECS] attribute. *)
Lemma signalling_off (o : Options) audio playlists fps env idxs flag :
  flag = true \/ hls_add_codecs o = false ->
  Forall (fun c => is_codecs c = false)
         (fst (master_variants o audio playlists fps env idxs flag)).
Proof.
  intros Hoff. induction idxs as [|idx idxs IH]; cbn [master_variants];
    [constructor|].
  apply wbind_Forall; [apply wlift_Forall|]. intros bitrate.
  destruct (negb (audio_only o) && (bitrate =? 0)%Z); [exact IH|].
  assert (E : try_codecs o env idx flag = Ok (None, flag)).
  { unfold try_codecs. destruct Hoff as [->| ->]; [reflexivity|].
    now rewrite andb_false_r. }
  rewrite E. cbn [wlift wbind fst snd].
  destruct (wbind (wfor _ _) _) as [out r] eqn:Ew. cbn [app fst].
  change out with (fst (out, r)). rewrite <- Ew.
  apply wbind_Forall; [|intros _; exact IH].
  apply wfor_Forall. intros prefix. apply stream_variant_plain.
Qed.

Lemma scan_esds_raises indent lines oti osti e :
  scan_esds indent lines oti osti = Raise e -> exists msg, e = RuntimeError msg.
Proof.
  revert oti osti. induction lines as [|line lines IH]; intros oti osti;
    cbn [scan_esds]; [discriminate|].
  destruct (negb (startswith line indent)); [discriminate|].
  destruct (match attribute_re line with
            | Some (attribute, value) =>
                if String.eqb attribute "objectTypeId"
                then Some (int_of_digits value) else None
            | None => None end); [apply IH|].
  destruct (contains "decSpecificInfo" line); [apply IH|].
  destruct osti; try apply IH.
  destruct (info_re line); [apply IH|].
  intros E. inversion E. eauto.
Qed.

Lemma decode_mp4a_raises lines e :
  decode_mp4a lines = Raise e -> exists msg, e = RuntimeError msg.
Proof.
  induction lines as [|line lines IH]; cbn [decode_mp4a]; [discriminate|].
  destruct (contains esds_marker line); [|exact IH].
  destruct (scan_esds (deeper_than line) lines None OstiNone) as [[oti osti]|e'] eqn:Es.
  - cbn [rbind snd].
    destruct oti as [oti|]; [|intros E; inversion E; eauto].
    destruct osti; [intros E; inversion E; eauto| |];
      (destruct (decode_mp4a lines) as [ids|e'']; cbn [rbind];
       [discriminate|intros E; inversion E; subst; now apply IH]).
  - cbn [rbind]. intros E. inversion E. subst. now apply scan_esds_raises in Es.
Qed.

Lemma decode_avc1_raises lines e :
  decode_avc1 lines = Raise e -> exists msg, e = RuntimeError msg.
Proof.
  induction lines as [|line lines IH]; cbn [decode_avc1]; [discriminate|].
  destruct (contains avcC_marker line); [|exact IH].
  destruct (scan_avcC _ _ _) as [[p|] [c|] [l|]];
    try (intros E; inversion E; eauto; fail).
  destruct (decode_avc1 lines) as [ids|e']; cbn [rbind];
    [discriminate|intros E; inversion E; subst; now apply IH].
Qed.

(** The decoder itself only ever raises [RuntimeError]. *)
Lemma decode_dump_raises (b : bool) (dump : string) (e : exn) :
  decode_dump b dump = Raise e -> exists msg, e = RuntimeError msg.
Proof.
  unfold decode_dump.
  set (lines := split "010" dump).
  assert (Ha : forall e, (if has_codec "avc1" lines then decode_avc1 lines else Ok [])
                         = Raise e -> exists msg, e = RuntimeError msg).
  { intros e'. destruct (has_codec "avc1" lines); [apply decode_avc1_raises|discriminate]. }
  assert (Hm : forall e, (if has_codec "mp4a" lines then decode_mp4a lines else Ok [])
                         = Raise e -> exists msg, e = RuntimeError msg).
  { intros e'. destruct (has_codec "mp4a" lines); [apply decode_mp4a_raises|discriminate]. }
  destruct (if has_codec "avc1" lines then decode_avc1 lines else Ok []) as [a|ea];
    destruct (if has_codec "mp4a" lines then decode_mp4a lines else Ok []) as [m|em];
    destruct b; cbn [rbind]; try discriminate;
    intros E; inversion E; subst; eauto.
Qed.

Lemma extract_codecs_raises (env : Mp4file) (sample : string) (e : exn) :
  expected_errors env ->
  extract_codecs env sample = Raise e ->
  e = FileNotFoundError \/ exists msg, e = RuntimeError msg.
Proof.
  intros He. unfold extract_codecs.
  destruct (run_dump env sample) as [dump|e'] eqn:Er; cbn [rbind].
  - intros E. right. eapply decode_dump_raises. exact E.
  - intros E. inversion E. subst. eapply He. exact Er.
Qed.

(** The guarded extraction never raises when [mp4file] only fails in the
    expected ways. *)
Lemma try_codecs_returns (o : Options) (env : Mp4file) (idx : nat) (flag : bool) :
  expected_errors env ->
  exists codecs flag', try_codecs o env idx flag = Ok (codecs, flag').
Proof.
  intros He. unfold try_codecs.
  destruct (negb flag && hls_add_codecs o); [|eauto].
  destruct (extract_codecs env _) as [c|e] eqn:Ex; [eauto|].
  destruct (extract_codecs_raises _ _ _ He Ex) as [->|[msg ->]]; eauto.
Qed.

(** A failed extraction gives no codec string and turns signalling off. *)
Lemma try_codecs_failed (o : Options) (env : Mp4file) (idx : nat) (flag : bool) e :
  expected_errors env ->
  extract_codecs env ("_" ++ str_of_int (Z.of_nat idx) ++ ".mp4") = Raise e ->
  exists flag', try_codecs o env idx flag = Ok (None, flag') /\
                (flag' = true \/ hls_add_codecs o = false).
Proof.
  intros He Ex. unfold try_codecs.
  destruct flag; cbn [negb andb]; [eauto|].
  destruct (hls_add_codecs o); [|eauto].
  rewrite Ex.
  destruct (extract_codecs_raises _ _ _ He Ex) as [->|[msg ->]]; eauto.
Qed.

Lemma getitem_lt {A} (l : list A) (i : nat) :
  (i < List.length l)%nat -> exists a, getitem l i = Ok a.
Proof.
  revert i. induction l as [|x l IH]; intros [|i] H; cbn in *; try lia; eauto.
  destruct (IH i) as [a E]; [lia|]. unfold getitem in *. cbn. eauto.
Qed.

Lemma getitem_nth_error {A} (l : list A) (i : nat) (a : A) :
  nth_error l i = Some a -> getitem l i = Ok a.
Proof.
  revert i. induction l as [|x l IH]; intros [|i] H; cbn in *; try discriminate.
  - now inversion H.
  - unfold getitem in *. cbn. now apply IH.
Qed.

End MasterFacts.

Module RunFacts.

Import MasterFacts.

Lemma wbind_ok {C A B} (m : W C A) (f : A -> W C B) (a : A) :
  snd m = Ok a -> wbind m f = (fst m ++ fst (f a), snd (f a))%list.
Proof.
  destruct m as [out r]. cbn. intros ->. now destruct (f a).
Qed.

Lemma let_pair_eta {A B} (m : A * B) : (let (a, b) := m in (a, b)) = m.
Proof. now destruct m. Qed.

Lemma wfor_returns {C A} (l : list A) (body : A -> W C unit) :
  (forall x, snd (body x) = Ok tt) -> snd (wfor l body) = Ok tt.
Proof.
  intros Hb. induction l as [|x l IH]; cbn [wfor]; [reflexivity|].
  rewrite (wbind_ok _ _ tt) by apply Hb. exact IH.
Qed.

Section Run.

Variables (o : Options) (playlists : list Playlist) (env : Mp4file).
Variables (audio : bool) (fps : Q).

Hypothesis bitrates_cover :
  (List.length playlists <= List.length (video_bitrates o))%nat.
Hypothesis names_cover :
  (List.length playlists <= List.length (video_names o))%nat.
Hypothesis errors : expected_errors env.

Lemma stream_variant_returns idx bitrate bandwidth codecs prefix :
  (idx < List.length playlists)%nat ->
  snd (stream_variant o playlists fps idx bitrate bandwidth codecs prefix) = Ok tt.
Proof.
  intros Hi. unfold stream_variant.
  destruct (getitem_lt playlists idx Hi) as [p Ep].
  destruct (getitem_lt (video_names o) idx ltac:(lia)) as [d Ed].
  rewrite Ep, Ed.
  destruct (0 <? bitrate)%Z; destruct (truthy_str codecs);
    destruct (audio_separate o); reflexivity.
Qed.

Lemma master_variants_returns idxs flag :
  Forall (fun idx => (idx < List.length playlists)%nat) idxs ->
  snd (master_variants o audio playlists fps env idxs flag) = Ok tt.
Proof.
  intros Hi. revert flag.
  induction Hi as [|idx idxs Hidx _ IH]; intros flag; cbn [master_variants];
    [reflexivity|].
  destruct (getitem_lt (video_bitrates o) idx ltac:(lia)) as [b Eb].
  rewrite Eb. cbn [wlift wbind app].
  destruct (negb (audio_only o) && (b =? 0)%Z).
  { specialize (IH flag). now destruct (master_variants _ _ _ _ _ idxs flag). }
  destruct (try_codecs_returns o env idx flag errors) as (c & flag' & Et).
  rewrite Et. cbn [wlift wbind app fst snd].
  match goal with |- snd (let (_, _) := ?m in _) = _ =>
    assert (E : snd m = Ok tt); [|destruct m; exact E] end.
  rewrite (wbind_ok _ _ tt).
  - apply IH.
  - apply wfor_returns. intros prefix. now apply stream_variant_returns.
Qed.

(** The entries of the first renditions are written whatever follows. *)
Lemma master_variants_app pre idxs flag :
  Forall (fun idx => (idx < List.length playlists)%nat) pre ->
  exists flag',
    master_variants o audio playlists fps env (pre ++ idxs) flag =
    (fst (master_variants o audio playlists fps env pre flag) ++
     fst (master_variants o audio playlists fps env idxs flag'),
     snd (master_variants o audio playlists fps env idxs flag'))%list.
Proof.
  intros Hi. revert flag.
  induction Hi as [|idx pre Hidx Hpre IH]; intros flag.
  - exists flag. cbn [app master_variants wret fst].
    now destruct (master_variants o audio playlists fps env idxs flag).
  - cbn [app master_variants].
    destruct (getitem_lt (video_bitrates o) idx ltac:(lia)) as [b Eb].
    rewrite Eb. cbn [wlift wbind app].
    destruct (negb (audio_only o) && (b =? 0)%Z).
    { destruct (IH flag) as [flag' E]. exists flag'. rewrite E.
      now destruct (master_variants o audio playlists fps env pre flag). }
    destruct (try_codecs_returns o env idx flag errors) as (c & flag1 & Et).
    rewrite Et. cbn [wlift wbind app fst snd].
    destruct (IH flag1) as [flag' E]. exists flag'.
    set (entries := wfor (hls_playlist_prefix o)
                         (stream_variant o playlists fps idx b
                            (if audio then (b + audio_bitrate o)%Z else b) c)).
    assert (Re : snd entries = Ok tt).
    { apply wfor_returns. intros prefix. now apply stream_variant_returns. }
    rewrite !(wbind_ok entries _ tt Re), E. cbn [fst snd].
    now rewrite app_assoc.
Qed.

(** A rendition whose extraction fails, and every rendition after it, is
    written without [CODECS]. *)
Lemma failing_rendition_plain k b e idxs flag :
  nth_error (video_bitrates o) k = Some b ->
  audio_only o = true \/ b <> 0%Z ->
  extract_codecs env ("_" ++ str_of_int (Z.of_nat k) ++ ".mp4") = Raise e ->
  Forall (fun c => is_codecs c = false)
         (fst (master_variants o audio playlists fps env (k :: idxs) flag)).
Proof.
  intros Eb Hw Ex. cbn [master_variants].
  rewrite (getitem_nth_error _ _ _ Eb). cbn [wlift wbind app].
  assert (Hs : negb (audio_only o) && (b =? 0)%Z = false).
  { destruct Hw as [->|Hb]; [reflexivity|].
    apply Z.eqb_neq in Hb. rewrite Hb. apply andb_false_r. }
  rewrite Hs.
  destruct (try_codecs_failed o env k flag e errors Ex) as (flag' & Et & Hoff).
  rewrite Et. cbn [wlift wbind app fst snd].
  rewrite !let_pair_eta.
  apply wbind_Forall.
  - apply wfor_Forall. intros prefix. apply stream_variant_plain.
  - intros _. now apply signalling_off.
Qed.

Lemma master_header_returns :
  playlists <> [] -> snd (master_header o playlists) = Ok tt.
Proof.
  intros Hp. unfold master_header. cbn [tell wbind app].
  destruct (audio_separate o); [|reflexivity].
  cbn [tell wbind app].
  match goal with |- snd (let (_, _) := (let (_, _) := ?m in _) in _) = _ =>
    assert (E : snd m = Ok tt); [|destruct m; exact E] end.
  apply wfor_returns. intros prefix.
  unfold last_playlist.
  destruct (rev playlists) as [|p l] eqn:Er; [|reflexivity].
  apply (f_equal (@rev _)) in Er. rewrite rev_involutive in Er. contradiction.
Qed.

End Run.

End RunFacts.

Import MasterFacts RunFacts.
Local Open Scope string_scope.
Local Open Scope Z_scope.

(** In a normalized plan every rendition has a name and a bit rate. *)
Lemma plan_covers_renditions (technical : Technical) (o o' : Options) :
  fix_options technical o = (Ok tt, o') ->
  List.length (video_names o') = List.length (video_widths o') /\
  List.length (video_bitrates o') = List.length (video_widths o').
Proof.
  intros H. apply fix_options_spec in H. cbv zeta in H.
  destruct H as (bitrates & codecs & profiles & presets & extra & keep & rs & r
                 & Ab & _ & _ & _ & _ & Ln & _ & _ & Ew & Eb & _ & _ & En & _).
  rewrite Ew, Eb, En. split; apply pick_length.
  - exact Ln.
  - rewrite length_map, zeroed_length.
    apply align_extend in Ab. now destruct Ab.
Qed.

Definition high_and_low_request : Options :=
  set_video_widths [1280; 640] default_options.

(** The plan for two renditions, 1280 and 640 pixels wide. *)
Definition two_renditions : Options :=
  snd (fix_options source_1080p high_and_low_request).

Definition two_playlists : list Playlist :=
  [ {| name := "720p_0.m3u8"; resolution := "1280x720" |};
    {| name := "360p_1.m3u8"; resolution := "640x360" |} ].

(** The sample of the first rendition is there, the second one is missing. *)
Definition second_sample_missing : Mp4file :=
  {| run_dump := fun sample =>
       if String.eqb sample "_0.mp4" then Ok high_profile_dump
       else Raise FileNotFoundError;
     avc1_first := true |}.

(** C8, as the code has it: when the extraction fails for a rendition that
    is written, the playlist is still written to its end, and the entries of
    that rendition and of all later ones carry no [CODECS] attribute; the
    entries of the renditions before it were already written and stay as
    they are. *)
Theorem codecs_stop_at_failing_rendition (o : Options) (technical : Technical)
    (playlists : list Playlist) (env : Mp4file) (fps : Q) (k : nat) (b : Z)
    (e : exn) :
  frame_rate technical = Ok fps ->
  (List.length playlists <= List.length (video_bitrates o))%nat ->
  (List.length playlists <= List.length (video_names o))%nat ->
  expected_errors env ->
  (k < List.length playlists)%nat ->
  nth_error (video_bitrates o) k = Some b ->
  audio_only o = true \/ b <> 0 ->
  extract_codecs env ("_" ++ str_of_int (Z.of_nat k) ++ ".mp4") = Raise e ->
  exists rest,
    transcode_master o technical playlists env =
      ((fst (master_header o playlists) ++
        fst (master_variants o (has_audio technical) playlists fps env
               (seq 0 k) false) ++ rest)%list, Ok tt) /\
    Forall (fun c => is_codecs c = false) rest.
Proof.
  intros Hfps Hb Hn He Hk Eb Hw Ex.
  assert (Hp : playlists <> []) by (destruct playlists; cbn in *; [lia|discriminate]).
  assert (Hseq : seq 0 (List.length playlists) =
                 (seq 0 k ++ k :: seq (S k) (List.length playlists - S k))%list).
  { replace (List.length playlists) with (k + S (List.length playlists - S k))%nat
      at 1 by lia.
    rewrite seq_app. reflexivity. }
  assert (Hpre : Forall (fun idx => (idx < List.length playlists)%nat) (seq 0 k)).
  { apply Forall_forall. intros i Hi. apply in_seq in Hi. lia. }
  assert (Hpost : Forall (fun idx => (idx < List.length playlists)%nat)
                         (k :: seq (S k) (List.length playlists - S k))).
  { constructor; [assumption|].
    apply Forall_forall. intros i Hi. apply in_seq in Hi. lia. }
  destruct (master_variants_app o playlists env (has_audio technical) fps Hb Hn He
              (seq 0 k) (k :: seq (S k) (List.length playlists - S k)) false Hpre)
    as [flag' Eapp].
  exists (fst (master_variants o (has_audio technical) playlists fps env
                 (k :: seq (S k) (List.length playlists - S k)) flag')).
  split.
  - unfold transcode_master. rewrite Hfps. cbn [wlift wbind app].
    fold (has_audio technical). rewrite Hseq, Eapp.
    rewrite (wbind_ok (master_header o playlists) _ tt)
      by now apply master_header_returns.
    cbn [fst snd].
    rewrite (master_variants_returns o playlists env (has_audio technical) fps
               Hb Hn He _ flag' Hpost).
    reflexivity.
  - eapply failing_rendition_plain; eassumption.
Qed.

Lemma codecs_stop_at_failing_rendition_witness :
  exists rest,
    transcode_master two_renditions source_1080p two_playlists
      second_sample_missing =
      ((fst (master_header two_renditions two_playlists) ++
        fst (master_variants two_renditions (has_audio source_1080p) two_playlists
               25 second_sample_missing (seq 0 1) false) ++ rest)%list, Ok tt) /\
    Forall (fun c => is_codecs c = false) rest.
Proof.
  apply (codecs_stop_at_failing_rendition two_renditions source_1080p
           two_playlists second_sample_missing 25 1 6500 FileNotFoundError);
    try (vm_compute; reflexivity); try (cbn; lia).
  intros sample e. cbn. destruct (String.eqb sample "_0.mp4"); [discriminate|].
    intros E. inversion E. now left.
Defined.

(** C8, as the specification has it, fails: the second of two renditions has
    no sample, and the entry of the first one, written before, keeps its
    [CODECS] attribute. *)
Lemma earlier_entries_keep_codecs :
  extract_codecs second_sample_missing "_1.mp4" = Raise FileNotFoundError /\
  transcode_master two_renditions source_1080p two_playlists second_sample_missing =
    ([Header; Version 3;
      StreamInf 14000; Resolution "1280x720" 25; Codecs "avc1.64001f";
      NameUri "720p" "" "720p_0.m3u8";
      StreamInf 6500; Resolution "640x360" 25;
      NameUri "360p" "" "360p_1.m3u8"], Ok tt) /\
  render (Codecs "avc1.64001f") = "CODECS=" ++ dquote ++ "avc1.64001f" ++ dquote ++ ",".
Proof. repeat split; vm_compute; reflexivity. Qed.

(** ** The text of the master playlist *)

(** Every character of [s] satisfies [ok]. *)
Fixpoint all_chars (ok : ascii -> bool) (s : string) : bool :=
  match s with
  | EmptyString => true
  | String c s' => ok c && all_chars ok s'
  end.

(** [s] holds no line break. *)
Definition one_line (s : string) : bool :=
  all_chars (fun c => negb (is_newline c)) s.

(** The tag of a stream variant, and the text that starts an [AUDIO]
    attribute. *)
Definition stream_inf_tag : string := "#EXT-X-STREAM-INF".
Definition audio_attribute : string := "AUDIO=".

(** The lines of a text that are stream variants. *)
Definition stream_inf_lines (text : string) : list string :=
  filter (fun line => startswith line stream_inf_tag) (split "010" text).

(** A display name that stays within its line of the playlist and does not
    spell an [AUDIO] attribute. *)
Definition tidy_name (s : string) : Prop :=
  one_line s = true /\ contains audio_attribute s = false.

Module TextFacts.

Local Open Scope string_scope.

(** *** Characters *)

Lemma all_chars_app (ok : ascii -> bool) (a b : string) :
  all_chars ok (a ++ b) = all_chars ok a && all_chars ok b.
Proof.
  induction a as [|c a IH]; [reflexivity|]. cbn. now rewrite IH, andb_assoc.
Qed.

Lemma all_chars_impl (ok ok' : ascii -> bool) (s : string) :
  (forall c, ok c = true -> ok' c = true) ->
  all_chars ok s = true -> all_chars ok' s = true.
Proof.
  intros H. induction s as [|c s IH]; [reflexivity|]. cbn.
  rewrite !andb_true_iff. intros [Hc Hs]. split; auto.
Qed.

(** Neither a line break nor the letter that starts [AUDIO]. *)
Definition plain (c : ascii) : bool :=
  negb (is_newline c) && negb (Ascii.eqb c "A").

Lemma plain_one_line (s : string) : all_chars plain s = true -> one_line s = true.
Proof.
  apply all_chars_impl. intros c. unfold plain. rewrite andb_true_iff. tauto.
Qed.

(** *** Lines *)

Lemma split_one_line (s : string) : one_line s = true -> split "010" s = [s].
Proof.
  unfold one_line. induction s as [|c s IH]; [reflexivity|].
  cbn [all_chars split]. rewrite andb_true_iff. intros [Hc Hs].
  unfold is_newline in Hc. apply negb_true_iff in Hc. rewrite Hc.
  now rewrite (IH Hs).
Qed.

Lemma split_line (a b : string) :
  one_line a = true -> split "010" (a ++ nl ++ b) = a :: split "010" b.
Proof.
  unfold one_line. induction a as [|c a IH].
  - reflexivity.
  - cbn [all_chars split append]. rewrite andb_true_iff. intros [Hc Ha].
    unfold is_newline in Hc. apply negb_true_iff in Hc. rewrite Hc.
    now rewrite (IH Ha).
Qed.

(** *** Occurrences across a junction *)

Fixpoint mem (c : ascii) (s : string) : bool :=
  match s with
  | EmptyString => false
  | String d s' => Ascii.eqb c d || mem c s'
  end.

Definition first_ok (ok : ascii -> bool) (s : string) : bool :=
  match s with
  | EmptyString => true
  | String c _ => ok c
  end.

Fixpoint last_ok (ok : ascii -> bool) (s : string) : bool :=
  match s with
  | EmptyString => true
  | String c EmptyString => ok c
  | String _ s' => last_ok ok s'
  end.

(** All the characters of [p] but the last. *)
Fixpoint init (p : string) : string :=
  match p with
  | EmptyString => EmptyString
  | String _ EmptyString => EmptyString
  | String c p' => String c (init p')
  end.

Lemma strip_prefix_first (p s y : string) :
  first_ok (fun c => negb (mem c p)) y = true ->
  startswith (s ++ y) p = startswith s p.
Proof.
  unfold startswith. revert s. induction p as [|a p IH]; intros s Hy; [reflexivity|].
  destruct s as [|b s]; cbn [append strip_prefix].
  - destruct y as [|c y]; [reflexivity|]. cbn in Hy.
    apply negb_true_iff, orb_false_elim in Hy. destruct Hy as [Hc _].
    rewrite Ascii.eqb_sym in Hc. now rewrite Hc.
  - destruct (Ascii.eqb a b); [|reflexivity].
    apply IH. destruct y as [|c y]; [reflexivity|]. cbn in *.
    apply negb_true_iff, orb_false_elim in Hy. destruct Hy as [_ Hc].
    now rewrite Hc.
Qed.

(** No occurrence of [p] straddles [x] and [y] when [y] starts with a
    character that [p] has only in first position, if at all. *)
Lemma contains_app_first (a : ascii) (p x y : string) :
  first_ok (fun c => negb (mem c p)) y = true ->
  contains (String a p) (x ++ y) = contains (String a p) x || contains (String a p) y.
Proof.
  intros Hy. induction x as [|b x IH].
  - cbn [append]. now destruct y.
  - cbn [append contains]. rewrite IH.
    replace (startswith (String b (x ++ y)) (String a p))
      with (startswith (String b x) (String a p)); [now rewrite orb_assoc|].
    unfold startswith. cbn [strip_prefix].
    destruct (Ascii.eqb a b); [|reflexivity].
    symmetry. apply (strip_prefix_first p x y Hy).
Qed.

Lemma strip_prefix_last (p s y : string) :
  s <> EmptyString ->
  last_ok (fun c => negb (mem c (init p))) s = true ->
  startswith (s ++ y) p = startswith s p.
Proof.
  unfold startswith. revert s. induction p as [|a p IH]; intros s Ns Hs; [reflexivity|].
  destruct s as [|b s]; [contradiction|]. cbn [append strip_prefix].
  destruct (Ascii.eqb_spec a b) as [<-|N]; [|reflexivity].
  destruct p as [|a' p]; [reflexivity|].
  destruct s as [|b' s].
  - cbn in Hs. rewrite Ascii.eqb_refl in Hs. discriminate Hs.
  - apply IH; [discriminate|].
    cbn [last_ok] in Hs. cbn [init mem] in Hs.
    change (last_ok (fun c => negb (Ascii.eqb c a || mem c (init (String a' p))))
                    (String b' s) = true) in Hs.
    revert Hs. generalize (String b' s) as t. clear.
    induction t as [|c t IHt]; [reflexivity|]. cbn [last_ok].
    destruct t as [|c' t]; [|exact IHt].
    intros H. apply negb_true_iff, orb_false_elim in H. destruct H as [_ H].
    now rewrite H.
Qed.

Lemma last_ok_tail (ok : ascii -> bool) (b : ascii) (x : string) :
  last_ok ok (String b x) = true -> last_ok ok x = true.
Proof. cbn. now destruct x. Qed.

(** No occurrence of [p] straddles [x] and [y] when [x] ends with a
    character that [p] has only in last position, if at all. *)
Lemma contains_app_last (p x y : string) :
  p <> EmptyString ->
  last_ok (fun c => negb (mem c (init p))) x = true ->
  contains p (x ++ y) = contains p x || contains p y.
Proof.
  intros Np Hx. induction x as [|b x IH].
  - cbn [append]. destruct p; [contradiction|]. now destruct y.
  - cbn [append contains]. rewrite (IH (last_ok_tail _ _ _ Hx)).
    change (String b (x ++ y)) with (String b x ++ y).
    rewrite (strip_prefix_last p (String b x) y) by (discriminate || assumption).
    now rewrite orb_assoc.
Qed.

Lemma plain_no_audio (s : string) :
  all_chars plain s = true -> contains audio_attribute s = false.
Proof.
  induction s as [|c s IH]; [reflexivity|]. cbn [all_chars contains].
  rewrite andb_true_iff. intros [Hc Hs]. rewrite (IH Hs), orb_false_r.
  unfold plain in Hc. apply andb_true_iff in Hc. destruct Hc as [_ Hc].
  apply negb_true_iff in Hc. unfold startswith, audio_attribute. cbn [strip_prefix].
  rewrite Ascii.eqb_sym in Hc. now rewrite Hc.
Qed.

End TextFacts.

Module AlphabetFacts.

Import TextFacts.
Local Open Scope string_scope.

(** *** What the printed numbers and the codec strings are made of *)

Lemma plain_uint (d : Decimal.uint) :
  all_chars plain (DecimalString.NilEmpty.string_of_uint d) = true.
Proof. induction d; cbn; auto. Qed.

Lemma plain_str_of_int (n : Z) : all_chars plain (str_of_int n) = true.
Proof.
  unfold str_of_int, DecimalString.NilZero.string_of_int,
    DecimalString.NilZero.string_of_uint.
  destruct (Z.to_int n) as [d|d].
  - destruct d; try reflexivity; apply plain_uint.
  - change (all_chars plain (String "-" (match d with
                                         | Decimal.Nil => "0"
                                         | _ => DecimalString.NilEmpty.string_of_uint d
                                         end)) = true).
    cbn [all_chars]. destruct d; try reflexivity; apply plain_uint.
Qed.

Lemma plain_hex_uint (d : Hexadecimal.uint) :
  all_chars plain (HexadecimalString.NilEmpty.string_of_uint d) = true.
Proof. induction d; cbn; auto. Qed.

Lemma plain_hex02 (n : Z) : all_chars plain (hex02 n) = true.
Proof.
  unfold hex02. cbv zeta.
  set (h := HexadecimalString.NilZero.string_of_uint _).
  assert (Hh : all_chars plain h = true).
  { unfold h, HexadecimalString.NilZero.string_of_uint.
    destruct (N.to_hex_uint (Z.to_N n)); try reflexivity; apply plain_hex_uint. }
  destruct h as [|c [|c' h']]; exact Hh.
Qed.

Lemma plain_app (a b : string) :
  all_chars plain a = true -> all_chars plain b = true ->
  all_chars plain (a ++ b) = true.
Proof. intros Ha Hb. now rewrite all_chars_app, Ha, Hb. Qed.

Lemma plain_pad (r : Z) :
  all_chars plain (if (r <? 10)%Z then "00" else if (r <? 100)%Z then "0" else "")
  = true.
Proof. destruct (r <? 10)%Z; [reflexivity|]. now destruct (r <? 100)%Z. Qed.

Lemma plain_group3 (fuel : nat) (n : Z) : all_chars plain (group3 fuel n) = true.
Proof.
  revert n. induction fuel as [|fuel IH]; intros n; cbn [group3].
  - apply plain_str_of_int.
  - destruct (n <? 1000)%Z; [apply plain_str_of_int|].
    apply plain_app; [apply IH|]. apply (plain_app ","); [reflexivity|].
    apply plain_app; [apply plain_pad|apply plain_str_of_int].
Qed.

Lemma plain_format_comma_3f (x : Q) : all_chars plain (format_comma_3f x) = true.
Proof.
  unfold format_comma_3f. cbv zeta.
  apply plain_app; [now destruct (Qle_bool 0 x)|].
  apply plain_app; [apply plain_group3|].
  apply (plain_app "."); [reflexivity|].
  apply plain_app; [apply plain_pad|apply plain_str_of_int].
Qed.

Lemma plain_resolution_text (size : Z * Z) :
  all_chars plain (resolution_text size) = true.
Proof.
  unfold resolution_text. apply plain_app; [apply plain_str_of_int|].
  apply (plain_app "x"); [reflexivity|apply plain_str_of_int].
Qed.

Lemma plain_join (l : list string) :
  Forall (fun s => all_chars plain s = true) l ->
  all_chars plain (join "," l) = true.
Proof.
  induction 1 as [|s l Hs _ IH]; [reflexivity|].
  cbn [join]. destruct l as [|s' l]; [exact Hs|].
  apply plain_app; [exact Hs|]. apply (plain_app ","); [reflexivity|exact IH].
Qed.

Lemma plain_avc1_identifier (p c l : Z) :
  all_chars plain (avc1_identifier p c l) = true.
Proof.
  unfold avc1_identifier. apply (plain_app "avc1."); [reflexivity|].
  repeat apply plain_app; apply plain_hex02.
Qed.

Lemma plain_mp4a_identifier (oti : Z) (osti : osti_value) :
  all_chars plain (mp4a_identifier oti osti) = true.
Proof.
  unfold mp4a_identifier. apply (plain_app "mp4a."); [reflexivity|].
  apply plain_app; [apply plain_hex02|]. apply (plain_app "."); [reflexivity|].
  destruct osti; try reflexivity. apply plain_str_of_int.
Qed.

Lemma plain_decode_avc1 (lines ids : list string) :
  decode_avc1 lines = Ok ids -> Forall (fun s => all_chars plain s = true) ids.
Proof.
  revert ids. induction lines as [|line lines IH]; intros ids H; cbn [decode_avc1] in H.
  - inversion H. constructor.
  - destruct (contains avcC_marker line); [|now apply IH].
    destruct (scan_avcC _ _ _) as [[p|] [c|] [l|]]; try discriminate H.
    destruct (decode_avc1 lines) as [ids'|e]; cbn [rbind] in H; [|discriminate H].
    inversion H. constructor; [apply plain_avc1_identifier|now apply IH].
Qed.

Lemma plain_decode_mp4a (lines ids : list string) :
  decode_mp4a lines = Ok ids -> Forall (fun s => all_chars plain s = true) ids.
Proof.
  revert ids. induction lines as [|line lines IH]; intros ids H; cbn [decode_mp4a] in H.
  - inversion H. constructor.
  - destruct (contains esds_marker line); [|now apply IH].
    destruct (scan_esds _ _ _ _) as [[[oti|] [| |z]]|e]; cbn [rbind] in H;
      try discriminate H;
      (destruct (decode_mp4a lines) as [ids'|e']; cbn [rbind] in H; [|discriminate H]);
      inversion H; (constructor; [apply plain_mp4a_identifier|now apply IH]).
Qed.

Lemma plain_decode_dump (first : bool) (dump codecs : string) :
  decode_dump first dump = Ok codecs -> all_chars plain codecs = true.
Proof.
  unfold decode_dump. cbv zeta.
  set (lines := split "010" dump).
  assert (Ha : forall a, (if has_codec "avc1" lines then decode_avc1 lines else Ok [])
                         = Ok a -> Forall (fun s => all_chars plain s = true) a).
  { intros a. destruct (has_codec "avc1" lines).
    - apply plain_decode_avc1.
    - intros E. inversion E. constructor. }
  assert (Hm : forall a, (if has_codec "mp4a" lines then decode_mp4a lines else Ok [])
                         = Ok a -> Forall (fun s => all_chars plain s = true) a).
  { intros a. destruct (has_codec "mp4a" lines).
    - apply plain_decode_mp4a.
    - intros E. inversion E. constructor. }
  destruct (if has_codec "avc1" lines then decode_avc1 lines else Ok []) as [a|e];
    destruct (if has_codec "mp4a" lines then decode_mp4a lines else Ok []) as [b|e'];
    destruct first; cbn [rbind]; intros E; try discriminate E;
    inversion E; apply plain_join, Forall_app; split; auto.
Qed.

Lemma plain_try_codecs (o : Options) (env : Mp4file) (idx : nat) (flag flag' : bool)
    (codecs : string) :
  try_codecs o env idx flag = Ok (Some codecs, flag') ->
  all_chars plain codecs = true.
Proof.
  unfold try_codecs. destruct (negb flag && hls_add_codecs o); [|discriminate].
  destruct (extract_codecs env _) as [c|e] eqn:Ex.
  - intros E. inversion E. subst c. unfold extract_codecs in Ex.
    destruct (run_dump env _) as [dump|e]; cbn [rbind] in Ex; [|discriminate Ex].
    now apply plain_decode_dump in Ex.
  - destruct e; discriminate.
Qed.

(** The names the normalizer makes are tidy. *)
Lemma synthesized_tidy (s : string) : synthesized s -> tidy_name s.
Proof.
  intros [->|[h ->]]; [split; reflexivity|].
  assert (P : all_chars plain (str_of_int h ++ "p") = true)
    by (apply plain_app; [apply plain_str_of_int|reflexivity]).
  split; [now apply plain_one_line|now apply plain_no_audio].
Qed.

End AlphabetFacts.

(** The line of the stream variant of the single rendition. *)
Definition variant_line (res : string) (fps : Q) (codecs : list chunk)
    (display : string) : string :=
  "#EXT-X-STREAM-INF:BANDWIDTH=2500000," ++
  "RESOLUTION=" ++ res ++ ",FRAME-RATE=" ++ format_comma_3f fps ++ "," ++
  file_text codecs ++ "NAME=" ++ dquote ++ display ++ dquote.

Module LineFacts.

Import TextFacts AlphabetFacts.
Local Open Scope string_scope.

Lemma append_assoc (a b c : string) : (a ++ b) ++ c = a ++ b ++ c.
Proof. induction a as [|x a IH]; [reflexivity|]. cbn. now rewrite IH. Qed.

Lemma append_nil_r (a : string) : a ++ "" = a.
Proof. induction a as [|x a IH]; [reflexivity|]. cbn. now rewrite IH. Qed.

(** The text of the playlist of a single variant, line by line. *)
Lemma single_variant_text (res : string) (fps : Q) (codecs : list chunk)
    (display uri : string) :
  codecs = [] \/ (exists c, codecs = [Codecs c]) ->
  file_text ([Header; Version 3; StreamInf 2500; Resolution res fps]
             ++ codecs ++ [NameUri display "" uri])%list
  = "#EXTM3U" ++ nl ++ "#EXT-X-VERSION:3" ++ nl ++
    variant_line res fps codecs display ++ nl ++ uri ++ nl.
Proof.
  intros [->|[c ->]]; unfold variant_line, file_text;
    cbn [map app String.concat render];
    change (str_of_int 3) with "3"; change (str_of_int 2500) with "2500";
    generalize (format_comma_3f fps) as f; intros f;
    unfold nl, dquote;
    repeat (progress (rewrite ?append_assoc; cbn [append])); reflexivity.
Qed.

Ltac normalize_appends :=
  unfold nl, dquote; repeat (progress (rewrite ?append_assoc; cbn [append])).

Lemma variant_line_plain (res : string) (fps : Q) (display : string) :
  variant_line res fps [] display =
  "#EXT-X-STREAM-INF:BANDWIDTH=2500000,RESOLUTION=" ++ res ++
  ",FRAME-RATE=" ++ format_comma_3f fps ++ ",NAME=" ++ dquote ++ display ++ dquote.
Proof.
  unfold variant_line, file_text. cbn [map String.concat].
  generalize (format_comma_3f fps) as f; intros f.
  normalize_appends. reflexivity.
Qed.

Lemma variant_line_codecs (res : string) (fps : Q) (c display : string) :
  variant_line res fps [Codecs c] display =
  "#EXT-X-STREAM-INF:BANDWIDTH=2500000,RESOLUTION=" ++ res ++
  ",FRAME-RATE=" ++ format_comma_3f fps ++ ",CODECS=" ++ dquote ++ c ++
  dquote ++ ",NAME=" ++ dquote ++ display ++ dquote.
Proof.
  unfold variant_line, file_text. cbn [map String.concat render].
  generalize (format_comma_3f fps) as f; intros f.
  normalize_appends. reflexivity.
Qed.

(** On [x ++ y] with [x] a literal that ends outside [AUDIO], and on
    [x ++ y] with [y] starting outside [UDIO=]. *)
Ltac after_literal :=
  rewrite contains_app_last by (discriminate || reflexivity);
  match goal with
  | |- context [contains ?p ?x || _] =>
      replace (contains p x) with false by (vm_compute; reflexivity)
  end; cbn [orb].

Ltac after_piece H :=
  unfold audio_attribute;
  rewrite contains_app_first by reflexivity;
  fold audio_attribute; rewrite H; cbn [orb].

(** The line of the variant is one line, starts with the tag and the
    bandwidth, and holds no [AUDIO] attribute. *)
Lemma variant_line_facts (size : Z * Z) (fps : Q) (codecs : list chunk)
    (display : string) :
  codecs = [] \/ (exists c, codecs = [Codecs c] /\ all_chars plain c = true) ->
  tidy_name display ->
  let line := variant_line (resolution_text size) fps codecs display in
  one_line line = true /\
  startswith line "#EXT-X-STREAM-INF:BANDWIDTH=2500000," = true /\
  startswith line stream_inf_tag = true /\
  contains audio_attribute line = false.
Proof.
  intros Hc [Hd1 Hd2].
  pose proof (plain_resolution_text size) as Hr.
  pose proof (plain_format_comma_3f fps) as Hf.
  cbv zeta.
  destruct Hc as [->|[c [-> Hc]]];
    [rewrite variant_line_plain|rewrite variant_line_codecs];
    generalize dependent (resolution_text size); intros res Hr;
    generalize dependent (format_comma_3f fps); intros f Hf;
    pose proof (plain_one_line res Hr) as Lr;
    pose proof (plain_one_line f Hf) as Lf;
    pose proof (plain_no_audio res Hr) as Ar;
    pose proof (plain_no_audio f Hf) as Af.
  - split; [|split; [reflexivity|split; [reflexivity|]]].
    + unfold one_line in *. rewrite !all_chars_app, Lr, Lf, Hd1. reflexivity.
    + unfold audio_attribute. after_literal. after_piece Ar.
      unfold audio_attribute. after_literal. after_piece Af.
      unfold audio_attribute.
      change (",NAME=" ++ dquote ++ display ++ dquote)
        with ((",NAME=" ++ dquote) ++ display ++ dquote).
      after_literal. after_piece Hd2. reflexivity.
  - pose proof (plain_one_line c Hc) as Lc.
    pose proof (plain_no_audio c Hc) as Ac.
    split; [|split; [reflexivity|split; [reflexivity|]]].
    + unfold one_line in *. rewrite !all_chars_app, Lr, Lf, Lc, Hd1. reflexivity.
    + unfold audio_attribute. after_literal. after_piece Ar.
      unfold audio_attribute. after_literal. after_piece Af.
      unfold audio_attribute.
      change (",CODECS=" ++ dquote ++ c ++ dquote ++ ",NAME=" ++ dquote ++
              display ++ dquote)
        with ((",CODECS=" ++ dquote) ++ c ++
              (dquote ++ ",NAME=" ++ dquote) ++ display ++ dquote).
      after_literal. after_piece Ac.
      unfold audio_attribute. after_literal. after_piece Hd2. reflexivity.
Qed.

End LineFacts.

Module NameFacts.

Import TextFacts AlphabetFacts.

Lemma Forall_pick {A} (P : A -> Prop) (keep : list bool) (l : list A) :
  Forall P l -> Forall P (pick keep l).
Proof.
  revert l. induction keep as [|[] keep IH]; intros l H; [exact H| |];
    destruct H as [|x l Hx Hl]; cbn; try constructor; auto.
Qed.

Lemma Forall_firstn_of {A} (P : A -> Prop) (n : nat) (l : list A) :
  Forall P l -> Forall P (firstn n l).
Proof.
  intros H. rewrite <- (firstn_skipn n l) in H. now apply Forall_app in H.
Qed.

(** Tidy names stay tidy: normalization keeps given names or makes names of
    its own. *)
Lemma names_stay_tidy (technical : Technical) (o o' : Options) :
  fix_options technical o = (Ok tt, o') ->
  Forall tidy_name (video_names o) -> Forall tidy_name (video_names o').
Proof.
  intros H Ht. apply fix_options_spec in H. cbv zeta in H.
  destruct H as (bitrates & codecs & profiles & presets & extra & keep & rs & r
                 & _ & _ & _ & _ & Fe & _ & _ & _ & _ & _ & _ & _ & En & _).
  rewrite En. apply Forall_pick, Forall_app. split.
  - now apply Forall_firstn_of.
  - eapply Forall_impl; [|exact Fe]. apply synthesized_tidy.
Qed.

Lemma truthy_str_some (c : option string) (s : string) :
  truthy_str c = Some s -> c = Some s.
Proof. destruct c as [[|a c]|]; cbn; congruence. Qed.

End NameFacts.

(** C9, as the code has it: a plan with the single rendition of width 1280
    and bit rate 2500, a source without audio and no playlist prefix.  The
    prefix list of the plan is the single empty prefix, and the master
    playlist is written with one [#EXT-X-STREAM-INF] entry, of bandwidth
    2500 and without the [AUDIO] attribute.  When the display names that
    were given are tidy (no line break, no text [AUDIO=]) and the name of
    the playlist file holds no line break and does not start with the tag,
    the text of the file has the lines [#EXTM3U], [#EXT-X-VERSION:3], the
    line of the variant, the name of the playlist file and an empty last
    line: one line starts with [#EXT-X-STREAM-INF], it starts with
    [#EXT-X-STREAM-INF:BANDWIDTH=2500000,] and nowhere holds [AUDIO=]. *)
Theorem single_rendition_master_playlist (technical : Technical) (o o' : Options)
    (p : Playlist) (size : Z * Z) (env : Mp4file) (fps : Q) :
  fix_options technical o = (Ok tt, o') ->
  hls_playlist_prefix o = [] ->
  audio_separate o = false ->
  video_widths o' = [1280] ->
  video_bitrates o' = [2500] ->
  audio technical = None ->
  frame_rate technical = Ok fps ->
  expected_errors env ->
  Forall tidy_name (video_names o) ->
  resolution p = resolution_text size ->
  one_line (name p) = true ->
  startswith (name p) stream_inf_tag = false ->
  hls_playlist_prefix o' = [""] /\
  exists out display codecs line,
    transcode_master o' technical [p] env = (out, Ok tt) /\
    out = ([Header; Version 3; StreamInf 2500; Resolution (resolution p) fps]
           ++ codecs ++ [NameUri display "" (name p)])%list /\
    (codecs = [] \/ exists c, codecs = [Codecs c]) /\
    filter is_stream_inf out = [StreamInf 2500] /\
    render (StreamInf 2500) = "#EXT-X-STREAM-INF:BANDWIDTH=2500000," /\
    ~ In AudioGroup out /\
    split "010" (file_text out)
      = ["#EXTM3U"; "#EXT-X-VERSION:3"; line; name p; ""] /\
    stream_inf_lines (file_text out) = [line] /\
    line = variant_line (resolution p) fps codecs display /\
    startswith line "#EXT-X-STREAM-INF:BANDWIDTH=2500000," = true /\
    contains audio_attribute line = false.
Proof.
  intros H Hpre Hsep Hw Hb Ha Hfps He Ht Hres Hn1 Hn2.
  destruct (plan_covers_renditions _ _ _ H) as [Ln _].
  pose proof (NameFacts.names_stay_tidy _ _ _ H Ht) as Ht'.
  apply fix_options_spec in H. cbv zeta in H.
  destruct H as (bitrates & codecs & profiles & presets & extra & keep & rs & r & H).
  decompose [and] H. clear H.
  assert (Ep : hls_playlist_prefix o' = [""]).
  { match goal with E : hls_playlist_prefix o' = _ |- _ => rewrite E end.
    now rewrite Hpre. }
  assert (Es : audio_separate o' = false) by congruence.
  rewrite Hw in Ln.
  destruct (video_names o') as [|display [|? ?]] eqn:En; try discriminate Ln.
  apply Forall_inv in Ht'.
  destruct (try_codecs_returns o' env 0 false He) as (c & flag' & Et).
  split; [exact Ep|].
  set (cod := match truthy_str c with Some s => [Codecs s] | None => [] end).
  assert (R : transcode_master o' technical [p] env =
              (([Header; Version 3; StreamInf 2500; Resolution (resolution p) fps]
                ++ cod ++ [NameUri display "" (name p)])%list, Ok tt)).
  { unfold transcode_master, master_header. rewrite Hfps, Es, Ha.
    cbn [wlift wbind tell app List.length seq master_variants].
    rewrite Hb. cbn [getitem nth_error wlift wbind app Z.eqb andb].
    rewrite andb_false_r, Et. cbn [wlift wbind app fst snd].
    rewrite Ep. unfold stream_variant. rewrite Es, En.
    cbn [wfor]. unfold cod. destruct (truthy_str c); reflexivity. }
  assert (Hcod : cod = [] \/
                 exists s, cod = [Codecs s] /\ all_chars TextFacts.plain s = true).
  { unfold cod. destruct (truthy_str c) as [s|] eqn:Etr; [right|now left].
    exists s. split; [reflexivity|].
    apply NameFacts.truthy_str_some in Etr. subst c.
    exact (AlphabetFacts.plain_try_codecs _ _ _ _ _ _ Et). }
  assert (Hcod' : cod = [] \/ exists s, cod = [Codecs s]).
  { destruct Hcod as [E|[s [E _]]]; [now left|right; now exists s]. }
  destruct (LineFacts.variant_line_facts size fps cod display Hcod Ht')
    as (L1 & L2 & L3 & L4).
  cbv zeta in L1, L2, L3, L4. rewrite <- Hres in L1, L2, L3, L4.
  set (line := variant_line (resolution p) fps cod display) in *.
  assert (T : split "010"
                (file_text ([Header; Version 3; StreamInf 2500;
                             Resolution (resolution p) fps]
                            ++ cod ++ [NameUri display "" (name p)])%list)
              = ["#EXTM3U"; "#EXT-X-VERSION:3"; line; name p; ""]).
  { rewrite (LineFacts.single_variant_text _ _ _ _ _ Hcod'). fold line.
    rewrite (TextFacts.split_line "#EXTM3U") by reflexivity.
    rewrite (TextFacts.split_line "#EXT-X-VERSION:3") by reflexivity.
    rewrite (TextFacts.split_line line) by exact L1.
    change (name p ++ nl) with (name p ++ nl ++ "").
    rewrite (TextFacts.split_line (name p)) by exact Hn1. reflexivity. }
  exists ([Header; Version 3; StreamInf 2500; Resolution (resolution p) fps]
          ++ cod ++ [NameUri display "" (name p)])%list, display, cod, line.
  split; [exact R|]. split; [reflexivity|]. split; [exact Hcod'|].
  split; [destruct Hcod' as [->|[s ->]]; reflexivity|].
  split; [vm_compute; reflexivity|].
  split.
  { destruct Hcod' as [->|[s ->]]; cbn; intros F;
      repeat destruct F as [F|F]; try discriminate F; exact F. }
  split; [exact T|].
  split.
  { unfold stream_inf_lines. rewrite T. cbn [filter].
    rewrite L3, Hn2. reflexivity. }
  split; [reflexivity|]. split; assumption.
Qed.

Definition single_rendition_request : Options :=
  set_video_bitrates [2500] (set_video_widths [1280] default_options).

Lemma single_rendition_master_playlist_witness :
  exists out line,
    transcode_master (snd (fix_options source_1080p single_rendition_request))
      source_1080p [ {| name := "720p_0.m3u8"; resolution := "1280x720" |} ]
      (dumps high_profile_dump) = (out, Ok tt) /\
    filter is_stream_inf out = [StreamInf 2500] /\
    ~ In AudioGroup out /\
    stream_inf_lines (file_text out) = [line] /\
    startswith line "#EXT-X-STREAM-INF:BANDWIDTH=2500000," = true /\
    contains audio_attribute line = false.
Proof.
  destruct (single_rendition_master_playlist source_1080p single_rendition_request
              (snd (fix_options source_1080p single_rendition_request))
              {| name := "720p_0.m3u8"; resolution := "1280x720" |}
              (1280, 720) (dumps high_profile_dump) 25)
    as (_ & out & display & codecs & line & R & _ & _ & F & _ & N & _ & S & _ & B & A);
    try (vm_compute; reflexivity).
  - intros sample e. discriminate.
  - constructor.
  - exists out, line. auto 10.
Defined.

(** A request for the same rendition under a display name of two lines. *)
Definition two_line_name_request : Options :=
  set_video_names
    ["HD" ++ nl ++ "#EXT-X-STREAM-INF:AUDIO=" ++ dquote ++ "audio" ++ dquote]
    single_rendition_request.

(** C9 fails as stated: the conditions of the claim leave the display name
    free, and the name is written as it is.  With a name of two lines whose
    second line reads as a stream variant, the playlist of the single
    rendition has two lines that start with [#EXT-X-STREAM-INF], and one of
    them holds an [AUDIO] attribute. *)
Lemma display_name_is_written_as_is :
  let o' := snd (fix_options source_1080p two_line_name_request) in
  fix_options source_1080p two_line_name_request = (Ok tt, o') /\
  hls_playlist_prefix two_line_name_request = [] /\
  video_widths o' = [1280] /\ video_bitrates o' = [2500] /\
  hls_playlist_prefix o' = [""] /\ audio_separate o' = false /\
  exists out,
    transcode_master o' source_1080p
      [ {| name := "720p_0.m3u8"; resolution := "1280x720" |} ]
      (dumps high_profile_dump) = (out, Ok tt) /\
    stream_inf_lines (file_text out) =
      ["#EXT-X-STREAM-INF:BANDWIDTH=2500000,RESOLUTION=1280x720," ++
       "FRAME-RATE=25.000,CODECS=" ++ dquote ++ "avc1.64001f" ++ dquote ++
       ",NAME=" ++ dquote ++ "HD";
       "#EXT-X-STREAM-INF:AUDIO=" ++ dquote ++ "audio" ++ dquote ++ dquote] /\
    existsb (contains audio_attribute) (stream_inf_lines (file_text out)) = true.
Proof.
  cbv zeta. repeat (split; [vm_compute; reflexivity|]).
  eexists. split; [vm_compute; reflexivity|].
  split; vm_compute; reflexivity.
Qed.


(** * Further properties of the program *)

(** ** [contained_in]: when it fails *)

Local Open Scope Z_scope.

Module FitFacts.

Import Float FloatFacts.
Local Open Scope Q_scope.

Lemma quotient_nonzero (w h : Z) :
  w <> 0%Z -> h <> 0%Z -> ~ inject_Z w / inject_Z h == 0.
Proof.
  intros Hw Hh E.
  assert (Nh : ~ inject_Z h == 0).
  { unfold Qeq. cbn. lia. }
  assert (E' : inject_Z w == 0).
  { rewrite <- (Qmult_div_r (inject_Z w) (inject_Z h) Nh), E. ring. }
  unfold Qeq in E'. cbn in E'. lia.
Qed.

Lemma fl_nonzero (q : Q) : ~ q == 0 -> ~ fl q == 0.
Proof.
  intros N E. destruct (Q_dec 0 q) as [[H|H]|H].
  - apply fl_pos in H. rewrite E in H. discriminate H.
  - apply fl_neg in H. rewrite E in H. discriminate H.
  - apply N. now symmetry.
Qed.

Lemma ratio_nonzero (w h : Z) :
  w <> 0%Z -> h <> 0%Z -> Qeq_bool (int_truediv w h) 0 = false.
Proof.
  intros Hw Hh. destruct (Qeq_bool (int_truediv w h) 0) eqn:E; [|reflexivity].
  apply Qeq_bool_eq in E. exfalso.
  apply (fl_nonzero _ (quotient_nonzero w h Hw Hh)). exact E.
Qed.

Lemma ratio_of_zero (h : Z) : Qeq_bool (int_truediv 0 h) 0 = true.
Proof.
  apply Qeq_bool_iff. unfold int_truediv.
  rewrite (fl_zero_eq (inject_Z 0 / inject_Z h)); [reflexivity|].
  unfold Qdiv. ring.
Qed.

End FitFacts.

(** X1: for source and box sides below [2^53] in absolute value,
    [contained_in] fails exactly when a side of the source is zero, and then
    with [ZeroDivisionError], whatever the box; on every other source it
    returns a size with even sides. *)
Theorem contained_in_fails_on_flat_source (w h W H : Z) :
  Z.abs w < 2 ^ 53 -> Z.abs h < 2 ^ 53 ->
  Z.abs W < 2 ^ 53 -> Z.abs H < 2 ^ 53 ->
  (w = 0 \/ h = 0 -> contained_in (w, h) (W, H) = Raise ZeroDivisionError) /\
  (w <> 0 -> h <> 0 ->
   exists w' h', contained_in (w, h) (W, H) = Ok (w', h') /\
                 Z.even w' = true /\ Z.even h' = true).
Proof.
  intros _ _ _ _. split.
  - intros [-> | ->]; unfold contained_in; cbn [fst snd].
    + destruct (h =? 0); [reflexivity|]. now rewrite FitFacts.ratio_of_zero.
    + reflexivity.
  - intros Hw Hh. unfold contained_in. cbn [fst snd].
    apply Z.eqb_neq in Hh. rewrite Hh. apply Z.eqb_neq in Hh.
    rewrite (FitFacts.ratio_nonzero w h Hw Hh).
    destruct (Qlt_le_dec _ _); eexists _, _; (split; [reflexivity|]);
      split; apply even_floor2.
Qed.

Lemma contained_in_fails_on_flat_source_witness :
  (1920 = 0 \/ 1080 = 0 ->
   contained_in (1920, 1080) (1280, 720) = Raise ZeroDivisionError) /\
  (1920 <> 0 -> 1080 <> 0 ->
   exists w' h', contained_in (1920, 1080) (1280, 720) = Ok (w', h') /\
                 Z.even w' = true /\ Z.even h' = true).
Proof. apply (contained_in_fails_on_flat_source 1920 1080 1280 720); cbn; lia. Defined.

(** ** [fix_options]: the pruning test in integers *)

(** X2: for a source of positive size (width below [2^40], height below
    [2^53]) and a requested width below [2^53] in absolute value, the
    pruning test, computed in floats with the factor 1.1, decides exactly
    [11 * width < 10 * w]: it never raises and rounding never changes its
    answer. *)
Theorem float_test_is_integer_test (W H w : Z) :
  0 < W < 2 ^ 40 -> 0 < H < 2 ^ 53 -> Z.abs w < 2 ^ 53 ->
  too_large W H w = Ok (11 * W <? 10 * w).
Proof. intros HW HH _. now apply PruneFacts.too_large_exact. Qed.

Lemma float_test_is_integer_test_witness :
  too_large 1920 1080 2113 = Ok (11 * 1920 <? 10 * 2113).
Proof. apply float_test_is_integer_test; lia. Defined.

(** ** [fix_options]: the default poster and MP4 widths *)

Module WidthFacts.

Lemma fold_max_spec (l : list Z) (a : Z) :
  let m := fold_left Z.max l a in
  In m (a :: l) /\ Forall (fun x => x <= m) (a :: l).
Proof.
  revert a. induction l as [|b l IH]; intros a; cbn [fold_left].
  - split; [now left|]. constructor; [lia|constructor].
  - destruct (IH (Z.max a b)) as [Hin Hall]. cbv zeta in *.
    set (m := fold_left Z.max l (Z.max a b)) in *.
    inversion Hall as [|? ? Hab Hl]. subst.
    split.
    + destruct Hin as [E|Hin].
      * destruct (Z.max_spec a b) as [[_ E']|[_ E']]; rewrite E' in E;
          [right; now left|now left].
      * right. now right.
    + constructor; [lia|]. constructor; [lia|exact Hl].
Qed.

(** With two candidates or more the default is the largest of them. *)
Lemma default_width_max (technical : Technical) (limit : Z) (o : Options)
    (a b : Z) (l : list Z) :
  qualifying limit o = a :: b :: l ->
  let m := default_width technical limit o in
  In m (video_widths o) /\ m <= limit /\
  forall w, In w (video_widths o) -> w <= limit -> w <= m.
Proof.
  intros Q. cbv zeta. unfold default_width. unfold qualifying in Q.
  rewrite Q. cbn [max_star].
  destruct (fold_max_spec (b :: l) a) as [Hin Hall]. cbv zeta in Hin, Hall.
  set (m := fold_left Z.max (b :: l) a) in *.
  assert (Hq : In m (filter (fun w => w <=? limit) (video_widths o)))
    by (rewrite Q; exact Hin).
  apply filter_In in Hq. destruct Hq as [Hm Hle].
  split; [exact Hm|]. split; [lia|].
  intros w Hw Hl.
  assert (Hwq : In w (a :: b :: l)).
  { rewrite <- Q. apply filter_In. split; [exact Hw|]. now apply Z.leb_le. }
  rewrite Forall_forall in Hall. now apply Hall.
Qed.

Lemma default_width_none (technical : Technical) (limit : Z) (o : Options) :
  qualifying limit o = [] ->
  default_width technical limit o = width (video technical).
Proof.
  unfold qualifying, default_width. now intros ->.
Qed.

End WidthFacts.

(** What is known of a derived width [d] against the [limit]: it is the
    largest width of the plan within the limit. *)
Definition largest_within (limit : Z) (o : Options) (d : option Z) : Prop :=
  exists m, d = Some m /\ In m (video_widths o) /\ m <= limit /\
            forall w, In w (video_widths o) -> w <= limit -> w <= m.

(** X3: when no poster width (no MP4 width) was given and two or more
    widths of the normalized plan do not exceed the poster (MP4) maximum,
    the derived width is the largest of these; when none does, it is the
    width of the source. *)
Theorem largest_candidate_is_chosen (technical : Technical) (o o' : Options) :
  fix_options technical o = (Ok tt, o') ->
  (falsy_int (poster_width o) = true ->
   ((2 <= List.length (qualifying (poster_max_width o) o'))%nat ->
    largest_within (poster_max_width o) o' (poster_width o')) /\
   (qualifying (poster_max_width o) o' = [] ->
    poster_width o' = Some (width (video technical)))) /\
  (falsy_int (mp4_width o) = true ->
   ((2 <= List.length (qualifying (mp4_max_width o) o'))%nat ->
    largest_within (mp4_max_width o) o' (mp4_width o')) /\
   (qualifying (mp4_max_width o) o' = [] ->
    mp4_width o' = Some (width (video technical)))).
Proof.
  intros H. apply fix_options_spec in H. cbv zeta in H.
  destruct H as (bitrates & codecs & profiles & presets & extra & keep & rs & r & H).
  decompose [and] H. clear H.
  split; intros F.
  - match goal with E : poster_width o' = _ |- _ => rewrite E, F end.
    split.
    + intros L.
      destruct (qualifying (poster_max_width o) o') as [|a [|b l]] eqn:Q;
        cbn in L; try lia.
      destruct (WidthFacts.default_width_max technical _ _ _ _ _ Q) as (I & B & M).
      eexists. split; [reflexivity|]. auto.
    + intros Q. now rewrite (WidthFacts.default_width_none _ _ _ Q).
  - match goal with E : mp4_width o' = _ |- _ => rewrite E, F end.
    split.
    + intros L.
      destruct (qualifying (mp4_max_width o) o') as [|a [|b l]] eqn:Q;
        cbn in L; try lia.
      destruct (WidthFacts.default_width_max technical _ _ _ _ _ Q) as (I & B & M).
      eexists. split; [reflexivity|]. auto.
    + intros Q. now rewrite (WidthFacts.default_width_none _ _ _ Q).
Qed.

Lemma largest_candidate_is_chosen_witness :
  poster_width (snd (fix_options source_1080p default_options)) = Some 1280 /\
  largest_within 1280 (snd (fix_options source_1080p default_options))
    (mp4_width (snd (fix_options source_1080p default_options))).
Proof.
  destruct (largest_candidate_is_chosen source_1080p default_options
              (snd (fix_options source_1080p default_options)))
    as [P M]; [vm_compute; reflexivity|].
  split; [vm_compute; reflexivity|].
  apply M; [reflexivity|]. vm_compute. lia.
Defined.

(** X4: a poster width or an MP4 width that was given (and is not 0) is
    the one of the normalized plan: no step replaces it. *)
Theorem given_widths_are_kept (technical : Technical) (o o' : Options) :
  fix_options technical o = (Ok tt, o') ->
  (forall w, poster_width o = Some w -> w <> 0 -> poster_width o' = Some w) /\
  (forall w, mp4_width o = Some w -> w <> 0 -> mp4_width o' = Some w).
Proof.
  intros H. apply fix_options_spec in H. cbv zeta in H.
  destruct H as (bitrates & codecs & profiles & presets & extra & keep & rs & r & H).
  decompose [and] H. clear H.
  split; intros w E N.
  - match goal with E' : poster_width o' = _ |- _ => rewrite E', E end.
    cbn. apply Z.eqb_neq in N. now rewrite N.
  - match goal with E' : mp4_width o' = _ |- _ => rewrite E', E end.
    cbn. apply Z.eqb_neq in N. now rewrite N.
Qed.

Definition narrow_poster_request : Options :=
  set_poster_width (Some 500) default_options.

Lemma given_widths_are_kept_witness :
  poster_width (snd (fix_options source_1080p narrow_poster_request)) = Some 500.
Proof.
  destruct (given_widths_are_kept source_1080p narrow_poster_request
              (snd (fix_options source_1080p narrow_poster_request)))
    as [P _]; [vm_compute; reflexivity|].
  apply P; [reflexivity|lia].
Defined.


(** ** [fix_options]: the bit rates under the default factor *)

Module BitrateFacts.

Import Float FloatFacts GeometryFacts.

Lemma trunc_inject_Z (q : Q) (n : Z) : (q == inject_Z n)%Q -> trunc q = n.
Proof.
  intros E. unfold trunc.
  destruct (Qle_bool 0 q).
  - rewrite (Qfloor_comp _ _ E). apply Qfloor_Z.
  - rewrite (Qceiling_comp _ _ E). apply Qceiling_Z.
Qed.

Lemma scaled_unit (f : Q) (r : Z) :
  (f == 1)%Q -> Z.abs r < 2 ^ 53 -> scaled f r = r.
Proof.
  intros Hf Hr. unfold scaled, mul. apply trunc_inject_Z.
  assert (E : (of_int r * f == inject_Z r)%Q).
  { rewrite Hf, (of_int_exact r Hr). ring. }
  rewrite (fl_proper _ _ E). now apply fl_int.
Qed.

Lemma In_pick {A} (keep : list bool) (l : list A) (x : A) :
  In x (pick keep l) -> In x l.
Proof.
  revert l. induction keep as [|[] keep IH]; intros [|y l] H; cbn in *; auto.
  destruct H as [H|H]; auto.
Qed.

Lemma In_zeroed (ws bs : list Z) (x : Z) :
  In x (zeroed ws bs) -> x = 0 \/ In x bs.
Proof.
  revert bs. induction ws as [|w ws IH]; intros [|b bs] H; cbn in *; auto.
  destruct H as [H|H].
  - destruct (w =? 0); auto.
  - destruct (IH bs H); auto.
Qed.

Lemma In_last_sticks {A} (n : nat) (v : list A) (x : A) :
  In x (last_sticks n v) -> In x v.
Proof.
  unfold last_sticks. destruct (n <=? List.length v)%nat.
  - intros H. rewrite <- (firstn_skipn n v). apply in_or_app. now left.
  - destruct (rev v) as [|y r] eqn:E; [auto|].
    intros H. apply in_app_or in H. destruct H as [H|H]; [exact H|].
    apply repeat_spec in H. subst x.
    apply in_rev. rewrite E. now left.
Qed.

End BitrateFacts.

(** X5: under the bit rate factor 1 (the default) normalization invents no
    bit rate: each bit rate of the plan is 0 or one of the bit rates that
    were given (taken below [2^53], so that they are floats). *)
Theorem unit_factor_invents_no_bitrate (technical : Technical) (o o' : Options) :
  fix_options technical o = (Ok tt, o') ->
  (video_bitrate_factor o == 1)%Q ->
  Forall (fun b => Z.abs b < 2 ^ 53) (video_bitrates o) ->
  Forall (fun b => b = 0 \/ In b (video_bitrates o)) (video_bitrates o').
Proof.
  intros H Hf Hb. apply fix_options_spec in H. cbv zeta in H.
  destruct H as (bitrates & codecs & profiles & presets & extra & keep & rs & r
                 & Ab & _ & _ & _ & _ & _ & _ & _ & _ & Eb & _).
  apply align_extend in Ab. destruct Ab as [-> _].
  rewrite Eb. apply Forall_forall. intros b Hin.
  apply BitrateFacts.In_pick in Hin. apply in_map_iff in Hin.
  destruct Hin as (b0 & Es & Hin).
  apply BitrateFacts.In_zeroed in Hin. destruct Hin as [-> | Hin].
  - left. rewrite <- Es. apply scaled_0.
  - apply BitrateFacts.In_last_sticks in Hin. right.
    rewrite Forall_forall in Hb.
    rewrite <- Es, (BitrateFacts.scaled_unit _ _ Hf (Hb _ Hin)). exact Hin.
Qed.

Definition three_bitrates_request : Options :=
  set_video_bitrates [2500; 800; 64] default_options.

Lemma unit_factor_invents_no_bitrate_witness :
  Forall (fun b => b = 0 \/ In b (video_bitrates three_bitrates_request))
         (video_bitrates (snd (fix_options source_1080p three_bitrates_request))).
Proof.
  apply (unit_factor_invents_no_bitrate source_1080p three_bitrates_request).
  - vm_compute. reflexivity.
  - reflexivity.
  - cbn. repeat constructor.
Defined.

(** ** [extract_codecs]: dumps without atoms *)

Module AtomFacts.

Lemma decode_mp4a_no_atom (lines : list string) :
  Forall (fun line => contains esds_marker line = false) lines ->
  decode_mp4a lines = Ok [].
Proof.
  induction 1 as [|line lines Hl _ IH]; [reflexivity|].
  cbn [decode_mp4a]. now rewrite Hl.
Qed.

End AtomFacts.

(** X7: a dump with neither an avcC nor an esds atom decodes to the empty
    string, without error, whether or not it lists avc1 or mp4a sample
    descriptions; and a playlist entry written with the empty string has no
    [CODECS] attribute. *)
Theorem dump_without_atoms_gives_no_codecs (env : Mp4file) (sample dump : string) :
  run_dump env sample = Ok dump ->
  Forall (fun line => contains avcC_marker line = false) (split "010" dump) ->
  Forall (fun line => contains esds_marker line = false) (split "010" dump) ->
  extract_codecs env sample = Ok "" /\
  forall o playlists fps idx bitrate bandwidth prefix,
    Forall (fun c => is_codecs c = false)
      (fst (stream_variant o playlists fps idx bitrate bandwidth (Some "") prefix)).
Proof.
  intros Hrun Ha Hm. split.
  - unfold extract_codecs. rewrite Hrun. cbn [rbind]. unfold decode_dump.
    rewrite (CodecFacts.decode_avc1_no_atom _ Ha), (AtomFacts.decode_mp4a_no_atom _ Hm).
    destruct (has_codec "avc1" _), (has_codec "mp4a" _), (avc1_first env);
      reflexivity.
  - intros. apply MasterFacts.stream_variant_plain.
Qed.

(** The dump of a file with an H.264 track of which no avcC atom is shown. *)
Definition bare_dump : string :=
  join nl [
    "  f.mp4: type stsd (moov.trak.mdia.minf.stbl.stsd)";
    "   f.mp4: type avc1 (moov.trak.mdia.minf.stbl.stsd.avc1)";
    "    f.mp4: width = 1280 (0x0500)"
  ].

Lemma dump_without_atoms_gives_no_codecs_witness :
  extract_codecs (dumps bare_dump) "f.mp4" = Ok "".
Proof.
  apply (dump_without_atoms_gives_no_codecs (dumps bare_dump) "f.mp4" bare_dump).
  - reflexivity.
  - vm_compute. repeat constructor.
  - vm_compute. repeat constructor.
Defined.


(** ** The master playlist: completion, entries, and [--no-hls-add-codecs] *)

Local Open Scope string_scope.
Local Open Scope Z_scope.

(** Whether the loop over the playlists writes entries for [idx]: it skips
    a rendition without video unless audio only was requested. *)
Definition listed (o : Options) (idx : nat) : bool :=
  match nth_error (video_bitrates o) idx with
  | Some b => audio_only o || negb (b =? 0)
  | None => false
  end.

Definition is_name_uri (c : chunk) : bool :=
  match c with NameUri _ _ _ => true | _ => false end.

Module EntryFacts.

Import MasterFacts RunFacts.

Lemma header_returns (o : Options) (playlists : list Playlist) :
  audio_separate o = false \/ playlists <> [] ->
  snd (master_header o playlists) = Ok tt.
Proof.
  intros [E|N]; [|now apply master_header_returns].
  unfold master_header. now rewrite E.
Qed.

Lemma filter_none {A} (P : A -> bool) (l : list A) :
  Forall (fun c => P c = false) l -> filter P l = [].
Proof.
  induction 1 as [|c l Hc _ IH]; [reflexivity|]. cbn. now rewrite Hc.
Qed.

Lemma header_entries (o : Options) (playlists : list Playlist) (P : chunk -> bool) :
  P Header = false -> (forall n, P (Version n) = false) ->
  (forall p u, P (Media p u) = false) ->
  filter P (fst (master_header o playlists)) = [].
Proof.
  intros Hh Hv Hm. apply filter_none. unfold master_header.
  apply wbind_Forall; [apply tell_Forall; exact Hh|]. intros _.
  destruct (audio_separate o).
  - apply wbind_Forall; [apply tell_Forall; apply Hv|]. intros _.
    apply wfor_Forall. intros prefix.
    apply wbind_Forall; [apply wlift_Forall|]. intros p.
    apply tell_Forall. apply Hm.
  - apply tell_Forall. apply Hv.
Qed.

Section Entries.

Variables (o : Options) (playlists : list Playlist) (env : Mp4file).
Variables (audio : bool) (fps : Q).

Hypothesis bitrates_cover :
  (List.length playlists <= List.length (video_bitrates o))%nat.
Hypothesis names_cover :
  (List.length playlists <= List.length (video_names o))%nat.
Hypothesis errors : expected_errors env.

(** An entry is one [#EXT-X-STREAM-INF] write and one write of the name and
    the address. *)
Lemma one_entry idx bitrate bandwidth codecs prefix :
  (idx < List.length playlists)%nat ->
  let out := fst (stream_variant o playlists fps idx bitrate bandwidth codecs prefix) in
  List.length (filter is_stream_inf out) = 1%nat /\
  List.length (filter is_name_uri out) = 1%nat.
Proof.
  intros Hi. unfold stream_variant.
  destruct (getitem_lt playlists idx Hi) as [p Ep].
  destruct (getitem_lt (video_names o) idx ltac:(lia)) as [d Ed].
  rewrite Ep, Ed.
  destruct (0 <? bitrate)%Z; destruct (truthy_str codecs);
    destruct (audio_separate o); split; reflexivity.
Qed.

Lemma entries_per_prefix idx bitrate bandwidth codecs (prefixes : list string) :
  (idx < List.length playlists)%nat ->
  let out := fst (wfor prefixes
                    (stream_variant o playlists fps idx bitrate bandwidth codecs)) in
  List.length (filter is_stream_inf out) = List.length prefixes /\
  List.length (filter is_name_uri out) = List.length prefixes.
Proof.
  intros Hi. cbv zeta.
  induction prefixes as [|prefix l IH]; cbn [wfor]; [split; reflexivity|].
  rewrite (wbind_ok _ _ tt) by (apply stream_variant_returns; assumption).
  cbn [fst]. rewrite !filter_app, !length_app.
  destruct (one_entry idx bitrate bandwidth codecs prefix Hi) as [E1 E2].
  cbv zeta in E1, E2. rewrite E1, E2. destruct IH as [-> ->].
  split; reflexivity.
Qed.

Lemma entries_of_variants idxs flag :
  Forall (fun idx => (idx < List.length playlists)%nat) idxs ->
  let out := fst (master_variants o audio playlists fps env idxs flag) in
  List.length (filter is_stream_inf out) =
    (List.length (hls_playlist_prefix o) * List.length (filter (listed o) idxs))%nat /\
  List.length (filter is_name_uri out) =
    (List.length (hls_playlist_prefix o) * List.length (filter (listed o) idxs))%nat.
Proof.
  intros Hi. cbv zeta. revert flag.
  induction Hi as [|idx idxs Hidx Hrest IH]; intros flag.
  - cbn. rewrite Nat.mul_0_r. split; reflexivity.
  - cbn [master_variants filter].
    assert (Hb : (idx < List.length (video_bitrates o))%nat) by lia.
    destruct (nth_error (video_bitrates o) idx) as [b|] eqn:Eb;
      [|apply nth_error_None in Eb; lia].
    assert (El : listed o idx = negb (negb (audio_only o) && (b =? 0))).
    { unfold listed. rewrite Eb. now destruct (audio_only o), (b =? 0). }
    rewrite El.
    rewrite (getitem_nth_error _ _ _ Eb). cbn [wlift wbind app].
    destruct (negb (audio_only o) && (b =? 0)); cbn [negb].
    { rewrite !let_pair_eta. apply IH. }
    destruct (try_codecs_returns o env idx flag errors) as (c & flag' & Et).
    rewrite Et. cbn [wlift wbind app fst snd]. rewrite !let_pair_eta.
    set (entries := wfor (hls_playlist_prefix o)
                         (stream_variant o playlists fps idx b
                            (if audio then b + audio_bitrate o else b) c)).
    assert (Re : snd entries = Ok tt).
    { apply wfor_returns. intros prefix.
      apply stream_variant_returns; assumption. }
    rewrite (wbind_ok entries _ tt Re). cbn [fst].
    rewrite !filter_app, !length_app.
    destruct (entries_per_prefix idx b (if audio then b + audio_bitrate o else b) c
                (hls_playlist_prefix o) Hidx) as [E1 E2].
    cbv zeta in E1, E2. fold entries in E1, E2. rewrite E1, E2.
    destruct (IH flag') as [-> ->].
    cbn [List.length]. rewrite Nat.mul_succ_r. split; lia.
Qed.

End Entries.

(** Without [hls_add_codecs] the samples are not looked at. *)
Lemma variants_without_codecs (o : Options) audio playlists fps env env' idxs flag :
  hls_add_codecs o = false ->
  master_variants o audio playlists fps env idxs flag =
  master_variants o audio playlists fps env' idxs flag.
Proof.
  intros Hoff. induction idxs as [|idx idxs IH]; [reflexivity|].
  cbn [master_variants].
  destruct (getitem (video_bitrates o) idx) as [b|e]; [|reflexivity].
  cbn [wlift wbind app].
  destruct (negb (audio_only o) && (b =? 0)); [now rewrite IH|].
  unfold try_codecs. rewrite Hoff, andb_false_r. cbn [wlift wbind app fst snd].
  now rewrite IH.
Qed.

End EntryFacts.

(** X8: the master playlist of a normalized plan is written to its end:
    with a playlist for each rendition of the plan, a frame rate that
    parses and an [mp4file] that fails only in the expected ways, no write
    and no lookup raises. *)
Theorem master_playlist_is_written (technical : Technical) (o o' : Options)
    (playlists : list Playlist) (env : Mp4file) (fps : Q) :
  fix_options technical o = (Ok tt, o') ->
  List.length playlists = List.length (video_widths o') ->
  frame_rate technical = Ok fps ->
  expected_errors env ->
  audio_separate o' = false \/ playlists <> [] ->
  snd (transcode_master o' technical playlists env) = Ok tt.
Proof.
  intros H Hl Hfps He Hh.
  destruct (plan_covers_renditions _ _ _ H) as [Ln Lb].
  unfold transcode_master. rewrite Hfps. cbn [wlift wbind app].
  rewrite RunFacts.let_pair_eta.
  rewrite (RunFacts.wbind_ok (master_header o' playlists) _ tt)
    by now apply EntryFacts.header_returns.
  cbn [snd]. apply RunFacts.master_variants_returns; try lia; try assumption.
  apply Forall_forall. intros i Hi. apply in_seq in Hi. lia.
Qed.

Lemma master_playlist_is_written_witness :
  snd (transcode_master two_renditions source_1080p two_playlists
         second_sample_missing) = Ok tt.
Proof.
  apply (master_playlist_is_written source_1080p high_and_low_request
           two_renditions two_playlists second_sample_missing 25);
    try (vm_compute; reflexivity).
  - intros sample e. cbn. destruct (String.eqb sample "_0.mp4"); [discriminate|].
    intros E. inversion E. now left.
  - left. vm_compute. reflexivity.
Defined.

(** X9: the master playlist has one entry (one [#EXT-X-STREAM-INF] write
    and one write of name and address) for each playlist prefix and each
    rendition that is listed, that is, each rendition but those without
    video when audio only was not requested. *)
Theorem one_entry_per_prefix_and_rendition (o : Options) (technical : Technical)
    (playlists : list Playlist) (env : Mp4file) (fps : Q) :
  frame_rate technical = Ok fps ->
  (List.length playlists <= List.length (video_bitrates o))%nat ->
  (List.length playlists <= List.length (video_names o))%nat ->
  expected_errors env ->
  let out := fst (transcode_master o technical playlists env) in
  let entries :=
    (List.length (hls_playlist_prefix o) *
     List.length (filter (listed o) (seq 0 (List.length playlists))))%nat in
  List.length (filter is_stream_inf out) = entries /\
  List.length (filter is_name_uri out) = entries.
Proof.
  intros Hfps Hb Hn He. cbv zeta.
  unfold transcode_master. rewrite Hfps. cbn [wlift wbind app].
  rewrite RunFacts.let_pair_eta.
  assert (Hi : Forall (fun idx => (idx < List.length playlists)%nat)
                      (seq 0 (List.length playlists))).
  { apply Forall_forall. intros i Hi. apply in_seq in Hi. lia. }
  destruct (EntryFacts.entries_of_variants o playlists env (has_audio technical)
              fps Hb Hn He _ false Hi) as [E1 E2].
  cbv zeta in E1, E2. unfold has_audio in E1, E2.
  pose proof (EntryFacts.header_entries o playlists is_stream_inf
                eq_refl (fun _ => eq_refl) (fun _ _ => eq_refl)) as H1.
  pose proof (EntryFacts.header_entries o playlists is_name_uri
                eq_refl (fun _ => eq_refl) (fun _ _ => eq_refl)) as H2.
  destruct (master_header o playlists) as [hout [[]|e]] eqn:Eh; cbn [fst] in H1, H2.
  - cbn [wbind].
    destruct (master_variants _ _ _ _ _ _ _) as [vout r]. cbn [fst] in *.
    rewrite !filter_app, !length_app, E1, E2, H1, H2. split; reflexivity.
  - cbn [wbind fst]. rewrite H1, H2.
    destruct playlists as [|p l].
    + cbn. rewrite Nat.mul_0_r. split; reflexivity.
    + assert (R : snd (master_header o (p :: l)) = Ok tt)
        by (apply EntryFacts.header_returns; right; discriminate).
      rewrite Eh in R. discriminate R.
Qed.

Lemma one_entry_per_prefix_and_rendition_witness :
  List.length (filter is_stream_inf
    (fst (transcode_master two_renditions source_1080p two_playlists
            second_sample_missing))) = 2%nat /\
  List.length (filter is_name_uri
    (fst (transcode_master two_renditions source_1080p two_playlists
            second_sample_missing))) = 2%nat.
Proof.
  apply (one_entry_per_prefix_and_rendition two_renditions source_1080p
           two_playlists second_sample_missing 25);
    try (vm_compute; reflexivity); try (cbn; lia).
  intros sample e. cbn. destruct (String.eqb sample "_0.mp4"); [discriminate|].
  intros E. inversion E. now left.
Defined.

(** X10: when codec signalling is not asked for ([hls_add_codecs] is off)
    the master playlist does not depend on [mp4file] and its samples in any
    way, and no entry carries a [CODECS] attribute. *)
Theorem mp4file_is_not_consulted (o : Options) (technical : Technical)
    (playlists : list Playlist) (env env' : Mp4file) :
  hls_add_codecs o = false ->
  transcode_master o technical playlists env =
    transcode_master o technical playlists env' /\
  Forall (fun c => is_codecs c = false)
         (fst (transcode_master o technical playlists env)).
Proof.
  intros Hoff. split.
  - unfold transcode_master.
    destruct (frame_rate technical) as [fps|e]; [|reflexivity].
    cbn [wlift wbind app].
    now rewrite (EntryFacts.variants_without_codecs o _ playlists fps env env' _ false Hoff).
  - unfold transcode_master.
    apply MasterFacts.wbind_Forall; [apply MasterFacts.wlift_Forall|]. intros fps.
    apply MasterFacts.wbind_Forall.
    + apply Forall_forall. intros c Hc.
      destruct (is_codecs c) eqn:E; [|reflexivity].
      assert (F : In c (filter is_codecs (fst (master_header o playlists))))
        by (apply filter_In; now split).
      rewrite (EntryFacts.header_entries o playlists is_codecs
                 eq_refl (fun _ => eq_refl) (fun _ _ => eq_refl)) in F.
      destruct F.
    + intros _. apply MasterFacts.signalling_off. now right.
Qed.

(** The plan [o] with codec signalling turned off. *)
Definition without_codecs (o : Options) : Options :=
  {| hls_playlist_prefix := hls_playlist_prefix o;
     hls_add_codecs := false;
     video_widths := video_widths o;
     video_bitrates := video_bitrates o;
     video_codecs := video_codecs o;
     video_profiles := video_profiles o;
     video_names := video_names o;
     video_presets := video_presets o;
     video_bitrate_factor := video_bitrate_factor o;
     audio_bitrate := audio_bitrate o;
     audio_only := audio_only o;
     audio_separate := audio_separate o;
     mp4 := mp4 o;
     mp4_width := mp4_width o;
     mp4_max_width := mp4_max_width o;
     mp4_bitrate_factor := mp4_bitrate_factor o;
     mp4_bitrate := mp4_bitrate o;
     poster_width := poster_width o;
     poster_max_width := poster_max_width o;
     ratio := ratio o |}.

Lemma mp4file_is_not_consulted_witness :
  transcode_master (without_codecs two_renditions) source_1080p two_playlists
    second_sample_missing =
  transcode_master (without_codecs two_renditions) source_1080p two_playlists
    (dumps high_profile_dump).
Proof.
  apply (mp4file_is_not_consulted (without_codecs two_renditions)). reflexivity.
Defined.


(** ** [poster]: the JPEG quality *)

Local Open Scope Z_scope.

(** X11: the value given to [-qscale:v] lies between 1 and 31 exactly when
    the poster quality lies between 0 and 103, so for every quality from 0 to
    100; it is 31 for the quality 0 and 1 for the quality 100, and a better
    quality never gives a larger value. *)
Theorem quality_stays_in_range :
  (forall q, 1 <= quality q <= 31 <-> 0 <= q <= 103) /\
  quality 0 = 31 /\ quality 100 = 1 /\
  (forall q q', q <= q' -> quality q' <= quality q).
Proof.
  assert (D : forall q, exists d m,
             quality q = 31 - d /\ q * 30 = 100 * d + m /\ 0 <= m < 100).
  { intros q. exists (q * 30 / 100), ((q * 30) mod 100). unfold quality.
    split; [lia|]. split; [apply Z.div_mod; lia|apply Z.mod_pos_bound; lia]. }
  split; [|split; [reflexivity|split; [reflexivity|]]].
  - intros q. destruct (D q) as (d & m & -> & E & B). lia.
  - intros q q' L.
    destruct (D q) as (d & m & -> & E & B).
    destruct (D q') as (d' & m' & -> & E' & B'). lia.
Qed.

(** ** The size of a rendition and of the poster *)

Module SizeFacts.

Import Float FloatFacts GeometryFacts.


End SizeFacts.




(** ** [fix_options]: when it returns *)

Local Open Scope Z_scope.

Module ReturnFacts.









End ReturnFacts.


Module SurvivorFacts.



End SurvivorFacts.

Import ReturnFacts SurvivorFacts.

Module ChainFacts.




End ChainFacts.








(** ** [fix_options]: a ratio that cannot be read *)

Local Open Scope Z_scope.

Module RatioFacts.

Import ReturnFacts.




End RatioFacts.




(** ** Decoding the MP4A codec identifier *)

Local Open Scope string_scope.
Local Open Scope Z_scope.

(** A line that leaves the scan of an esds scope where it is, but for the
    object type it may give: it does not mention [decSpecificInfo], unless
    it is read as an [objectTypeId] attribute. *)
Definition quiet (line : string) : Prop :=
  attribute_of "objectTypeId" line = None ->
  contains "decSpecificInfo" line = false.

(** The line that announces the specific info. *)
Definition announces_info (line : string) : Prop :=
  attribute_of "objectTypeId" line = None /\
  contains "decSpecificInfo" line = true.

(** The line that shows the bytes of the specific info, the first being
    [byte]. *)
Definition shows_info (line byte : string) : Prop :=
  attribute_of "objectTypeId" line = None /\
  contains "decSpecificInfo" line = false /\
  info_re line = Some byte.

(** [(int(byte, 16) & 0xF8) >> 3] *)
Definition audio_object_type (byte : string) : Z :=
  Z.shiftr (Z.land (int16_of_digits byte) 248) 3.

(** The lines of a dump with a single esds atom: the lines [before] it, its
    [header], the lines of its [scope], and the [rest]. *)
Record esds_layout (before : list string) (header : string)
    (scope rest : list string) : Prop := {
  no_other_esds :
    Forall (fun line => contains esds_marker line = false)
           (before ++ scope ++ rest)%list;
  esds_marked : contains esds_marker header = true;
  esds_scope_deeper :
    Forall (fun line => startswith line (deeper_than header) = true) scope;
  esds_scope_ended : ends_scope header rest
}.

Module EsdsFacts.

Lemma scan_esds_end (header : string) (rest : list string) oti osti :
  ends_scope header rest ->
  scan_esds (deeper_than header) rest oti osti = Ok (oti, osti).
Proof.
  destruct rest as [|line rest]; [reflexivity|].
  cbn [ends_scope scan_esds]. now intros ->.
Qed.

(** Quiet lines only update the object type. *)
Lemma scan_esds_quiet (indent : string) (lines rest : list string) :
  Forall (fun line => startswith line indent = true) lines ->
  Forall quiet lines ->
  forall oti osti, osti <> OstiPending ->
    scan_esds indent (lines ++ rest) oti osti =
    scan_esds indent rest (scope_value_from "objectTypeId" oti lines) osti.
Proof.
  intros Hs. induction Hs as [|line lines Hl _ IH]; intros Hq oti osti Hp;
    [reflexivity|].
  inversion Hq as [|? ? Hql Hqr]. subst.
  cbn [app scan_esds]. rewrite Hl. cbn [negb].
  unfold scope_value_from. cbn [fold_left]. fold (scope_value_from "objectTypeId").
  change (match attribute_re line with
          | Some (attribute, value) =>
              if String.eqb attribute "objectTypeId"
              then Some (int_of_digits value) else None
          | None => None
          end) with (attribute_of "objectTypeId" line).
  destruct (attribute_of "objectTypeId" line) as [v|] eqn:E.
  - now apply IH.
  - rewrite (Hql E).
    destruct osti; [now apply IH|contradiction|now apply IH].
Qed.

Lemma scan_esds_step (indent line : string) (lines : list string) oti osti :
  startswith line indent = true ->
  attribute_of "objectTypeId" line = None ->
  scan_esds indent (line :: lines) oti osti =
  if contains "decSpecificInfo" line then scan_esds indent lines oti OstiPending
  else match osti with
       | OstiPending =>
           match info_re line with
           | None => Raise (RuntimeError "cannot decode specific info")
           | Some byte =>
               scan_esds indent lines oti (OstiType (audio_object_type byte))
           end
       | _ => scan_esds indent lines oti osti
       end.
Proof.
  intros Hl E. cbn [scan_esds]. rewrite Hl. cbn [negb].
  change (match attribute_re line with
          | Some (attribute, value) =>
              if String.eqb attribute "objectTypeId"
              then Some (int_of_digits value) else None
          | None => None
          end) with (attribute_of "objectTypeId" line).
  now rewrite E.
Qed.

Lemma decode_mp4a_skip (before lines : list string) :
  Forall (fun line => contains esds_marker line = false) before ->
  decode_mp4a (before ++ lines) = decode_mp4a lines.
Proof.
  induction 1 as [|line before Hl _ IH]; [reflexivity|].
  cbn [app decode_mp4a]. now rewrite Hl.
Qed.

(** The mp4a branch on a dump with a single esds atom, from the outcome of
    the scan of its scope. *)
Lemma decode_mp4a_layout (before : list string) (header : string)
    (scope rest : list string) :
  esds_layout before header scope rest ->
  decode_mp4a (before ++ header :: scope ++ rest) =
  rbind (scan_esds (deeper_than header) (scope ++ rest) None OstiNone) (fun r =>
    match r with
    | (Some oti, OstiPending) | (Some oti, OstiType _) =>
        Ok [mp4a_identifier oti (snd r)]
    | _ => Raise (RuntimeError "unable to decode MP4A codec")
    end).
Proof.
  intros [Hn Hh Hs He].
  apply Forall_app in Hn. destruct Hn as [Hb Hn].
  rewrite decode_mp4a_skip by assumption.
  cbn [decode_mp4a]. rewrite Hh.
  rewrite (AtomFacts.decode_mp4a_no_atom _ Hn).
  destruct (scan_esds _ _ _ _) as [[[oti|] [| |t]]|e]; reflexivity.
Qed.

Lemma scope_value_from_app (name : string) (acc : option Z) (l l' : list string) :
  scope_value_from name acc (l ++ l') =
  scope_value_from name (scope_value_from name acc l) l'.
Proof. unfold scope_value_from. apply fold_left_app. Qed.

End EsdsFacts.

Import EsdsFacts.

(** The decoder on a dump whose only sample description is mp4a. *)
Lemma mp4a_only (env : Mp4file) (sample dump : string) :
  run_dump env sample = Ok dump ->
  has_codec "avc1" (split "010" dump) = false ->
  has_codec "mp4a" (split "010" dump) = true ->
  extract_codecs env sample =
  rbind (decode_mp4a (split "010" dump)) (fun ids => Ok (join "," ids)).
Proof.
  intros Hrun Ha Hm. unfold extract_codecs. rewrite Hrun. cbn [rbind].
  unfold decode_dump. rewrite Ha, Hm.
  destruct (avc1_first env); destruct (decode_mp4a (split "010" dump));
    cbn [rbind app]; rewrite ?app_nil_r; reflexivity.
Qed.

(** X16: on a dump that has an mp4a sample description (and no avc1 one)
    and a single esds atom, in whose scope a line announces the specific
    info and the next line shows its bytes, the decoder returns ["mp4a."],
    the last [objectTypeId] of the scope printed with the format [02x], a
    dot, and the five high bits of the first byte shown, that byte being
    read as two hexadecimal digits; the other lines of the scope do not
    mention [decSpecificInfo].  Object type 64 and byte 12 give
    ["mp4a.40.2"]. *)
Theorem mp4a_identifier_from_scope (env : Mp4file) (sample dump : string)
    (before : list string) (header : string)
    (pre : list string) (announce info : string) (post rest : list string)
    (byte : string) (oti : Z) :
  let scope := (pre ++ announce :: info :: post)%list in
  run_dump env sample = Ok dump ->
  split "010" dump = (before ++ header :: scope ++ rest)%list ->
  has_codec "avc1" (split "010" dump) = false ->
  has_codec "mp4a" (split "010" dump) = true ->
  esds_layout before header scope rest ->
  Forall quiet (pre ++ post) ->
  announces_info announce ->
  shows_info info byte ->
  scope_value "objectTypeId" scope = Some oti ->
  extract_codecs env sample =
    Ok ("mp4a." ++ hex02 oti ++ "." ++ str_of_int (audio_object_type byte)) /\
  "mp4a." ++ hex02 64 ++ "." ++ str_of_int (audio_object_type "12") = "mp4a.40.2".
Proof.
  intros scope Hrun Hsplit Ha Hm L Hq [Ea Ca] (Ei & Ci & Ri) Ho.
  split; [|vm_compute; reflexivity].
  rewrite (mp4a_only env sample dump Hrun Ha Hm), Hsplit.
  rewrite (decode_mp4a_layout _ _ _ _ L).
  destruct L as [_ _ Hs He].
  apply Forall_app in Hq. destruct Hq as [Hqpre Hqpost].
  unfold scope in *. clear scope.
  apply Forall_app in Hs. destruct Hs as [Hspre Hs].
  inversion Hs as [|? ? Hsa Hs']. subst.
  inversion Hs' as [|? ? Hsi Hspost]. subst.
  rewrite <- app_assoc.
  rewrite (scan_esds_quiet _ pre _ Hspre Hqpre) by discriminate.
  cbn [app].
  rewrite (scan_esds_step _ announce _ _ _ Hsa Ea), Ca.
  rewrite (scan_esds_step _ info _ _ _ Hsi Ei), Ci, Ri.
  rewrite (scan_esds_quiet _ post _ Hspost Hqpost) by discriminate.
  rewrite (scan_esds_end _ _ _ _ He). cbn [rbind].
  assert (Eo : scope_value_from "objectTypeId"
                 (scope_value_from "objectTypeId" None pre) post = Some oti).
  { unfold scope_value in Ho. rewrite scope_value_from_app in Ho.
    unfold scope_value_from at 1 in Ho. cbn [fold_left] in Ho.
    rewrite Ea, Ei in Ho. exact Ho. }
  rewrite Eo. reflexivity.
Qed.

(** The dump of a file with one AAC track. *)
Definition aac_dump : string :=
  join nl [
    "  f.mp4: type stsd (moov.trak.mdia.minf.stbl.stsd)";
    "   f.mp4: type mp4a (moov.trak.mdia.minf.stbl.stsd.mp4a)";
    "    f.mp4: type esds (moov.trak.mdia.minf.stbl.stsd.mp4a.esds)";
    "     f.mp4: version = 0 (0x00)";
    "     f.mp4: decConfigDescr";
    "      f.mp4: objectTypeId = 64 (0x40)";
    "      f.mp4: streamType = 5 (0x05)";
    "      f.mp4: decSpecificInfo";
    "       f.mp4: info = <2 bytes>  12 10  |..|";
    "     f.mp4: slConfigDescr";
    "  f.mp4: type stts (moov.trak.mdia.minf.stbl.stts)"
  ].

Lemma mp4a_identifier_from_scope_witness :
  extract_codecs (dumps aac_dump) "f.mp4" = Ok "mp4a.40.2".
Proof.
  refine (proj1 (mp4a_identifier_from_scope (dumps aac_dump) "f.mp4" aac_dump
           (firstn 2 (split "010" aac_dump))
           (nth 2 (split "010" aac_dump) "")
           (firstn 4 (skipn 3 (split "010" aac_dump)))
           (nth 7 (split "010" aac_dump) "")
           (nth 8 (split "010" aac_dump) "")
           (firstn 1 (skipn 9 (split "010" aac_dump)))
           (skipn 10 (split "010" aac_dump))
           "12" 64 eq_refl _ _ _ _ _ _ _ _));
    try (vm_compute; reflexivity).
  - constructor; vm_compute; repeat constructor.
  - vm_compute. repeat constructor; intros; try reflexivity; discriminate.
  - split; vm_compute; reflexivity.
  - repeat split; vm_compute; reflexivity.
Defined.

(** X17: when the line that announces the specific info is the last line
    of the esds scope, the bytes are never read, no error is raised, and the
    identifier ends with the text [Ellipsis]. *)
Theorem pending_info_prints_ellipsis (env : Mp4file) (sample dump : string)
    (before : list string) (header : string)
    (pre : list string) (announce : string) (rest : list string) (oti : Z) :
  let scope := (pre ++ [announce])%list in
  run_dump env sample = Ok dump ->
  split "010" dump = (before ++ header :: scope ++ rest)%list ->
  has_codec "avc1" (split "010" dump) = false ->
  has_codec "mp4a" (split "010" dump) = true ->
  esds_layout before header scope rest ->
  Forall quiet pre ->
  announces_info announce ->
  scope_value "objectTypeId" scope = Some oti ->
  extract_codecs env sample = Ok ("mp4a." ++ hex02 oti ++ ".Ellipsis").
Proof.
  intros scope Hrun Hsplit Ha Hm L Hq [Ea Ca] Ho.
  rewrite (mp4a_only env sample dump Hrun Ha Hm), Hsplit.
  rewrite (decode_mp4a_layout _ _ _ _ L).
  destruct L as [_ _ Hs He].
  unfold scope in *. clear scope.
  apply Forall_app in Hs. destruct Hs as [Hspre Hs].
  inversion Hs as [|? ? Hsa _]. subst.
  rewrite <- app_assoc.
  rewrite (scan_esds_quiet _ pre _ Hspre Hq) by discriminate.
  cbn [app].
  rewrite (scan_esds_step _ announce _ _ _ Hsa Ea), Ca.
  rewrite (scan_esds_end _ _ _ _ He). cbn [rbind].
  assert (Eo : scope_value_from "objectTypeId" None pre = Some oti).
  { unfold scope_value in Ho. rewrite scope_value_from_app in Ho.
    unfold scope_value_from at 1 in Ho. cbn [fold_left] in Ho.
    rewrite Ea in Ho. exact Ho. }
  rewrite Eo. reflexivity.
Qed.

(** The dump of a file whose esds atom is cut after the announcement. *)
Definition cut_dump : string :=
  join nl [
    "   f.mp4: type mp4a (moov.trak.mdia.minf.stbl.stsd.mp4a)";
    "    f.mp4: type esds (moov.trak.mdia.minf.stbl.stsd.mp4a.esds)";
    "      f.mp4: objectTypeId = 64 (0x40)";
    "      f.mp4: decSpecificInfo";
    "  f.mp4: type stts (moov.trak.mdia.minf.stbl.stts)"
  ].

Lemma pending_info_prints_ellipsis_witness :
  extract_codecs (dumps cut_dump) "f.mp4" = Ok "mp4a.40.Ellipsis".
Proof.
  refine (pending_info_prints_ellipsis (dumps cut_dump) "f.mp4" cut_dump
           (firstn 1 (split "010" cut_dump))
           (nth 1 (split "010" cut_dump) "")
           (firstn 1 (skipn 2 (split "010" cut_dump)))
           (nth 3 (split "010" cut_dump) "")
           (skipn 4 (split "010" cut_dump))
           64 eq_refl _ _ _ _ _ _ _);
    try (vm_compute; reflexivity).
  - constructor; vm_compute; repeat constructor.
  - vm_compute. repeat constructor; intros; try reflexivity; discriminate.
  - split; vm_compute; reflexivity.
Defined.


(** ** [fix_options]: the default MP4 bit rate *)

Local Open Scope Z_scope.

Module Mp4Facts.


End Mp4Facts.


